(** * Graphene (better graph view): embedding cache, text normalisation and
    similarity-graph construction

    A shallow embedding of the parts of the plugin that carry its invariants:

    - [Text]: the regular-expression driven text clean-up of
      [EmbeddingService.extractHeadingsAndFirstWords];
    - [Service]: the embedding cache of [EmbeddingService] ([getFileStatus],
      [getEmbeddingStats], [generateIncrementalEmbeddings]) and
      [calculateCosineSimilarity];
    - [View]: [createEmbeddingBasedLinks] and
      [calculateThicknessFromSimilarity] of the graph view.

    JavaScript numbers that carry similarities and thicknesses are IEEE-754
    binary64 values and are modelled by Rocq's primitive [float], whose
    operations are the same IEEE operations.  Time stamps are integral
    millisecond counts and are modelled by [Z].  Strings are sequences of
    code units; the model covers code units below 256 ([ascii]). *)

From Stdlib Require Import ZArith List Bool Ascii String Floats Uint63 Sorted.
From stdpp Require Import gmap strings list.

Set Warnings "-inexact-float".

Local Open Scope Z_scope.

(** ** Results of code that may throw *)

Inductive result (A : Type) : Type :=
| Ok (a : A)
| Throw (message : string).
Arguments Ok {A} a.
Arguments Throw {A} message.

Definition bind {A B} (r : result A) (k : A -> result B) : result B :=
  match r with
  | Ok a => k a
  | Throw m => Throw m
  end.

(* ================================================================== *)
(** ** Text: strings, a backtracking matcher and the normaliser *)
(* ================================================================== *)

Module Text.

(** *** String primitives *)

(** The white space of [\s], [String.prototype.trim] and [split(/\s+/)],
    restricted to code units below 256: TAB, LF, VT, FF, CR, SP, NBSP. *)
Definition is_ws (a : ascii) : bool :=
  match nat_of_ascii a with
  | 9%nat | 10%nat | 11%nat | 12%nat | 13%nat | 32%nat | 160%nat => true
  | _ => false
  end.

(** Line terminators (LF and CR below 256): [.] does not match them and the
    [m] flag lets [^] and [$] match next to them. *)
Definition is_line_terminator (a : ascii) : bool :=
  match nat_of_ascii a with
  | 10%nat | 13%nat => true
  | _ => false
  end.

Fixpoint trimStart (s : string) : string :=
  match s with
  | String a s' => if is_ws a then trimStart s' else s
  | EmptyString => EmptyString
  end.

(** [trimEnd] keeps a character when it is not white space or when something
    other than white space follows it. *)
Fixpoint trimEnd (s : string) : string :=
  match s with
  | String a s' =>
      match trimEnd s' with
      | EmptyString => if is_ws a then EmptyString else String a EmptyString
      | t => String a t
      end
  | EmptyString => EmptyString
  end.

Definition trim (s : string) : string := trimEnd (trimStart s).

(** [Array.prototype.join]. *)
Fixpoint join (sep : string) (l : list string) : string :=
  match l with
  | [] => EmptyString
  | [w] => w
  | w :: l' => w +:+ sep +:+ join sep l'
  end.

(** [s.split(/\s+/)]: the pieces between maximal runs of white space.  A
    leading or trailing run yields an empty first or last piece, and the
    empty string yields one empty piece. *)
Fixpoint split_ws_from (cur : string) (in_sep : bool) (s : string) : list string :=
  match s with
  | EmptyString => [cur]
  | String a s' =>
      if is_ws a then
        if in_sep then split_ws_from EmptyString true s'
        else cur :: split_ws_from EmptyString true s'
      else split_ws_from (cur +:+ String a EmptyString) false s'
  end.

Definition split_ws (s : string) : list string :=
  split_ws_from EmptyString false s.

(** [toLowerCase] on code units below 256: the letters [A]-[Z] and the
    capital letters of Latin-1 (U+00C0-U+00DE without the multiplication
    sign) move up by 32. *)
Definition lower_ascii (a : ascii) : ascii :=
  let n := nat_of_ascii a in
  if ((65 <=? n)%nat && (n <=? 90)%nat)
     || ((192 <=? n)%nat && (n <=? 222)%nat && negb (n =? 215)%nat)
  then ascii_of_nat (n + 32) else a.

Fixpoint toLowerCase (s : string) : string :=
  match s with
  | String a s' => String (lower_ascii a) (toLowerCase s')
  | EmptyString => EmptyString
  end.

(** [Array.prototype.slice(start, end)] with its relative (negative)
    indices. *)
Definition slice {A} (l : list A) (start finish : Z) : list A :=
  let len := Z.of_nat (length l) in
  let k := if start <? 0 then Z.max (len + start) 0 else Z.min start len in
  let final := if finish <? 0 then Z.max (len + finish) 0 else Z.min finish len in
  take (Z.to_nat (Z.max (final - k) 0)) (drop (Z.to_nat k) l).

(** *** A backtracking matcher for the expressions the service uses *)

Inductive cls : Type :=
| CAny                (* [\s\S] *)
| CDot                (* .      *)
| CWs                 (* \s     *)
| CChar (c : ascii).  (* a literal character *)

Definition cls_ok (k : cls) (a : ascii) : bool :=
  match k with
  | CAny => true
  | CDot => negb (is_line_terminator a)
  | CWs => is_ws a
  | CChar c => Ascii.eqb c a
  end.

(** One item of a pattern.  [Rep k lo hi greedy capture] is the class [k]
    quantified [{lo,hi}] ([hi = None] for no upper bound), greedy or lazy;
    [capture] marks the quantified class as capture group 1. *)
Inductive item : Type :=
| Bol                 (* ^ under the m flag *)
| Eol                 (* $ under the m flag *)
| One (k : cls)
| Rep (k : cls) (lo : nat) (hi : option nat) (greedy capture : bool).

Record mstate : Type := MState {
  m_prev : option ascii;      (* the character before the current position *)
  m_rest : string;            (* the input from the current position on *)
  m_group1 : option string    (* capture group 1 *)
}.

Definition at_bol (prev : option ascii) : bool :=
  match prev with
  | None => true
  | Some a => is_line_terminator a
  end.

Definition at_eol (s : string) : bool :=
  match s with
  | EmptyString => true
  | String a _ => is_line_terminator a
  end.

Definition below (n : nat) (hi : option nat) : bool :=
  match hi with
  | None => true
  | Some h => (n <? h)%nat
  end.

(** The quantifier loop: [n] characters are consumed so far ([acc]); a greedy
    quantifier first tries one more character and falls back to the
    continuation, a lazy one does the opposite. *)
Fixpoint rep (k : cls) (lo : nat) (hi : option nat) (greedy capture : bool)
    (next : option ascii -> string -> option string -> option mstate)
    (n : nat) (acc : string)
    (prev : option ascii) (s : string) (g : option string) {struct s} : option mstate :=
  let stop (_ : unit) :=
    if (lo <=? n)%nat then next prev s (if capture then Some acc else g) else None in
  let more (_ : unit) :=
    match s with
    | String a s' =>
        if cls_ok k a && below n hi
        then rep k lo hi greedy capture next (S n) (acc +:+ String a EmptyString) (Some a) s' g
        else None
    | EmptyString => None
    end in
  if greedy then
    match more tt with
    | Some r => Some r
    | None => stop tt
    end
  else
    match stop tt with
    | Some r => Some r
    | None => more tt
    end.

Fixpoint matchItems (re : list item)
    (prev : option ascii) (s : string) (g : option string) {struct re} : option mstate :=
  match re with
  | [] => Some (MState prev s g)
  | Bol :: r => if at_bol prev then matchItems r prev s g else None
  | Eol :: r => if at_eol s then matchItems r prev s g else None
  | One k :: r =>
      match s with
      | String a s' => if cls_ok k a then matchItems r (Some a) s' g else None
      | EmptyString => None
      end
  | Rep k lo hi greedy capture :: r =>
      rep k lo hi greedy capture (matchItems r) 0 EmptyString prev s g
  end.

(** The leftmost match at or after the current position, with the text
    skipped before it. *)
Fixpoint search (re : list item) (prev : option ascii) (s : string) (skipped : string)
    : option (string * mstate) :=
  match matchItems re prev s None with
  | Some m => Some (skipped, m)
  | None =>
      match s with
      | String a s' => search re (Some a) s' (skipped +:+ String a EmptyString)
      | EmptyString => None
      end
  end.

(** [s.replace(re, '')] without the [g] flag: the leftmost match is removed. *)
Definition replace_first (re : list item) (s : string) : string :=
  match search re None s EmptyString with
  | Some (pre, m) => pre +:+ m_rest m
  | None => s
  end.

(** [s.replace(re, '')] with the [g] flag.  The scan goes left to right;
    [inside] counts the characters of the current match still to drop.  An
    empty match removes nothing and the scan moves on by one character. *)
Fixpoint replace_all_from (re : list item) (prev : option ascii) (inside : nat) (s : string)
    : string :=
  match s with
  | EmptyString => EmptyString
  | String a s' =>
      match inside with
      | S k => replace_all_from re (Some a) k s'
      | O =>
          match matchItems re prev s None with
          | Some m =>
              match (String.length s - String.length (m_rest m))%nat with
              | S k => replace_all_from re (Some a) k s'
              | O => String a (replace_all_from re (Some a) O s')
              end
          | None => String a (replace_all_from re (Some a) O s')
          end
      end
  end.

Definition replace_all (re : list item) (s : string) : string :=
  replace_all_from re None O s.

(** The [while ((match = re.exec(content)) !== null)] loop of a [g] pattern:
    capture group 1 of every successive match, trimmed.  The heading pattern
    consumes at least three characters, so [lastIndex] always advances. *)
Fixpoint exec_all_from (re : list item) (prev : option ascii) (inside : nat) (s : string)
    : list string :=
  match s with
  | EmptyString => []
  | String a s' =>
      match inside with
      | S k => exec_all_from re (Some a) k s'
      | O =>
          match matchItems re prev s None with
          | Some m =>
              match m_group1 m with
              | Some g => [trim g]
              | None => []
              end ++ exec_all_from re (Some a)
                       (String.length s - String.length (m_rest m) - 1)%nat s'
          | None => exec_all_from re (Some a) O s'
          end
      end
  end.

Definition exec_all (re : list item) (s : string) : list string :=
  exec_all_from re None O s.

Definition lit (c : string) : list item :=
  map (fun a => One (CChar a)) (list_ascii_of_string c).

(** [/^#{1,6}\s+(.+)$/gm] *)
Definition headingRegex : list item :=
  [Bol; Rep (CChar "#") 1 (Some 6%nat) true false; Rep CWs 1 None true false;
   Rep CDot 1 None true true; Eol].

(** [/^---[\s\S]*?---\n?/m] *)
Definition frontmatterRegex : list item :=
  [Bol] ++ lit "---" ++ [Rep CAny 0 None false false] ++ lit "---"
  ++ [Rep (CChar "010") 0 (Some 1%nat) true false].

(** [/^#{1,6}\s+.*$/gm] *)
Definition headingLineRegex : list item :=
  [Bol; Rep (CChar "#") 1 (Some 6%nat) true false; Rep CWs 1 None true false;
   Rep CDot 0 None true false; Eol].

(** [/```[\s\S]*?```/g] *)
Definition codeBlockRegex : list item :=
  lit "```" ++ [Rep CAny 0 None false false] ++ lit "```".

(** [/\[.*?\]\(.*?\)/g] *)
Definition linkRegex : list item :=
  lit "[" ++ [Rep CDot 0 None false false] ++ lit "](" ++ [Rep CDot 0 None false false]
  ++ lit ")".

(** *** The normaliser *)

(** The two settings the normaliser reads through the plugin registry; a
    field is [None] when it is undefined (or when the plugin or its settings
    are not there at all). *)
Record Settings : Type := {
  embeddingWordSkip : option Z;
  excludeHeadingsFromEmbedding : option bool
}.

Definition STOP : list string :=
  ["the"; "a"; "an"; "and"; "or"; "of"; "in"; "to"; "for"; "on"; "with"; "by"; "at";
   "from"; "this"; "that"; "is"; "are"; "be"; "it"; "as"; "was"; "were"; "will";
   "can"; "could"; "should"; "would"; "have"; "has"; "had"; "about"; "note";
   "daily"; "template"; "summary"; "tags"]%string.

Definition STOP_has (w : string) : bool :=
  existsb (String.eqb w) STOP.

Definition nonempty (w : string) : bool :=
  negb (String.eqb w EmptyString).

Definition bodyText (content : string) : string :=
  let contentWithoutFrontmatter := replace_first frontmatterRegex content in
  trim (replace_all linkRegex
         (replace_all codeBlockRegex
           (replace_all headingLineRegex contentWithoutFrontmatter))).

Definition extractHeadingsAndFirstWords
    (settings : Settings) (content : string) (wordLimit : Z) : string :=
  (* settings?.embeddingWordSkip || 0 *)
  let wordSkip :=
    match embeddingWordSkip settings with
    | Some k => k
    | None => 0
    end in
  (* settings?.excludeHeadingsFromEmbedding ?? true *)
  let excludeHeadings :=
    match excludeHeadingsFromEmbedding settings with
    | Some b => b
    | None => true
    end in
  let headings := exec_all headingRegex content in
  let words := List.filter (fun word => nonempty word) (split_ws (bodyText content)) in
  let filteredWords := List.filter (fun w => negb (STOP_has (toLowerCase w))) words in
  let startIdx := Z.max 0 wordSkip in
  let endIdx := Z.min (Z.of_nat (length filteredWords)) (startIdx + wordLimit) in
  let selectedWords := slice filteredWords startIdx endIdx in
  let firstWords := join " " selectedWords in
  let combinedText :=
    if excludeHeadings then firstWords
    else
      let headingText := join " | " headings in
      if nonempty headingText
      then headingText +:+ String "010" (String "010" EmptyString) +:+ firstWords
      else firstWords in
  trim combinedText.

(** The default of the [wordLimit] parameter; every caller relies on it. *)
Definition defaultWordLimit : Z := 100.

End Text.

(* ================================================================== *)
(** ** Service: the embedding cache and cosine similarity *)
(* ================================================================== *)

Module Service.

(** *** Data of [types.ts] *)

(** ['up-to-date' | 'modified' | 'new' | 'processing'] *)
Inductive Status : Type := UpToDate | Modified | New | Processing.

Record FileEmbeddingStatus : Type := {
  path : string;
  lastModified : Z;
  embeddingGenerated : Z;
  status : Status
}.

Record EmbeddingCache : Type := {
  version : string;
  files : gmap string FileEmbeddingStatus;
  embeddings : gmap string (list float)
}.

(** What the service reads of a [TFile]: [file.path] and [file.stat.mtime]. *)
Record TFile : Type := {
  file_path : string;
  file_mtime : Z
}.

(** The cache the constructor and [clearCache] install. *)
Definition emptyCache : EmbeddingCache :=
  {| version := "1.0.0"; files := ∅; embeddings := ∅ |}.

(** *** [getFileStatus] *)

Definition getFileStatus (cache : EmbeddingCache) (file : TFile) : Status :=
  match files cache !! file_path file with
  | None => New
  | Some cached =>
      if embeddingGenerated cached <? file_mtime file then Modified else UpToDate
  end.

(** *** [getEmbeddingStats] *)

Record Stats : Type := {
  total : nat;
  upToDate : nat;
  modified : nat;
  new : nat;
  processing : nat
}.

Definition countStatus (stats : Stats) (st : Status) : Stats :=
  match st with
  | UpToDate =>
      {| total := total stats; upToDate := S (upToDate stats); modified := modified stats;
         new := new stats; processing := processing stats |}
  | Modified =>
      {| total := total stats; upToDate := upToDate stats; modified := S (modified stats);
         new := new stats; processing := processing stats |}
  | New =>
      {| total := total stats; upToDate := upToDate stats; modified := modified stats;
         new := S (new stats); processing := processing stats |}
  | Processing =>
      {| total := total stats; upToDate := upToDate stats; modified := modified stats;
         new := new stats; processing := S (processing stats) |}
  end.

Definition getEmbeddingStats (cache : EmbeddingCache) (markdownFiles : list TFile) : Stats :=
  fold_left (fun stats file => countStatus stats (getFileStatus cache file))
    markdownFiles
    {| total := length markdownFiles; upToDate := 0; modified := 0; new := 0;
       processing := 0 |}.

(** *** [generateIncrementalEmbeddings] *)

(** [haystack.includes(needle)] *)
Fixpoint includes (needle haystack : string) : bool :=
  if String.prefix needle haystack then true
  else
    match haystack with
    | String _ rest => includes needle rest
    | EmptyString => false
    end.

(** What the run awaits from outside: the vault's [read], the provider behind
    [getEmbedding] (either may throw an error with a message) and the clock
    behind [Date.now()], given as the value of its n-th reading. *)
Record World : Type := {
  vault_read : TFile -> result string;
  getEmbedding : string -> result (list float);
  now : nat -> Z
}.

(** The state of a run: the cache it mutates, its two counters, how often
    the clock was read, and the paths handed to the provider so far. *)
Record Run : Type := {
  cache : EmbeddingCache;
  processed : nat;
  failed : nat;
  clock : nat;
  attempted : list string
}.

Definition setFile (c : EmbeddingCache) (p : string) (r : FileEmbeddingStatus)
    : EmbeddingCache :=
  {| version := version c; files := <[p := r]> (files c); embeddings := embeddings c |}.

Definition setStatus (c : EmbeddingCache) (p : string) (s : Status) : EmbeddingCache :=
  {| version := version c;
     files := alter (fun r => {| path := path r; lastModified := lastModified r;
                                 embeddingGenerated := embeddingGenerated r;
                                 status := s |}) p (files c);
     embeddings := embeddings c |}.

Definition setEmbeddingGenerated (c : EmbeddingCache) (p : string) (t : Z)
    : EmbeddingCache :=
  {| version := version c;
     files := alter (fun r => {| path := path r; lastModified := lastModified r;
                                 embeddingGenerated := t; status := status r |}) p (files c);
     embeddings := embeddings c |}.

Definition setEmbedding (c : EmbeddingCache) (p : string) (e : list float)
    : EmbeddingCache :=
  {| version := version c; files := files c; embeddings := <[p := e]> (embeddings c) |}.

(** The body of [for (const file of needsUpdate)].  The record is first set
    to ['processing']; the [try] block reads the file, cleans the text and
    asks for the embedding; the [catch] block counts the failure, leaves the
    loop on a message that includes ['429'] and only then marks the record
    ['modified'].  Logging, notices, progress call-backs, the periodic
    [saveCache] and the pause between requests do not touch the cache and
    are left out. *)
Fixpoint processFiles (settings : Text.Settings) (w : World)
    (needsUpdate : list TFile) (st : Run) : Run :=
  match needsUpdate with
  | [] => st
  | file :: pending =>
      let p := file_path file in
      let c1 := setFile (cache st) p
                  {| path := p; lastModified := file_mtime file;
                     embeddingGenerated := now w (clock st); status := Processing |} in
      let attempted1 := attempted st ++ [p] in
      match bind (vault_read w file)
                 (fun content =>
                    getEmbedding w
                      (Text.extractHeadingsAndFirstWords settings content
                         Text.defaultWordLimit)) with
      | Ok embedding =>
          if (0 <? length embedding)%nat then
            let c2 := setEmbedding c1 p embedding in
            let c3 := setStatus c2 p UpToDate in
            let c4 := setEmbeddingGenerated c3 p (now w (S (clock st))) in
            processFiles settings w pending
              {| cache := c4; processed := S (processed st); failed := failed st;
                 clock := S (S (clock st)); attempted := attempted1 |}
          else
            processFiles settings w pending
              {| cache := c1; processed := processed st; failed := S (failed st);
                 clock := S (clock st); attempted := attempted1 |}
      | Throw message =>
          if Text.nonempty message && includes "429" message then
            (* break *)
            {| cache := c1; processed := processed st; failed := S (failed st);
               clock := S (clock st); attempted := attempted1 |}
          else
            processFiles settings w pending
              {| cache := setStatus c1 p Modified; processed := processed st;
                 failed := S (failed st); clock := S (clock st);
                 attempted := attempted1 |}
      end
  end.

Definition needsUpdate (c : EmbeddingCache) (markdownFiles : list TFile) : list TFile :=
  List.filter (fun file => match getFileStatus c file with
                           | New | Modified => true
                           | _ => false
                           end) markdownFiles.

Definition generateIncrementalEmbeddings (settings : Text.Settings) (w : World)
    (c : EmbeddingCache) (markdownFiles : list TFile) : Run :=
  processFiles settings w (needsUpdate c markdownFiles)
    {| cache := c; processed := 0; failed := 0; clock := 0; attempted := [] |}.

(** *** [calculateCosineSimilarity] *)

Local Open Scope float_scope.

(** The three accumulators of the [for] loop. *)
Fixpoint cosineLoop (vec1 vec2 : list float) (dotProduct magnitude1 magnitude2 : float)
    : float * float * float :=
  match vec1, vec2 with
  | a :: vec1', b :: vec2' =>
      cosineLoop vec1' vec2' (dotProduct + a * b) (magnitude1 + a * a) (magnitude2 + b * b)
  | _, _ => (dotProduct, magnitude1, magnitude2)
  end.

Definition calculateCosineSimilarity (vec1 vec2 : list float) : result float :=
  if negb (length vec1 =? length vec2)%nat then
    Throw "Vectors must have the same length"
  else
    let '(dotProduct, magnitude1, magnitude2) := cosineLoop vec1 vec2 0 0 0 in
    let magnitude1 := PrimFloat.sqrt magnitude1 in
    let magnitude2 := PrimFloat.sqrt magnitude2 in
    if (magnitude1 =? 0) || (magnitude2 =? 0) then Ok 0
    else Ok (dotProduct / (magnitude1 * magnitude2)).

End Service.

(* ================================================================== *)
(** ** View: similarity links of the graph view *)
(* ================================================================== *)

Module View.

Local Open Scope float_scope.

(** *** Data *)

(** The fields of [BetterGraphSettings] the link construction reads.  The two
    optional ones are [None] when undefined. *)
Record Settings : Type := {
  similarityThreshold : float;
  maxSimilarLinksPerNode : option Z;
  dynamicSimilarityPruning : option bool;
  minLinkThickness : float;
  maxLinkThickness : float
}.

(** What the construction reads of a [GraphNode]. *)
Record GraphNode : Type := {
  node_id : string;                    (* id *)
  embedding : option (list float)
}.

Inductive LinkType : Type := ManualLink | TagLink.

Record GraphLink : Type := {
  source : string;
  target : string;
  link_id : string;                    (* id *)
  similarity : option float;
  thickness : option float;
  link_type : option LinkType          (* type *)
}.

(** One entry of a node's candidate array: [{ otherId, sim }]. *)
Record Candidate : Type := {
  otherId : string;
  sim : float
}.

(** [perNodeCandidates]: a [Map] from node id to candidate array; its
    iteration order is the order in which the keys were first set. *)
Definition CandidateMap : Type := list (string * list Candidate).

(** *** JavaScript numbers *)

(** An array length as a number. *)
Definition of_length (n : nat) : float :=
  PrimFloat.of_uint63 (Uint63.of_Z (Z.of_nat n)).

(** [Math.max(a, b)]: NaN if either is NaN, and [+0] is larger than [-0]. *)
Definition Math_max (a b : float) : float :=
  if is_nan a || is_nan b then nan
  else if a <? b then b
  else if b <? a then a
  else match classify a with
       | NZero => b
       | _ => a
       end.

(** [Array.prototype.sort(compare)] is stable, and [compare x y > 0] is what
    moves [y] in front of an earlier [x].  For a comparator that orders its
    arguments consistently, every stable sort yields the list that the
    insertion sort below yields. *)
Section Sort.
Context {A : Type} (compare : A -> A -> float).

Fixpoint sort_insert (x : A) (l : list A) : list A :=
  match l with
  | [] => [x]
  | y :: l' => if 0 <? compare x y then y :: sort_insert x l' else x :: l
  end.

Definition sort (l : list A) : list A := foldr sort_insert [] l.
End Sort.

(** *** [calculateThicknessFromSimilarity] *)

Definition calculateThicknessFromSimilarity (settings : Settings) (similarity : float)
    : float :=
  let normalizedSimilarity :=
    (similarity - similarityThreshold settings) / (1.0 - similarityThreshold settings) in
  minLinkThickness settings
  + normalizedSimilarity * (maxLinkThickness settings - minLinkThickness settings).

(** *** [createEmbeddingBasedLinks] *)

(** The template literal [`${a}|${b}`]. *)
Definition pairString (a b : string) : string := a +:+ "|" +:+ b.

(** [manualLinkPairs]: both directions of every manual link. *)
Definition manualLinkPairs (links : list GraphLink) : gset string :=
  fold_left
    (fun pairs link =>
       match link_type link with
       | Some ManualLink =>
           pairs ∪ {[ pairString (source link) (target link) ]}
                 ∪ {[ pairString (target link) (source link) ]}
       | _ => pairs
       end)
    links ∅.

Definition map_has (m : CandidateMap) (k : string) : bool :=
  existsb (fun entry => String.eqb (fst entry) k) m.

(** [if (!m.has(k)) m.set(k, [])] *)
Definition map_init (m : CandidateMap) (k : string) : CandidateMap :=
  if map_has m k then m else m ++ [(k, [])].

(** [m.get(k)!.push(c)] *)
Fixpoint map_push (m : CandidateMap) (k : string) (c : Candidate) : CandidateMap :=
  match m with
  | [] => []
  | (k', cs) :: m' =>
      if String.eqb k' k then (k', cs ++ [c]) :: m' else (k', cs) :: map_push m' k c
  end.

(** The inner loop [for (let j = i + 1; ...)] for a node [nodeA] that has an
    embedding; [later] are the nodes after it. *)
Fixpoint collectFrom (settings : Settings) (manual : gset string)
    (nodeA : GraphNode) (embeddingA : list float)
    (later : list GraphNode) (perNodeCandidates : CandidateMap) : result CandidateMap :=
  match later with
  | [] => Ok perNodeCandidates
  | nodeB :: later' =>
      match embedding nodeB with
      | None => collectFrom settings manual nodeA embeddingA later' perNodeCandidates
      | Some embeddingB =>
          if decide (pairString (node_id nodeA) (node_id nodeB) ∈ manual) then
            collectFrom settings manual nodeA embeddingA later' perNodeCandidates
          else
            bind (Service.calculateCosineSimilarity embeddingA embeddingB)
              (fun similarity =>
                 if similarityThreshold settings <=? similarity then
                   let m1 := map_init perNodeCandidates (node_id nodeA) in
                   let m2 := map_init m1 (node_id nodeB) in
                   let m3 := map_push m2 (node_id nodeA)
                               {| otherId := node_id nodeB; sim := similarity |} in
                   let m4 := map_push m3 (node_id nodeB)
                               {| otherId := node_id nodeA; sim := similarity |} in
                   collectFrom settings manual nodeA embeddingA later' m4
                 else
                   collectFrom settings manual nodeA embeddingA later' perNodeCandidates)
      end
  end.

(** The outer loop [for (let i = 0; ...)]. *)
Fixpoint collectCandidates (settings : Settings) (manual : gset string)
    (nodesArray : list GraphNode) (perNodeCandidates : CandidateMap) : result CandidateMap :=
  match nodesArray with
  | [] => Ok perNodeCandidates
  | nodeA :: later =>
      match embedding nodeA with
      | None => collectCandidates settings manual later perNodeCandidates
      | Some embeddingA =>
          bind (collectFrom settings manual nodeA embeddingA later perNodeCandidates)
            (fun m => collectCandidates settings manual later m)
      end
  end.

(** [maxSimilarLinksPerNode || 0] and [dynamicSimilarityPruning || false] *)
Definition maxLinks (settings : Settings) : Z :=
  match maxSimilarLinksPerNode settings with
  | Some n => n
  | None => 0%Z
  end.

Definition useDynamic (settings : Settings) : bool :=
  match dynamicSimilarityPruning settings with
  | Some b => b
  | None => false
  end.

(** [thresholdAdj] of one node. *)
Definition thresholdAdj (settings : Settings) (candidates : list Candidate) : float :=
  let thresholdAdj := similarityThreshold settings in
  if useDynamic settings && (4 <=? length candidates)%nat then
    let sims := map sim candidates in
    let mean := fold_left (fun a b => a + b) sims 0 / of_length (length sims) in
    let variance :=
      fold_left (fun a b => a + (b - mean) * (b - mean)) sims 0 / of_length (length sims) in
    let std := PrimFloat.sqrt variance in
    Math_max thresholdAdj (mean + 0.35 * std)
  else thresholdAdj.

(** The candidates of one node that survive: filtered with the adjusted
    threshold, sorted by [(a, b) => b.sim - a.sim], cut to [maxLinks]. *)
Definition pruneCandidates (settings : Settings) (candidates : list Candidate)
    : list Candidate :=
  let adj := thresholdAdj settings candidates in
  let filtered := List.filter (fun c => adj <=? sim c) candidates in
  let filtered := sort (fun a b => sim b - sim a) filtered in
  if (0 <? maxLinks settings)%Z && (maxLinks settings <? Z.of_nat (length filtered))%Z
  then Text.slice filtered 0 (maxLinks settings)
  else filtered.

(** [a < b ? `${a}|${b}` : `${b}|${a}`] *)
Definition pairKey (a b : string) : string :=
  if String.ltb a b then pairString a b else pairString b a.

(** [for (const c of filtered)]: [addedPairs] and the links pushed so far
    are threaded through. *)
Fixpoint addLinks (settings : Settings) (nodeId : string) (filtered : list Candidate)
    (state : gset string * list GraphLink) : gset string * list GraphLink :=
  match filtered with
  | [] => state
  | c :: filtered' =>
      let '(addedPairs, links) := state in
      let a := nodeId in
      let b := otherId c in
      if decide (pairKey a b ∈ addedPairs) then addLinks settings nodeId filtered' state
      else
        addLinks settings nodeId filtered'
          (addedPairs ∪ {[ pairKey a b ]},
           links ++ [ {| source := a; target := b; link_id := a +:+ "<->" +:+ b;
                         similarity := Some (sim c);
                         thickness :=
                           Some (calculateThicknessFromSimilarity settings (sim c));
                         link_type := None |} ])
  end.

(** [perNodeCandidates.forEach((candidates, nodeId) => ...)] *)
Fixpoint forEachNode (settings : Settings) (perNodeCandidates : CandidateMap)
    (state : gset string * list GraphLink) : gset string * list GraphLink :=
  match perNodeCandidates with
  | [] => state
  | (nodeId, candidates) :: rest =>
      match candidates with
      | [] => forEachNode settings rest state
      | _ =>
          forEachNode settings rest
            (addLinks settings nodeId (pruneCandidates settings candidates) state)
      end
  end.

(** The links the call pushes onto [this.links], in order; the call throws
    when a similarity computation throws, and then nothing was pushed. *)
Definition similarityLinks (settings : Settings) (links : list GraphLink)
    (nodesArray : list GraphNode) : result (list GraphLink) :=
  bind (collectCandidates settings (manualLinkPairs links) nodesArray [])
    (fun perNodeCandidates => Ok (snd (forEachNode settings perNodeCandidates (∅, [])))).

(** [this.links] after the call. *)
Definition createEmbeddingBasedLinks (settings : Settings) (links : list GraphLink)
    (nodesArray : list GraphNode) : result (list GraphLink) :=
  bind (similarityLinks settings links nodesArray) (fun pushed => Ok (links ++ pushed)).

End View.

(* ================================================================== *)
(** * Further code of the service *)
(* ================================================================== *)

Module ServiceUtil.
Import Service.

(** *** [getLastUpdateTime] *)

(** [Math.max(...times)] for a non-empty array. *)
Definition maxOf (t : Z) (ts : list Z) : Z := fold_left Z.max ts t.

Definition getLastUpdateTime (c : EmbeddingCache) : Z :=
  let times :=
    List.filter (fun t => 0 <? t)
      (map (fun entry => embeddingGenerated (snd entry)) (map_to_list (files c))) in
  match times with
  | [] => 0
  | t :: ts => maxOf t ts
  end.

(** *** [clearCache] and [getFileEmbedding] *)

(** The cache after [clearCache]; saving it does not change it. *)
Definition clearCache (c : EmbeddingCache) : EmbeddingCache :=
  {| version := "1.0.0"; files := ∅; embeddings := ∅ |}.

Definition getFileEmbedding (c : EmbeddingCache) (p : string) : option (list float) :=
  embeddings c !! p.

(** *** [estimateTokenCount] and [isWithinTokenLimit] *)

(** [Math.ceil(n / 4)] for a length [n]: lengths are integers far below
    2^53, for which the quotient by 4 is exact. *)
Definition ceilQuarter (n : Z) : Z :=
  if n mod 4 =? 0 then n / 4 else n / 4 + 1.

Definition estimateTokenCount (text : string) : Z :=
  ceilQuarter (Z.of_nat (String.length text)).

Definition isWithinTokenLimit (text : string) (maxTokens : Z) : bool :=
  estimateTokenCount text <=? maxTokens.

(** The default of [maxTokens]. *)
Definition defaultMaxTokens : Z := 8191.

(** *** The normalisation at the end of [getEmbedding] *)

Local Open Scope float_scope.

(** [x || d] for numbers: [0], [-0] and NaN are falsy. *)
Definition orElse (x d : float) : float :=
  if (x =? 0) || is_nan x then d else x.

(** What [getEmbedding] returns for the vector [vec] the provider sent. *)
Definition normalize (vec : list float) : list float :=
  let norm := fold_left (fun norm v => norm + v * v) vec 0 in
  let norm := orElse (PrimFloat.sqrt norm) 1 in
  map (fun v => v / norm) vec.

End ServiceUtil.

(* ================================================================== *)
(** * Further code of the graph view *)
(* ================================================================== *)

Module ViewGraph.
Import Service View.

(** *** The node map of [loadGraphData] *)

(** [nodeMap.set(k, v)]: the value of an existing key is replaced in place,
    a new key goes to the end. *)
Fixpoint nodeMap_set (m : list (string * GraphNode)) (k : string) (v : GraphNode)
    : list (string * GraphNode) :=
  match m with
  | [] => [(k, v)]
  | (k', v') :: m' =>
      if String.eqb k' k then (k', v) :: m' else (k', v') :: nodeMap_set m' k v
  end.

Definition nodeMap_has (m : list (string * GraphNode)) (k : string) : bool :=
  existsb (fun entry => String.eqb (fst entry) k) m.

(** The loop [for (const file of files)] that creates the file nodes;
    [getEmbeddingLocally] is the stored vector of a path, if any. *)
Definition fileNodeMap (getEmbeddingLocally : string -> option (list float))
    (files : list TFile) : list (string * GraphNode) :=
  fold_left
    (fun nodeMap file =>
       nodeMap_set nodeMap (file_path file)
         {| node_id := file_path file;
            embedding := getEmbeddingLocally (file_path file) |})
    files [].

(** [Array.from(nodeMap.values())] *)
Definition nodeMap_values (m : list (string * GraphNode)) : list GraphNode := map snd m.

(** *** [createTraditionalLinks] *)

(** What the metadata cache answers: the link texts of a file
    ([getFileCache(file)?.links]) and the path a link text resolves to
    ([getFirstLinkpathDest(link, sourcePath)?.path]). *)
Record Metadata : Type := {
  linksOf : TFile -> option (list string);
  getFirstLinkpathDest : string -> string -> option string
}.

Definition traditionalLinksOf (defaultLinkThickness : float) (meta : Metadata)
    (nodeMap : list (string * GraphNode)) (file : TFile) (links : list GraphLink)
    : list GraphLink :=
  match linksOf meta file with
  | None => links
  | Some texts =>
      fold_left
        (fun links text =>
           match getFirstLinkpathDest meta text (file_path file) with
           | Some targetPath =>
               if nodeMap_has nodeMap targetPath then
                 links ++ [ {| source := file_path file; target := targetPath;
                               link_id := file_path file +:+ "->" +:+ targetPath;
                               similarity := None;
                               thickness := Some defaultLinkThickness;
                               link_type := Some ManualLink |} ]
               else links
           | None => links
           end)
        texts links
  end.

(** [this.links] after the call. *)
Definition createTraditionalLinks (defaultLinkThickness : float) (meta : Metadata)
    (files : list TFile) (nodeMap : list (string * GraphNode)) (links : list GraphLink)
    : list GraphLink :=
  fold_left (fun links file => traditionalLinksOf defaultLinkThickness meta nodeMap file links)
    files links.

(** *** The links of the modal's [buildGraphData] *)

(** The inner loop over the links of one file; [linkSet] holds the ids
    pushed so far. *)
Definition modalLinksOf (meta : Metadata) (nodeMap : list (string * GraphNode))
    (file : TFile) (state : gset string * list GraphLink) : gset string * list GraphLink :=
  match linksOf meta file with
  | None => state
  | Some texts =>
      fold_left
        (fun state text =>
           match getFirstLinkpathDest meta text (file_path file) with
           | Some targetPath =>
               if nodeMap_has nodeMap targetPath then
                 let linkId := file_path file +:+ "->" +:+ targetPath in
                 if decide (linkId ∈ fst state) then state
                 else (fst state ∪ {[ linkId ]},
                       snd state ++ [ {| source := file_path file; target := targetPath;
                                         link_id := linkId; similarity := None;
                                         thickness := None; link_type := None |} ])
               else state
           | None => state
           end)
        texts state
  end.

(** [this.links] after [buildGraphData], for the node map it builds from
    the same files. *)
Definition buildGraphData (meta : Metadata) (files : list TFile) (links : list GraphLink)
    : list GraphLink :=
  let nodeMap := fileNodeMap (fun _ => None) files in
  snd (fold_left (fun state file => modalLinksOf meta nodeMap file state) files (∅, links)).

End ViewGraph.

(* ================================================================== *)
(** * Tags: the tag nodes and tag links of the graph view *)
(* ================================================================== *)

Module Tags.
Import Service View ViewGraph.

(** What the metadata cache holds about the tags of a file: the [tag] of
    every entry of [cache.tags], and the strings that the front matter
    entry ['ai-tags'] decodes to (an array as it is, a string through
    [JSON.parse] or, failing that, its quoted words).  Both loops of the view
    decode the entry in the same way; a list is empty when there is no
    cache, no entry or nothing to decode.  The decoded elements are taken to
    be strings, as the type of the entry says. *)
Record TagCache : Type := {
  tagsOf : TFile -> list string;
  aiTagsOf : TFile -> list string
}.

(** The fields of a tag node that differ between tag nodes. *)
Record TagNode : Type := {
  tag_id : string;                     (* id, name and path *)
  connectionCount : nat
}.

(** [allTags.add(x)] on a [Set], kept in insertion order. *)
Definition set_add (s : list string) (x : string) : list string :=
  if existsb (String.eqb x) s then s else s ++ [x].

(** [allTags.add(tag); tagConnectionCount.set(tag, (get(tag) || 0) + 1)] *)
Definition countTag (st : list string * gmap string nat) (tag : string)
    : list string * gmap string nat :=
  (set_add (fst st) tag, <[ tag := (default 0%nat (snd st !! tag) + 1)%nat ]> (snd st)).

(** The body of the loop over the files that collects the tags. *)
Definition collectTags (cache : TagCache) (file : TFile)
    (st : list string * gmap string nat) : list string * gmap string nat :=
  fold_left (fun st tag => countTag st ("#" +:+ tag)) (aiTagsOf cache file)
    (fold_left countTag (tagsOf cache file) st).

(** [tagNodes] of [loadGraphData] when tags are shown, in the order of the
    map; [tagConnectionCount.get(tag) || 1] is the count of a node. *)
Definition tagNodeMap (cache : TagCache) (files : list TFile) : list TagNode :=
  let st := fold_left (fun st file => collectTags cache file st) files ([], ∅) in
  map (fun tag =>
         {| tag_id := tag;
            connectionCount := match snd st !! tag with
                               | Some (S n) => S n
                               | _ => 1%nat
                               end |})
    (fst st).

(** [nodeMap.get(k)] and [tagNodes.get(k)] *)
Definition nodeMap_get (m : list (string * GraphNode)) (k : string) : option GraphNode :=
  option_map snd (List.find (fun entry => String.eqb (fst entry) k) m).

Definition tagNodes_get (m : list TagNode) (k : string) : option TagNode :=
  List.find (fun node => String.eqb (tag_id node) k) m.

(** [tag.startsWith('#')] *)
Definition startsWithHash (tag : string) : bool :=
  match tag with
  | String c _ => Ascii.eqb c "#"
  | EmptyString => false
  end.

Definition tagLink (kind : string) (fileNode : GraphNode) (tagNode : TagNode) : GraphLink :=
  {| source := node_id fileNode; target := tag_id tagNode;
     link_id := node_id fileNode +:+ kind +:+ tag_id tagNode;
     similarity := None; thickness := None; link_type := Some TagLink |}.

(** The body of [createTagLinks] for one file. *)
Definition tagLinksOf (cache : TagCache) (nodeMap : list (string * GraphNode))
    (tagNodes : list TagNode) (file : TFile) (links : list GraphLink) : list GraphLink :=
  match nodeMap_get nodeMap (file_path file) with
  | None => links
  | Some fileNode =>
      let links :=
        fold_left
          (fun links tag =>
             match tagNodes_get tagNodes tag with
             | Some tagNode => links ++ [tagLink "-tag-" fileNode tagNode]
             | None => links
             end)
          (tagsOf cache file) links in
      fold_left
        (fun links tag =>
           let tagWithHash := if startsWithHash tag then tag else "#" +:+ tag in
           match tagNodes_get tagNodes tagWithHash with
           | Some tagNode => links ++ [tagLink "-ai-tag-" fileNode tagNode]
           | None => links
           end)
        (aiTagsOf cache file) links
  end.

(** [this.links] after [createTagLinks]. *)
Definition createTagLinks (cache : TagCache) (files : list TFile)
    (nodeMap : list (string * GraphNode)) (tagNodes : list TagNode)
    (links : list GraphLink) : list GraphLink :=
  fold_left (fun links file => tagLinksOf cache nodeMap tagNodes file links) files links.

End Tags.

(* ================================================================== *)
(** * Cleaning the text that is embedded *)
(* ================================================================== *)

Module TextClean.
Import Text.

(** [s.replace(re, replacement)] with the [g] flag, where the replacement
    is computed from the match ([$1] reads capture group 1).  An empty match
    inserts the replacement and the scan moves on by one character. *)
Fixpoint substitute_all_from (re : list item) (replacement : mstate -> string)
    (prev : option ascii) (inside : nat) (s : string) : string :=
  match s with
  | EmptyString =>
      match inside, matchItems re prev EmptyString None with
      | O, Some m => replacement m
      | _, _ => EmptyString
      end
  | String a s' =>
      match inside with
      | S k => substitute_all_from re replacement (Some a) k s'
      | O =>
          match matchItems re prev s None with
          | Some m =>
              replacement m
              +:+ match (String.length s - String.length (m_rest m))%nat with
                  | S k => substitute_all_from re replacement (Some a) k s'
                  | O => String a (substitute_all_from re replacement (Some a) O s')
                  end
          | None => String a (substitute_all_from re replacement (Some a) O s')
          end
      end
  end.

Definition substitute_all (re : list item) (replacement : mstate -> string) (s : string)
    : string :=
  substitute_all_from re replacement None O s.

(** The replacement ['$1']. *)
Definition group1 (m : mstate) : string :=
  match m_group1 m with
  | Some g => g
  | None => EmptyString
  end.

(** [/\*\*(.*?)\*\*/g] *)
Definition boldRegex : list item :=
  lit "**" ++ [Rep CDot 0 None false true] ++ lit "**".

(** [/\*(.*?)\*/g] *)
Definition italicRegex : list item :=
  lit "*" ++ [Rep CDot 0 None false true] ++ lit "*".

(** [/\[(.*?)\]\(.*?\)/g] *)
Definition linkTextRegex : list item :=
  lit "[" ++ [Rep CDot 0 None false true] ++ lit "](" ++ [Rep CDot 0 None false false]
  ++ lit ")".

(** [/`(.*?)`/g] *)
Definition inlineCodeRegex : list item :=
  lit "`" ++ [Rep CDot 0 None false true] ++ lit "`".

(** [/\n{3,}/g] *)
Definition lineBreaksRegex : list item :=
  [Rep (CChar "010") 3 None true false].

Definition twoLineBreaks (_ : mstate) : string :=
  String "010" (String "010" EmptyString).

(** [cleanTextForEmbedding]: the word limit of the extraction is its
    default. *)
Definition cleanTextForEmbedding (settings : Settings) (content : string) : string :=
  let extractedText := extractHeadingsAndFirstWords settings content defaultWordLimit in
  trim (substitute_all lineBreaksRegex twoLineBreaks
         (substitute_all inlineCodeRegex group1
           (substitute_all linkTextRegex group1
             (substitute_all italicRegex group1
               (substitute_all boldRegex group1 extractedText))))).

End TextClean.

(* ================================================================== *)
(** * Controls: the filters of the graph view *)
(* ================================================================== *)

Module Controls.
Import View.

Inductive NodeType : Type := FileNode | TagNode | AttachmentNode.

(** The fields of a node the filters read and write; [type] and [hidden]
    are optional ([None] is [undefined]). *)
Record ControlNode : Type := {
  cn_id : string;                      (* id *)
  cn_name : string;                    (* name *)
  cn_path : string;                    (* path *)
  cn_type : option NodeType;           (* type *)
  cn_hidden : option bool              (* hidden *)
}.

Record Filters : Type := {
  showTags : bool;
  showAttachments : bool;
  existingFilesOnly : bool;
  showOrphans : bool;
  searchQuery : string
}.

(** [linkedFiles]: the two ends of every link. *)
Definition linkedFiles (links : list GraphLink) : gset string :=
  fold_left (fun linked link => linked ∪ {[ source link ]} ∪ {[ target link ]}) links ∅.

(** [shouldShow] of one node; [fileExists path] tells whether
    [getAbstractFileByPath(path)] finds a file. *)
Definition shouldShow (filters : Filters) (fileExists : string -> bool)
    (linked : gset string) (node : ControlNode) : bool :=
  let shouldShow :=
    if Text.nonempty (searchQuery filters)
       && negb (Service.includes (searchQuery filters) (Text.toLowerCase (cn_name node)))
    then false else true in
  match cn_type node with
  | Some TagNode => shouldShow && showTags filters
  | Some AttachmentNode => shouldShow && showAttachments filters
  | _ =>
      if fileExists (cn_path node) then
        let isOrphan := negb (bool_decide (cn_id node ∈ linked)) in
        if isOrphan && negb (showOrphans filters) then false else shouldShow
      else if existingFilesOnly filters then false
      else shouldShow
  end.

(** [applyFilters]: [hidden] of every node is set. *)
Definition applyFilters (filters : Filters) (fileExists : string -> bool)
    (nodes : list ControlNode) (links : list GraphLink) : list ControlNode :=
  let linked := linkedFiles links in
  map (fun node =>
         {| cn_id := cn_id node; cn_name := cn_name node; cn_path := cn_path node;
            cn_type := cn_type node;
            cn_hidden := Some (negb (shouldShow filters fileExists linked node)) |})
    nodes.

(** [!node.hidden] *)
Definition visible (node : ControlNode) : bool :=
  match cn_hidden node with
  | Some true => false
  | _ => true
  end.

(** [nodes.find(n => n.id === id)] *)
Definition findNode (nodes : list ControlNode) (id : string) : option ControlNode :=
  List.find (fun n => String.eqb (cn_id n) id) nodes.

Definition visibleNodes (nodes : list ControlNode) : list ControlNode :=
  List.filter visible nodes.

Definition visibleLinks (nodes : list ControlNode) (links : list GraphLink)
    : list GraphLink :=
  List.filter
    (fun link =>
       match findNode nodes (source link), findNode nodes (target link) with
       | Some sourceNode, Some targetNode => visible sourceNode && visible targetNode
       | _, _ => false
       end)
    links.

(** The two numbers of [updateFileCount]'s text. *)
Definition updateFileCount (nodes : list ControlNode) (links : list GraphLink)
    : nat * nat :=
  (length (visibleNodes nodes), length (visibleLinks nodes links)).

End Controls.

(* ================================================================== *)
(** * Properties *)
(* ================================================================== *)

(** ** Lists *)

Section Lists.

Lemma filter_Forall {A} (P : A -> Prop) (f : A -> bool) (l : list A) :
  Forall P l -> Forall P (List.filter f l).
Proof.
  induction 1 as [|x l Hx Hl IH]; simpl; [constructor|].
  destruct (f x); [constructor|]; assumption.
Qed.

Lemma filter_Forall_true {A} (f : A -> bool) (l : list A) :
  Forall (fun x => f x = true) (List.filter f l).
Proof.
  induction l as [|x l IH]; simpl; [constructor|].
  destruct (f x) eqn:Hx; [constructor|]; assumption.
Qed.

Lemma filter_id {A} (f : A -> bool) (l : list A) :
  Forall (fun x => f x = true) l -> List.filter f l = l.
Proof.
  induction 1 as [|x l Hx Hl IH]; simpl; [reflexivity|].
  rewrite Hx, IH. reflexivity.
Qed.

Lemma slice_Forall {A} (P : A -> Prop) (l : list A) (start finish : Z) :
  Forall P l -> Forall P (Text.slice l start finish).
Proof.
  intros H. unfold Text.slice. apply Forall_take, Forall_drop, H.
Qed.

End Lists.

(** ** The status of a file *)

Section FileStatus.
Import Service.

(** [statusOf] as the design describes it: new without a record, modified
    when the file is newer than the embedding, up to date otherwise. *)
Definition statusOf (record : option FileEmbeddingStatus) (lastModified : Z) : Status :=
  match record with
  | None => New
  | Some r => if (lastModified >? embeddingGenerated r)%Z then Modified else UpToDate
  end.

Lemma getFileStatus_statusOf (cache : EmbeddingCache) (file : TFile) :
  getFileStatus cache file = statusOf (files cache !! file_path file) (file_mtime file).
Proof.
  unfold getFileStatus, statusOf.
  destruct (files cache !! file_path file) as [r|]; [|reflexivity].
  rewrite Z.gtb_ltb. reflexivity.
Qed.

Lemma getFileStatus_new (cache : EmbeddingCache) (file : TFile) :
  getFileStatus cache file = New <-> files cache !! file_path file = None.
Proof.
  unfold getFileStatus.
  destruct (files cache !! file_path file) as [r|]; [|tauto].
  destruct (embeddingGenerated r <? file_mtime file)%Z; split; discriminate.
Qed.

Lemma getFileStatus_modified (cache : EmbeddingCache) (file : TFile) :
  getFileStatus cache file = Modified <->
  exists r, files cache !! file_path file = Some r
            /\ (embeddingGenerated r < file_mtime file)%Z.
Proof.
  unfold getFileStatus.
  destruct (files cache !! file_path file) as [r|].
  - destruct (Z.ltb_spec (embeddingGenerated r) (file_mtime file)); split.
    + intros _. exists r. split; [reflexivity | assumption].
    + reflexivity.
    + discriminate.
    + intros (r' & Hr & Hlt). injection Hr as <-. lia.
  - split; [discriminate | intros (r & Hr & _); discriminate].
Qed.

Lemma getFileStatus_up_to_date (cache : EmbeddingCache) (file : TFile) :
  getFileStatus cache file = UpToDate <->
  exists r, files cache !! file_path file = Some r
            /\ (file_mtime file <= embeddingGenerated r)%Z.
Proof.
  unfold getFileStatus.
  destruct (files cache !! file_path file) as [r|].
  - destruct (Z.ltb_spec (embeddingGenerated r) (file_mtime file)); split.
    + discriminate.
    + intros (r' & Hr & Hle). injection Hr as <-. lia.
    + intros _. exists r. split; [reflexivity | assumption].
    + reflexivity.
  - split; [discriminate | intros (r & Hr & _); discriminate].
Qed.

(** The scenario of the design: document [A] was modified at 10 and embedded
    at 20; document [B] has no record. *)
Definition scenarioCache : EmbeddingCache :=
  {| version := "1.0.0";
     files := {[ "A" := {| path := "A"; lastModified := 10; embeddingGenerated := 20;
                          status := UpToDate |} ]};
     embeddings := {[ "A" := [1%float] ]} |}.

(** C5.  [getFileStatus] is a function of the record stored for the path and
    of the file's modification time alone ([statusOf] reads nothing else,
    and no clock): it is ['new'] exactly when there is no record,
    ['modified'] exactly when the modification time is strictly greater than
    the record's [embeddingGenerated], ['up-to-date'] exactly when a record
    exists and it is not.  In the scenario, [A] is up to date and [B] is
    new. *)
Theorem getFileStatus_spec :
  forall (cache : EmbeddingCache) (file : TFile),
    getFileStatus cache file
      = statusOf (files cache !! file_path file) (file_mtime file)
    /\ (getFileStatus cache file = New <-> files cache !! file_path file = None)
    /\ (getFileStatus cache file = Modified <->
        exists r, files cache !! file_path file = Some r
                  /\ (file_mtime file > embeddingGenerated r)%Z)
    /\ (getFileStatus cache file = UpToDate <->
        exists r, files cache !! file_path file = Some r
                  /\ ~ (file_mtime file > embeddingGenerated r)%Z)
    /\ getFileStatus scenarioCache {| file_path := "A"; file_mtime := 10 |} = UpToDate
    /\ getFileStatus scenarioCache {| file_path := "B"; file_mtime := 10 |} = New.
Proof.
  intros cache file.
  split; [apply getFileStatus_statusOf|].
  split; [apply getFileStatus_new|].
  split.
  { rewrite getFileStatus_modified.
    split; intros (r & Hr & H); exists r; (split; [assumption | lia]). }
  split.
  { rewrite getFileStatus_up_to_date.
    split; intros (r & Hr & H); exists r; (split; [assumption | lia]). }
  split; reflexivity.
Qed.

Lemma countStatus_processing (stats : Stats) (st : Status) :
  st <> Processing -> processing (countStatus stats st) = processing stats.
Proof. destruct st; simpl; congruence. Qed.

Lemma getFileStatus_not_processing (cache : EmbeddingCache) (file : TFile) :
  getFileStatus cache file <> Processing.
Proof.
  unfold getFileStatus.
  destruct (files cache !! file_path file) as [r|]; [|discriminate].
  destruct (embeddingGenerated r <? file_mtime file)%Z; discriminate.
Qed.

Lemma stats_fold_processing (cache : EmbeddingCache) (l : list TFile) (stats : Stats) :
  processing
    (fold_left (fun stats file => countStatus stats (getFileStatus cache file)) l stats)
  = processing stats.
Proof.
  revert stats. induction l as [|file l IH]; intros stats; simpl.
  - reflexivity.
  - rewrite IH. apply countStatus_processing, getFileStatus_not_processing.
Qed.

Lemma getFileStatus_setStatus (cache : EmbeddingCache) (p : string) (s : Status)
    (file : TFile) :
  getFileStatus (setStatus cache p s) file = getFileStatus cache file.
Proof.
  unfold getFileStatus, setStatus; simpl.
  rewrite lookup_alter.
  case_decide as Hp; [subst p|reflexivity].
  destruct (files cache !! file_path file) as [r|]; reflexivity.
Qed.

(** C10.  [getFileStatus] never answers ['processing']: overwriting the
    stored [status] field of any record (with ['processing'] or anything
    else) does not change its answer, only the time stamps count.  Hence the
    [processing] counter of [getEmbeddingStats] is 0 for every cache and
    every list of files. *)
Theorem getFileStatus_never_processing :
  forall (cache : EmbeddingCache) (markdownFiles : list TFile),
    (forall file, getFileStatus cache file <> Processing)
    /\ (forall p s file,
           getFileStatus (setStatus cache p s) file = getFileStatus cache file)
    /\ processing (getEmbeddingStats cache markdownFiles) = 0%nat
    /\ (forall p, processing (getEmbeddingStats (setStatus cache p Processing)
                                markdownFiles) = 0%nat).
Proof.
  intros cache markdownFiles.
  split; [apply getFileStatus_not_processing|].
  split; [apply getFileStatus_setStatus|].
  split; [|intros p]; unfold getEmbeddingStats; rewrite stats_fold_processing;
    reflexivity.
Qed.

End FileStatus.

(** ** An incremental generation run *)

Section Generation.
Import Service.

(** One step of the loop when the attempt throws a quota error: the loop is
    left at once, with the record as it was set before the attempt. *)
Lemma processFiles_quota (settings : Text.Settings) (w : World)
    (file : TFile) (pending : list TFile) (st : Run) (message : string) :
  bind (vault_read w file)
       (fun content =>
          getEmbedding w
            (Text.extractHeadingsAndFirstWords settings content Text.defaultWordLimit))
    = Throw message ->
  Text.nonempty message && includes "429" message = true ->
  processFiles settings w (file :: pending) st
  = {| cache := setFile (cache st) (file_path file)
                  {| path := file_path file; lastModified := file_mtime file;
                     embeddingGenerated := now w (clock st); status := Processing |};
       processed := processed st; failed := S (failed st);
       clock := S (clock st); attempted := attempted st ++ [file_path file] |}.
Proof.
  intros Hthrow Hquota. simpl. rewrite Hthrow, Hquota. reflexivity.
Qed.

(** One step of the loop when the provider answers with an empty array: the
    failure is counted and the loop goes on with the record as it was set
    before the attempt. *)
Lemma processFiles_empty (settings : Text.Settings) (w : World)
    (file : TFile) (pending : list TFile) (st : Run) :
  bind (vault_read w file)
       (fun content =>
          getEmbedding w
            (Text.extractHeadingsAndFirstWords settings content Text.defaultWordLimit))
    = Ok [] ->
  processFiles settings w (file :: pending) st
  = processFiles settings w pending
      {| cache := setFile (cache st) (file_path file)
                    {| path := file_path file; lastModified := file_mtime file;
                       embeddingGenerated := now w (clock st); status := Processing |};
         processed := processed st; failed := S (failed st);
         clock := S (clock st); attempted := attempted st ++ [file_path file] |}.
Proof.
  intros Hempty. simpl. rewrite Hempty. reflexivity.
Qed.

Definition defaultTextSettings : Text.Settings :=
  {| Text.embeddingWordSkip := None; Text.excludeHeadingsFromEmbedding := None |}.

(** A vault whose files contain their own name, a clock that starts at 1000,
    and a provider that is out of quota for the text [xray], answers the
    text [echo] with an empty array and every other text with a vector. *)
Definition sampleWorld : World :=
  {| vault_read := fun file => Ok (file_path file);
     getEmbedding := fun text =>
       if String.eqb text "xray"
       then Throw "OpenAI API error: 429 Too Many Requests - quota exceeded"
       else if String.eqb text "echo" then Ok []
       else Ok [1%float; 0%float];
     now := fun n => (1000 + Z.of_nat n)%Z |}.

Definition quotaFiles : list TFile :=
  [ {| file_path := "alpha"; file_mtime := 1 |};
    {| file_path := "xray"; file_mtime := 2 |};
    {| file_path := "papa1"; file_mtime := 3 |};
    {| file_path := "papa2"; file_mtime := 3 |};
    {| file_path := "papa3"; file_mtime := 3 |};
    {| file_path := "papa4"; file_mtime := 3 |};
    {| file_path := "papa5"; file_mtime := 3 |} ].

Definition quotaRun : Run :=
  generateIncrementalEmbeddings defaultTextSettings sampleWorld emptyCache quotaFiles.

(** C6, at a run over [alpha], [xray] and five more files in which the
    provider is out of quota for [xray].  The run stops at [xray]: only
    [alpha] and [xray] were attempted, [alpha] is stored as up to date and
    the five pending files have no record.  The record of [xray], however,
    still says ['processing'], stamped with the time of the attempt, and
    there is no vector for it; [getFileStatus] therefore calls [xray] up to
    date and the next run leaves it out. *)
Theorem quota_run_leaves_processing :
  attempted quotaRun = ["alpha"; "xray"]
  /\ processed quotaRun = 1%nat
  /\ failed quotaRun = 1%nat
  /\ files (cache quotaRun) !! "alpha"
     = Some {| path := "alpha"; lastModified := 1; embeddingGenerated := 1001;
               status := UpToDate |}
  /\ files (cache quotaRun) !! "xray"
     = Some {| path := "xray"; lastModified := 2; embeddingGenerated := 1002;
               status := Processing |}
  /\ embeddings (cache quotaRun) !! "xray" = None
  /\ Forall (fun file => files (cache quotaRun) !! file_path file = None)
       (drop 2 quotaFiles)
  /\ getFileStatus (cache quotaRun) {| file_path := "xray"; file_mtime := 2 |} = UpToDate
  /\ map file_path (needsUpdate (cache quotaRun) quotaFiles)
     = ["papa1"; "papa2"; "papa3"; "papa4"; "papa5"].
Proof.
  repeat split; try (vm_compute; reflexivity).
  repeat constructor.
Qed.

Definition emptyAnswerFiles : list TFile :=
  [ {| file_path := "echo"; file_mtime := 7 |};
    {| file_path := "alpha"; file_mtime := 1 |} ].

Definition emptyAnswerRun : Run :=
  generateIncrementalEmbeddings defaultTextSettings sampleWorld emptyCache emptyAnswerFiles.

(** C8, at a run over [echo] and [alpha] in which the provider answers
    [echo] with an empty array.  No vector is stored for [echo] and the
    failure is counted, but the record of [echo] is left as it was set before
    the attempt: status ['processing'], stamped with the time of the
    attempt.  [getFileStatus] therefore calls [echo] up to date and the next
    run has nothing to do. *)
Theorem empty_embedding_leaves_processing :
  attempted emptyAnswerRun = ["echo"; "alpha"]
  /\ processed emptyAnswerRun = 1%nat
  /\ failed emptyAnswerRun = 1%nat
  /\ embeddings (cache emptyAnswerRun) !! "echo" = None
  /\ files (cache emptyAnswerRun) !! "echo"
     = Some {| path := "echo"; lastModified := 7; embeddingGenerated := 1000;
               status := Processing |}
  /\ getFileStatus (cache emptyAnswerRun) {| file_path := "echo"; file_mtime := 7 |}
     = UpToDate
  /\ needsUpdate (cache emptyAnswerRun) emptyAnswerFiles = [].
Proof.
  repeat split; vm_compute; reflexivity.
Qed.

End Generation.

(** ** Cosine similarity *)

Section Cosine.
Import Service.
Local Open Scope float_scope.

(** The quantities the design names: the dot product and the squared
    magnitude, each summed from the left starting at 0. *)
Definition dotProduct (u v : list float) : float :=
  fold_left (fun acc ab => acc + fst ab * snd ab) (combine u v) 0.

Definition sumSquares (v : list float) : float :=
  fold_left (fun acc a => acc + a * a) v 0.

Definition magnitude (v : list float) : float := PrimFloat.sqrt (sumSquares v).

(** A zero vector: every component [=== 0] (that is, [+0] or [-0]). *)
Definition isZeroVector (v : list float) : bool := forallb (fun x => x =? 0) v.

Lemma cosineLoop_folds (u v : list float) (d m1 m2 : float) :
  length u = length v ->
  cosineLoop u v d m1 m2
  = (fold_left (fun acc ab => acc + fst ab * snd ab) (combine u v) d,
     fold_left (fun acc a => acc + a * a) u m1,
     fold_left (fun acc a => acc + a * a) v m2).
Proof.
  revert v d m1 m2.
  induction u as [|a u IH]; intros [|b v] d m1 m2 Hlen; simpl in *;
    try discriminate; try reflexivity.
  apply IH. congruence.
Qed.

Lemma cosine_equal_length (u v : list float) :
  length u = length v ->
  calculateCosineSimilarity u v
  = Ok (if (magnitude u =? 0) || (magnitude v =? 0) then 0
        else dotProduct u v / (magnitude u * magnitude v)).
Proof.
  intros Hlen. unfold calculateCosineSimilarity.
  rewrite Hlen, Nat.eqb_refl. simpl negb. cbv iota.
  rewrite cosineLoop_folds by assumption.
  fold (dotProduct u v) (sumSquares u) (sumSquares v).
  fold (magnitude u) (magnitude v).
  destruct ((magnitude u =? 0) || (magnitude v =? 0)); reflexivity.
Qed.

Lemma cosine_throws_iff (u v : list float) :
  (exists message, calculateCosineSimilarity u v = Throw message)
  <-> length u <> length v.
Proof.
  split.
  - intros [message H] Hlen.
    rewrite cosine_equal_length in H by assumption. discriminate.
  - intros Hlen. unfold calculateCosineSimilarity.
    apply Nat.eqb_neq in Hlen. rewrite Hlen. simpl. eauto.
Qed.

(** [x === 0] holds for the two zeros only. *)
Lemma float_eqb_zero (x : float) : (x =? 0) = true -> x = 0 \/ x = (-0).
Proof.
  intros H. rewrite FloatAxioms.eqb_spec in H.
  rewrite <- (SF2Prim_Prim2SF x).
  change (Prim2SF 0) with (S754_zero false) in H.
  destruct (Prim2SF x) as [[|]|[|]| |[|] m e]; try discriminate H.
  - right. reflexivity.
  - left. reflexivity.
Qed.

Lemma sumSquares_zero (v : list float) :
  isZeroVector v = true -> sumSquares v = 0.
Proof.
  unfold sumSquares, isZeroVector.
  induction v as [|x v IH]; simpl; [reflexivity|].
  intros H. apply andb_prop in H as [Hx Hv].
  destruct (float_eqb_zero x Hx) as [-> | ->]; exact (IH Hv).
Qed.







Example cosine_underflow : calculateCosineSimilarity [1e-200] [1e-200] = Ok 0.
Proof. reflexivity. Qed.

Example cosine_overflow : calculateCosineSimilarity [1e200] [1e200] = Ok nan.
Proof. reflexivity. Qed.

Example cosine_self_3_4 : calculateCosineSimilarity [3; 4] [3; 4] = Ok 1.
Proof. reflexivity. Qed.

End Cosine.

(** ** Link thickness *)

Section Thickness.
Import View.
Local Open Scope float_scope.

(** The thickness as the design describes it: the linear formula, clamped to
    the minimum thickness when the threshold is exactly 1. *)
Definition clampedThickness (settings : Settings) (similarity : float) : float :=
  if similarityThreshold settings =? 1 then minLinkThickness settings
  else
    minLinkThickness settings
    + ((similarity - similarityThreshold settings) / (1 - similarityThreshold settings))
      * (maxLinkThickness settings - minLinkThickness settings).

(** C7, as the code has it.  For every similarity and all settings whose
    threshold is not exactly 1, the thickness is the linear formula of the
    design.  The code has no special case for a threshold of 1. *)
Theorem thickness_formula (settings : Settings) (similarity : float) :
  (similarityThreshold settings =? 1) = false ->
  calculateThicknessFromSimilarity settings similarity
  = clampedThickness settings similarity.
Proof.
  intros Hne. unfold calculateThicknessFromSimilarity, clampedThickness.
  rewrite Hne. reflexivity.
Qed.

Definition defaultLinkSettings : Settings :=
  {| similarityThreshold := 0.7; maxSimilarLinksPerNode := Some 12%Z;
     dynamicSimilarityPruning := Some false;
     minLinkThickness := 0.5; maxLinkThickness := 8 |}.

Lemma thickness_formula_witness :
  calculateThicknessFromSimilarity defaultLinkSettings 0.85
  = clampedThickness defaultLinkSettings 0.85.
Proof.
  apply (thickness_formula defaultLinkSettings 0.85). reflexivity.
Defined.

Definition thresholdOneSettings : Settings :=
  {| similarityThreshold := 1; maxSimilarLinksPerNode := Some 12%Z;
     dynamicSimilarityPruning := Some false;
     minLinkThickness := 0.5; maxLinkThickness := 8 |}.

(** With a threshold of exactly 1 the quotient is a division by zero. *)
Lemma thickness_at_threshold_one (settings : Settings) (similarity : float) :
  similarityThreshold settings = 1 ->
  calculateThicknessFromSimilarity settings similarity
  = minLinkThickness settings
    + ((similarity - 1) / 0) * (maxLinkThickness settings - minLinkThickness settings).
Proof.
  intros Hone. unfold calculateThicknessFromSimilarity. rewrite Hone. reflexivity.
Qed.

(** C7 fails at a threshold of exactly 1: with thicknesses from 0.5 to 8, a
    link of similarity 1 gets thickness NaN ([0 / 0]), not the minimum
    thickness 0.5. *)
Lemma thickness_threshold_one_is_nan :
  (minLinkThickness thresholdOneSettings <=? maxLinkThickness thresholdOneSettings) = true
  /\ calculateThicknessFromSimilarity thresholdOneSettings 1 = nan
  /\ clampedThickness thresholdOneSettings 1 = 0.5
  /\ calculateThicknessFromSimilarity thresholdOneSettings 1
     <> clampedThickness thresholdOneSettings 1.
Proof.
  repeat split; try reflexivity.
  intros H. apply (f_equal is_nan) in H. vm_compute in H. discriminate.
Qed.

End Thickness.

(** ** Binary64 facts

    The order of two numbers and the sign of their difference, from the
    specification of the primitive operations ([SpecFloat]): for all
    binary64 values, [y - x] is positive exactly when [x < y].  Rounding a
    non-zero difference keeps its sign and, thanks to the subnormal range,
    never yields a zero. *)

Section Binary64.
Local Open Scope Z_scope.

Lemma digits2_pos_bounds (p : positive) :
  2 ^ (Z.pos (digits2_pos p) - 1) <= Z.pos p < 2 ^ Z.pos (digits2_pos p).
Proof.
  induction p as [p IH|p IH|]; simpl digits2_pos.
  - rewrite Pos2Z.inj_succ, (Pos2Z.inj_xI p).
    set (d := Z.pos (digits2_pos p)) in *.
    assert (Hd : 2 ^ d = 2 * 2 ^ (d - 1)).
    { replace d with (Z.succ (d - 1)) at 1 by lia. apply Z.pow_succ_r. lia. }
    replace (Z.succ d - 1) with d by lia.
    rewrite Z.pow_succ_r by lia. lia.
  - rewrite Pos2Z.inj_succ, (Pos2Z.inj_xO p).
    set (d := Z.pos (digits2_pos p)) in *.
    assert (Hd : 2 ^ d = 2 * 2 ^ (d - 1)).
    { replace d with (Z.succ (d - 1)) at 1 by lia. apply Z.pow_succ_r. lia. }
    replace (Z.succ d - 1) with d by lia.
    rewrite Z.pow_succ_r by lia. lia.
  - simpl. lia.
Qed.

Lemma shr_m_shr_1 (mrs : shr_record) :
  0 <= shr_m mrs -> shr_m (shr_1 mrs) = shr_m mrs / 2.
Proof.
  destruct mrs as [m r s]. simpl shr_m. intros Hm.
  rewrite <- Z.div2_div.
  destruct m as [|[p|p|]|p]; try reflexivity. lia.
Qed.

Lemma pow2_xO (n : positive) : 2 ^ Z.pos n~0 = 2 ^ Z.pos n * 2 ^ Z.pos n.
Proof.
  rewrite (Pos2Z.inj_xO n). replace (2 * Z.pos n) with (Z.pos n + Z.pos n) by lia.
  apply Z.pow_add_r; lia.
Qed.

Lemma pow2_xI (n : positive) : 2 ^ Z.pos n~1 = 2 * (2 ^ Z.pos n * 2 ^ Z.pos n).
Proof.
  rewrite (Pos2Z.inj_xI n). replace (2 * Z.pos n + 1) with (Z.succ (Z.pos n + Z.pos n)) by lia.
  rewrite Z.pow_succ_r, Z.pow_add_r by lia. reflexivity.
Qed.

Lemma shr_m_iter_pos (n : positive) (mrs : shr_record) :
  0 <= shr_m mrs -> shr_m (SpecFloat.iter_pos shr_1 n mrs) = shr_m mrs / 2 ^ Z.pos n.
Proof.
  revert mrs. induction n as [n IH|n IH|]; intros mrs Hm; simpl SpecFloat.iter_pos.
  - assert (Hpow : 0 < 2 ^ Z.pos n) by (apply Z.pow_pos_nonneg; lia).
    assert (H1 : 0 <= shr_m (shr_1 mrs)).
    { rewrite shr_m_shr_1 by assumption. apply Z.div_pos; lia. }
    assert (H2 : 0 <= shr_m (SpecFloat.iter_pos shr_1 n (shr_1 mrs))).
    { rewrite IH by assumption. apply Z.div_pos; assumption. }
    rewrite IH, IH, shr_m_shr_1 by assumption.
    rewrite pow2_xI, !Z.div_div by lia. reflexivity.
  - assert (Hpow : 0 < 2 ^ Z.pos n) by (apply Z.pow_pos_nonneg; lia).
    assert (H1 : 0 <= shr_m (SpecFloat.iter_pos shr_1 n mrs)).
    { rewrite IH by assumption. apply Z.div_pos; assumption. }
    rewrite IH, IH by assumption.
    rewrite pow2_xO, !Z.div_div by lia. reflexivity.
  - apply shr_m_shr_1, Hm.
Qed.

Lemma shr_m_record_of_loc (m : Z) (l : location) :
  shr_m (shr_record_of_loc m l) = m.
Proof. destruct l as [|[| |]]; reflexivity. Qed.

(** Shifting to the canonical exponent never loses a positive mantissa. *)
Lemma shr_fexp_pos (m e : Z) (l : location) :
  1 <= m -> SpecFloat.emin prec emax <= e ->
  1 <= shr_m (fst (shr_fexp prec emax m e l)) /\ SpecFloat.emin prec emax <= snd (shr_fexp prec emax m e l).
Proof.
  intros Hm He. unfold shr_fexp, shr.
  destruct m as [|p|p]; try lia.
  simpl Zdigits2.
  pose proof (digits2_pos_bounds p) as [Hlow _].
  destruct (fexp prec emax (Z.pos (digits2_pos p) + e) - e) as [|n|n] eqn:Hn;
    simpl fst; simpl snd; rewrite ?shr_m_record_of_loc; try lia.
  rewrite shr_m_iter_pos by (rewrite shr_m_record_of_loc; lia).
  rewrite shr_m_record_of_loc.
  unfold fexp, SpecFloat.emin, prec, emax in *.
  split; [|lia].
  assert (Hle : 2 ^ Z.pos n <= 2 ^ (Z.pos (digits2_pos p) - 1)).
  { apply Z.pow_le_mono_r; lia. }
  apply Z.div_le_lower_bound; lia.
Qed.

Lemma round_nearest_even_ge (m : Z) (l : location) : m <= round_nearest_even m l.
Proof.
  unfold round_nearest_even. destruct l as [|[| |]]; try lia.
  destruct (Z.even m); lia.
Qed.

Lemma binary_round_aux_pos (mx ex : Z) (lx : location) :
  1 <= mx -> SpecFloat.emin prec emax <= ex ->
  SFltb (S754_zero false) (binary_round_aux prec emax false mx ex lx) = true.
Proof.
  intros Hm He. unfold binary_round_aux.
  pose proof (shr_fexp_pos mx ex lx Hm He) as [H1 He1].
  destruct (shr_fexp prec emax mx ex lx) as [mrs1 e1]. simpl in H1, He1.
  pose proof (round_nearest_even_ge (shr_m mrs1) (loc_of_shr_record mrs1)) as Hr.
  assert (H2 : 1 <= round_nearest_even (shr_m mrs1) (loc_of_shr_record mrs1)) by lia.
  pose proof (shr_fexp_pos _ e1 loc_Exact H2 He1) as [H3 _].
  destruct (shr_fexp prec emax _ e1 loc_Exact) as [mrs2 e2]. simpl in H3.
  destruct (shr_m mrs2) as [|p|p]; try lia.
  destruct (e2 <=? emax - prec); reflexivity.
Qed.

Lemma binary_round_pos (p : positive) (e : Z) :
  SpecFloat.emin prec emax <= e -> SFltb (S754_zero false) (binary_round prec emax false p e) = true.
Proof.
  intros He. unfold binary_round, shl_align.
  destruct (fexp prec emax (Z.pos (digits2_pos p) + e) - e) as [|d|d] eqn:Hd;
    apply binary_round_aux_pos; try lia.
  unfold fexp, SpecFloat.emin, prec, emax in *. lia.
Qed.

Lemma pos_iter_xO (m d : positive) : Z.pos (Pos.iter xO m d) = Z.pos m * 2 ^ Z.pos d.
Proof.
  induction d as [|d IH] using Pos.peano_ind.
  - simpl. lia.
  - rewrite Pos.iter_succ, Pos2Z.inj_xO, IH, Pos2Z.inj_succ, Z.pow_succ_r by lia. lia.
Qed.

Lemma shl_align_value (m : positive) (e ez : Z) :
  ez <= e -> Z.pos (fst (shl_align m e ez)) = Z.pos m * 2 ^ (e - ez).
Proof.
  intros Hle. unfold shl_align.
  destruct (ez - e) as [|d|d] eqn:Hd; simpl fst.
  - replace (e - ez) with 0 by lia. lia.
  - lia.
  - rewrite pos_iter_xO. replace (e - ez) with (Z.pos d) by lia. reflexivity.
Qed.

Lemma canonical_exponent (m : positive) (e : Z) :
  canonical_mantissa prec emax m e = true ->
  SpecFloat.emin prec emax <= e /\ Z.pos (digits2_pos m) <= 53 /\ (SpecFloat.emin prec emax < e -> Z.pos (digits2_pos m) = 53).
Proof.
  unfold canonical_mantissa, fexp, SpecFloat.emin, prec, emax.
  intros H. apply Z.eqb_eq in H. lia.
Qed.

(** Canonical mantissas are ordered by their exponents first. *)
Lemma canonical_lt (m1 m2 : positive) (e1 e2 : Z) :
  canonical_mantissa prec emax m1 e1 = true ->
  canonical_mantissa prec emax m2 e2 = true ->
  e1 < e2 ->
  Z.pos m1 * 2 ^ (e1 - Z.min e1 e2) < Z.pos m2 * 2 ^ (e2 - Z.min e1 e2).
Proof.
  intros H1 H2 Hlt.
  apply canonical_exponent in H1 as (Hmin1 & Hd1 & _).
  apply canonical_exponent in H2 as (Hmin2 & _ & Hd2).
  specialize (Hd2 ltac:(lia)).
  pose proof (digits2_pos_bounds m1) as [_ Hup].
  pose proof (digits2_pos_bounds m2) as [Hlow _].
  rewrite Hd2 in Hlow.
  assert (Hm1 : Z.pos m1 < 2 ^ 53).
  { eapply Z.lt_le_trans; [exact Hup|]. apply Z.pow_le_mono_r; lia. }
  rewrite Z.min_l by lia. replace (e1 - e1) with 0 by lia.
  assert (Hpow : 2 ^ 1 <= 2 ^ (e2 - e1)) by (apply Z.pow_le_mono_r; lia).
  change (2 ^ (53 - 1)) with 4503599627370496 in Hlow.
  change (2 ^ 53) with 9007199254740992 in Hm1.
  change (2 ^ 1) with 2 in Hpow. change (2 ^ 0) with 1. nia.
Qed.

Lemma SFsub_pos_of_lt (a b : spec_float) :
  valid_binary a = true -> valid_binary b = true ->
  SFltb a b = true -> SFltb (S754_zero false) (SF64sub b a) = true.
Proof.
  destruct a as [sa|sa| |sa ma ea], b as [sb|sb| |sb mb eb];
    try (destruct sa, sb; simpl; intros _ _ H; try reflexivity; discriminate H);
    try (destruct sa; simpl; intros _ _ H; try reflexivity; discriminate H);
    try (destruct sb; simpl; intros _ _ H; try reflexivity; discriminate H);
    try (simpl; intros _ _ H; discriminate H).
  simpl valid_binary. unfold bounded. intros Ha Hb Hlt.
  apply andb_prop in Ha as [Ha _]. apply andb_prop in Hb as [Hb _].
  pose proof (canonical_exponent _ _ Ha) as (Hea & _ & _).
  pose proof (canonical_exponent _ _ Hb) as (Heb & _ & _).
  unfold SF64sub, SFsub.
  set (ez := Z.min eb ea).
  assert (Hez : SpecFloat.emin prec emax <= ez) by (unfold ez; lia).
  rewrite (shl_align_value mb eb ez), (shl_align_value ma ea ez) by (unfold ez; lia).
  assert (Hpa : 0 < Z.pos ma * 2 ^ (ea - ez)).
  { apply Z.mul_pos_pos; [lia | apply Z.pow_pos_nonneg; unfold ez; lia]. }
  assert (Hpb : 0 < Z.pos mb * 2 ^ (eb - ez)).
  { apply Z.mul_pos_pos; [lia | apply Z.pow_pos_nonneg; unfold ez; lia]. }
  assert (Hpos : 0 < cond_Zopp sb (Z.pos mb * 2 ^ (eb - ez))
                     - cond_Zopp sa (Z.pos ma * 2 ^ (ea - ez))).
  { unfold SFltb, SFcompare in Hlt.
    destruct sa, sb; cbv beta iota delta [cond_Zopp]; try discriminate Hlt; try lia.
    - (* both negative *)
      destruct (Z.compare_spec ea eb) as [Heq | Hlt' | Hgt]; try discriminate Hlt.
      + subst eb. change (Pos.compare_cont Eq ma mb) with (Pos.compare ma mb) in Hlt.
        destruct (Pos.compare_spec ma mb) as [? | ? | Hm]; try discriminate Hlt.
        assert (0 < 2 ^ (ea - ez)) by (apply Z.pow_pos_nonneg; unfold ez; lia). nia.
      + pose proof (canonical_lt mb ma eb ea Hb Ha ltac:(lia)) as Hc.
        fold ez in Hc. lia.
    - (* both positive *)
      destruct (Z.compare_spec ea eb) as [Heq | Hlt' | Hgt]; try discriminate Hlt.
      + subst eb. change (Pos.compare_cont Eq ma mb) with (Pos.compare ma mb) in Hlt.
        destruct (Pos.compare_spec ma mb) as [? | Hm | ?]; try discriminate Hlt.
        assert (0 < 2 ^ (ea - ez)) by (apply Z.pow_pos_nonneg; unfold ez; lia). nia.
      + pose proof (canonical_lt ma mb ea eb Ha Hb ltac:(lia)) as Hc.
        rewrite (Z.min_comm ea eb) in Hc. fold ez in Hc. lia. }
  destruct (cond_Zopp sb _ - cond_Zopp sa _) as [|p|p]; try lia.
  simpl binary_normalize. apply binary_round_pos, Hez.
Qed.

Lemma binary_round_sign (sx : bool) (m : positive) (e : Z) :
  match binary_round prec emax sx m e with
  | S754_zero s | S754_infinity s | S754_finite s _ _ => s = sx
  | S754_nan => True
  end.
Proof.
  unfold binary_round.
  destruct (shl_align m e _) as [mz ez].
  unfold binary_round_aux.
  destruct (shr_fexp prec emax (Z.pos mz) ez loc_Exact) as [mrs' e'].
  destruct (shr_fexp prec emax _ e' loc_Exact) as [mrs'' e''].
  destruct (shr_m mrs''); [reflexivity | destruct (Z.leb _ _); reflexivity | exact I].
Qed.

Lemma SFltb_zero_round_neg (m : positive) (e : Z) :
  SFltb (S754_zero false) (binary_round prec emax true m e) = false.
Proof.
  pose proof (binary_round_sign true m e) as H.
  destruct (binary_round prec emax true m e); try subst; reflexivity.
Qed.

Lemma SFsub_pos_antisym (a b : spec_float) :
  SFltb (S754_zero false) (SF64sub a b) = true ->
  SFltb (S754_zero false) (SF64sub b a) = false.
Proof.
  destruct a as [sa|sa| |sa ma ea], b as [sb|sb| |sb mb eb];
    try (destruct sa, sb; simpl; intros H; try reflexivity; discriminate H);
    try (destruct sa; simpl; intros H; try reflexivity; discriminate H);
    try (destruct sb; simpl; intros H; try reflexivity; discriminate H);
    try (simpl; intros H; discriminate H).
  unfold SF64sub, SFsub. rewrite (Z.min_comm eb ea).
  set (ez := Z.min ea eb).
  set (X := cond_Zopp sa (Z.pos (fst (shl_align ma ea ez)))).
  set (Y := cond_Zopp sb (Z.pos (fst (shl_align mb eb ez)))).
  assert (Hopp : (Y - X = - (X - Y))%Z) by lia.
  rewrite Hopp.
  destruct (X - Y)%Z as [|p|p]; simpl; intros H.
  - discriminate H.
  - apply SFltb_zero_round_neg.
  - rewrite SFltb_zero_round_neg in H. discriminate H.
Qed.


Lemma SFcompare_swap (a b : spec_float) :
  SFcompare b a = option_map CompOpp (SFcompare a b).
Proof.
  destruct a as [sa|sa| |sa ma ea], b as [sb|sb| |sb mb eb];
    try (destruct sa, sb; reflexivity);
    try (destruct sa; reflexivity); try (destruct sb; reflexivity); try reflexivity.
  unfold SFcompare.
  change (Pos.compare_cont Eq mb ma) with (Pos.compare mb ma).
  change (Pos.compare_cont Eq ma mb) with (Pos.compare ma mb).
  rewrite (Z.compare_antisym ea eb), (Pos.compare_antisym ma mb).
  destruct sa, sb; simpl; try reflexivity;
    destruct (ea ?= eb); simpl; try reflexivity;
    destruct (ma ?= mb)%positive; reflexivity.
Qed.

Lemma SFsub_not_pos_of_eq (a b : spec_float) :
  SFcompare a b = Some Eq -> SFltb (S754_zero false) (SF64sub b a) = false.
Proof.
  destruct a as [sa|sa| |sa ma ea], b as [sb|sb| |sb mb eb];
    try (destruct sa, sb; simpl; intros H; try reflexivity; discriminate H);
    try (destruct sa; simpl; intros H; try reflexivity; discriminate H);
    try (destruct sb; simpl; intros H; try reflexivity; discriminate H);
    try (simpl; intros H; discriminate H).
  unfold SFcompare.
  change (Pos.compare_cont Eq ma mb) with (Pos.compare ma mb).
  intros H.
  assert (Heq : sa = sb /\ ea = eb /\ ma = mb).
  { destruct sa, sb; try discriminate H;
      destruct (Z.compare_spec ea eb); try discriminate H;
      destruct (Pos.compare_spec ma mb); try discriminate H; auto. }
  destruct Heq as (-> & -> & ->).
  unfold SF64sub, SFsub. rewrite Z.sub_diag. reflexivity.
Qed.

Lemma SFsub_pos_iff_lt (a b : spec_float) :
  valid_binary a = true -> valid_binary b = true ->
  SFltb (S754_zero false) (SF64sub b a) = SFltb a b.
Proof.
  intros Ha Hb.
  destruct (SFltb a b) eqn:Hlt; [apply SFsub_pos_of_lt; assumption|].
  unfold SFltb in Hlt.
  destruct (SFcompare a b) as [[| |]|] eqn:Hc; try discriminate Hlt.
  - apply SFsub_not_pos_of_eq, Hc.
  - apply SFsub_pos_antisym, SFsub_pos_of_lt; try assumption.
    unfold SFltb. rewrite SFcompare_swap, Hc. reflexivity.
  - destruct a as [sa|sa| |sa ma ea], b as [sb|sb| |sb mb eb];
      try discriminate Hc; reflexivity.
Qed.

Local Open Scope float_scope.

Lemma float_sub_pos_of_lt (x y : float) :
  (x <? y) = true -> (0 <? y - x) = true.
Proof.
  rewrite !FloatAxioms.ltb_spec, FloatAxioms.sub_spec. apply SFsub_pos_of_lt; apply Prim2SF_valid.
Qed.

Lemma float_sub_pos_iff_lt (x y : float) : (0 <? y - x) = (x <? y).
Proof.
  rewrite !FloatAxioms.ltb_spec, FloatAxioms.sub_spec. apply SFsub_pos_iff_lt; apply Prim2SF_valid.
Qed.

Lemma float_sub_pos_antisym (x y : float) :
  (0 <? x - y) = true -> (0 <? y - x) = false.
Proof.
  rewrite !FloatAxioms.ltb_spec, !FloatAxioms.sub_spec. apply SFsub_pos_antisym.
Qed.




End Binary64.

(** ** Similarity links *)

Section SimilarityLinks.
Import View.
Local Open Scope float_scope.

(** *** The sort is a permutation *)

Lemma sort_insert_perm {A} (compare : A -> A -> float) (x : A) (l : list A) :
  sort_insert compare x l ≡ₚ x :: l.
Proof.
  induction l as [|y l IH]; simpl; [reflexivity|].
  destruct (0 <? compare x y); [|reflexivity].
  rewrite IH. apply perm_swap.
Qed.

Lemma sort_perm {A} (compare : A -> A -> float) (l : list A) :
  sort compare l ≡ₚ l.
Proof.
  induction l as [|x l IH]; simpl; [reflexivity|].
  rewrite sort_insert_perm, IH. reflexivity.
Qed.

(** Pruning only ever drops candidates. *)
Lemma pruneCandidates_Forall (P : Candidate -> Prop) (settings : Settings)
    (candidates : list Candidate) :
  Forall P candidates -> Forall P (pruneCandidates settings candidates).
Proof.
  intros H. unfold pruneCandidates.
  assert (Hsorted : Forall P
            (sort (fun a b => sim b - sim a)
               (List.filter (fun c => thresholdAdj settings candidates <=? sim c)
                  candidates))).
  { rewrite sort_perm. apply filter_Forall, H. }
  destruct (_ && _); [apply slice_Forall|]; exact Hsorted.
Qed.

(** *** Every candidate and every link is at or above the threshold *)

(** [s] is the cosine similarity the sweep computed for the two nodes with
    ids [x] and [y] (in either order). *)
Definition pairSimilarity (nodes : list GraphNode) (x y : string) (s : float) : Prop :=
  exists a b ea eb,
    a ∈ nodes /\ b ∈ nodes
    /\ embedding a = Some ea /\ embedding b = Some eb
    /\ Service.calculateCosineSimilarity ea eb = Ok s
    /\ ((node_id a = x /\ node_id b = y) \/ (node_id a = y /\ node_id b = x)).

(** A candidate of node [k]: its similarity is the one computed for the
    pair and is at least [t]. *)
Definition candidateAbove (nodes : list GraphNode) (t : float) (k : string)
    (c : Candidate) : Prop :=
  (t <=? sim c) = true /\ pairSimilarity nodes k (otherId c) (sim c).

Definition candidatesAbove (nodes : list GraphNode) (t : float) (m : CandidateMap) : Prop :=
  Forall (fun entry => Forall (candidateAbove nodes t (fst entry)) (snd entry)) m.

Definition linkAbove (nodes : list GraphNode) (t : float) (link : GraphLink) : Prop :=
  exists s, similarity link = Some s /\ (t <=? s) = true
            /\ pairSimilarity nodes (source link) (target link) s.

Lemma map_init_above (nodes : list GraphNode) (t : float) (m : CandidateMap) (k : string) :
  candidatesAbove nodes t m -> candidatesAbove nodes t (map_init m k).
Proof.
  unfold map_init, candidatesAbove. intros H.
  destruct (map_has m k); [assumption|].
  apply Forall_app. split; [assumption|]. repeat constructor.
Qed.

Lemma map_push_above (nodes : list GraphNode) (t : float) (m : CandidateMap)
    (k : string) (c : Candidate) :
  candidatesAbove nodes t m -> candidateAbove nodes t k c ->
  candidatesAbove nodes t (map_push m k c).
Proof.
  unfold candidatesAbove. intros H Hc.
  induction H as [|[k' cs] m Hcs Hm IH]; simpl; [constructor|].
  destruct (String.eqb_spec k' k) as [-> | Hne]; constructor; simpl in *;
    try assumption.
  apply Forall_app. split; [assumption|]. constructor; [assumption | constructor].
Qed.

Lemma collectFrom_above (settings : Settings) (manual : gset string)
    (nodes : list GraphNode) (nodeA : GraphNode) (embeddingA : list float)
    (later : list GraphNode) (m m' : CandidateMap) :
  nodeA ∈ nodes -> embedding nodeA = Some embeddingA ->
  Forall (fun nodeB => nodeB ∈ nodes) later ->
  candidatesAbove nodes (similarityThreshold settings) m ->
  collectFrom settings manual nodeA embeddingA later m = Ok m' ->
  candidatesAbove nodes (similarityThreshold settings) m'.
Proof.
  intros HA HeA Hlater. revert m.
  induction Hlater as [|nodeB later HB Hlater IH]; simpl; intros m Hm H.
  - injection H as <-. assumption.
  - destruct (embedding nodeB) as [embeddingB|] eqn:HeB; [|eauto].
    destruct (decide _); [eauto|].
    destruct (Service.calculateCosineSimilarity embeddingA embeddingB) as [s|message]
      eqn:Hs; simpl in H; [|discriminate].
    destruct (similarityThreshold settings <=? s) eqn:Hts; [|eauto].
    eapply IH; [|exact H].
    apply map_push_above; [apply map_push_above|].
    + repeat apply map_init_above. assumption.
    + split; [exact Hts|]. exists nodeA, nodeB, embeddingA, embeddingB. simpl. tauto.
    + split; [exact Hts|]. exists nodeA, nodeB, embeddingA, embeddingB. simpl. tauto.
Qed.

Lemma collectCandidates_above (settings : Settings) (manual : gset string)
    (nodes nodesArray : list GraphNode) (m m' : CandidateMap) :
  Forall (fun node => node ∈ nodes) nodesArray ->
  candidatesAbove nodes (similarityThreshold settings) m ->
  collectCandidates settings manual nodesArray m = Ok m' ->
  candidatesAbove nodes (similarityThreshold settings) m'.
Proof.
  intros Hnodes. revert m.
  induction Hnodes as [|nodeA later HA Hlater IH]; simpl; intros m Hm H.
  - injection H as <-. assumption.
  - destruct (embedding nodeA) as [embeddingA|] eqn:HeA; [|eauto].
    destruct (collectFrom settings manual nodeA embeddingA later m) as [m1|message] eqn:H1;
      simpl in H; [|discriminate].
    eapply IH; [|exact H]. eapply collectFrom_above; eassumption.
Qed.

Lemma addLinks_above (settings : Settings) (nodes : list GraphNode) (nodeId : string)
    (filtered : list Candidate) (state : gset string * list GraphLink) :
  Forall (candidateAbove nodes (similarityThreshold settings) nodeId) filtered ->
  Forall (linkAbove nodes (similarityThreshold settings)) (snd state) ->
  Forall (linkAbove nodes (similarityThreshold settings))
    (snd (addLinks settings nodeId filtered state)).
Proof.
  intros Hf. revert state.
  induction Hf as [|c filtered Hc Hf IH]; intros [addedPairs links] Hl; simpl;
    [assumption|].
  destruct (decide _); apply IH; simpl in *; [assumption|].
  apply Forall_app. split; [assumption|].
  constructor; [|constructor]. destruct Hc as [Hts Hpair].
  exists (sim c). simpl. split; [reflexivity|]. split; assumption.
Qed.

Lemma forEachNode_above (settings : Settings) (nodes : list GraphNode) (m : CandidateMap)
    (state : gset string * list GraphLink) :
  candidatesAbove nodes (similarityThreshold settings) m ->
  Forall (linkAbove nodes (similarityThreshold settings)) (snd state) ->
  Forall (linkAbove nodes (similarityThreshold settings))
    (snd (forEachNode settings m state)).
Proof.
  intros Hm. revert state.
  induction Hm as [|[nodeId candidates] m Hc Hm IH]; intros state Hl; simpl;
    [assumption|].
  destruct candidates as [|c candidates]; [apply IH; assumption|].
  apply IH, addLinks_above; [|assumption].
  apply pruneCandidates_Forall. exact Hc.
Qed.

(** C1.  When the call returns, [this.links] is the old list followed by the
    links pushed.  The candidate sweep returned a map in which every candidate
    of every node carries the cosine similarity computed for that pair of
    nodes, and that similarity is [>=] the configured threshold; every link
    pushed carries the similarity computed for its two end points, and that
    similarity is [>=] the configured threshold.  (When a similarity
    computation throws, the call throws before any link is pushed.) *)
Theorem links_respect_threshold (settings : Settings) (links : list GraphLink)
    (nodesArray : list GraphNode) (after : list GraphLink) :
  createEmbeddingBasedLinks settings links nodesArray = Ok after ->
  exists perNodeCandidates pushed,
    collectCandidates settings (manualLinkPairs links) nodesArray [] = Ok perNodeCandidates
    /\ after = links ++ pushed
    /\ (forall nodeId candidates c,
           (nodeId, candidates) ∈ perNodeCandidates -> c ∈ candidates ->
           (similarityThreshold settings <=? sim c) = true
           /\ pairSimilarity nodesArray nodeId (otherId c) (sim c))
    /\ (forall link, link ∈ pushed ->
           exists s, similarity link = Some s
                     /\ (similarityThreshold settings <=? s) = true
                     /\ pairSimilarity nodesArray (source link) (target link) s).
Proof.
  unfold createEmbeddingBasedLinks, similarityLinks. intros H.
  destruct (collectCandidates settings (manualLinkPairs links) nodesArray [])
    as [m|message] eqn:Hm; simpl in H; [|discriminate].
  injection H as <-.
  assert (Habove : candidatesAbove nodesArray (similarityThreshold settings) m).
  { eapply collectCandidates_above; [| |exact Hm]; [|constructor].
    apply Forall_forall. intros node Hnode. exact Hnode. }
  exists m, (snd (forEachNode settings m (∅, []))).
  split; [reflexivity|]. split; [reflexivity|]. split.
  - intros nodeId candidates c Hentry Hc.
    unfold candidatesAbove in Habove. rewrite Forall_forall in Habove.
    specialize (Habove _ Hentry). simpl in Habove.
    rewrite Forall_forall in Habove. exact (Habove _ Hc).
  - intros link Hlink.
    assert (Hall : Forall (linkAbove nodesArray (similarityThreshold settings))
                     (snd (forEachNode settings m (∅, [])))).
    { apply forEachNode_above; [exact Habove | constructor]. }
    rewrite Forall_forall in Hall. exact (Hall _ Hlink).
Qed.

(** The call returns whenever all embeddings have one length. *)
Lemma collectFrom_returns (settings : Settings) (manual : gset string)
    (nodeA : GraphNode) (embeddingA : list float) (later : list GraphNode)
    (m : CandidateMap) :
  Forall (fun nodeB => forall embeddingB,
            embedding nodeB = Some embeddingB -> length embeddingA = length embeddingB)
    later ->
  exists m', collectFrom settings manual nodeA embeddingA later m = Ok m'.
Proof.
  intros Hlen. revert m.
  induction Hlen as [|nodeB later HB Hlater IH]; simpl; intros m; [eauto|].
  destruct (embedding nodeB) as [embeddingB|]; [|apply IH].
  destruct (decide _); [apply IH|].
  rewrite (cosine_equal_length embeddingA embeddingB (HB _ eq_refl)). simpl.
  destruct (_ <=? _); apply IH.
Qed.

Lemma collectCandidates_returns (settings : Settings) (manual : gset string)
    (dimension : nat) (nodesArray : list GraphNode) (m : CandidateMap) :
  Forall (fun node => forall e, embedding node = Some e -> length e = dimension)
    nodesArray ->
  exists m', collectCandidates settings manual nodesArray m = Ok m'.
Proof.
  intros Hdim. revert m.
  induction Hdim as [|nodeA later HA Hlater IH]; simpl; intros m; [eauto|].
  destruct (embedding nodeA) as [embeddingA|]; [|apply IH].
  destruct (collectFrom_returns settings manual nodeA embeddingA later m) as [m1 ->].
  { eapply Forall_impl; [exact Hlater|]. simpl. intros nodeB HB embeddingB HeB.
    rewrite (HA _ eq_refl). symmetry. apply HB, HeB. }
  simpl. apply IH.
Qed.

Lemma createEmbeddingBasedLinks_returns (settings : Settings) (links : list GraphLink)
    (dimension : nat) (nodesArray : list GraphNode) :
  Forall (fun node => forall e, embedding node = Some e -> length e = dimension)
    nodesArray ->
  exists after, createEmbeddingBasedLinks settings links nodesArray = Ok after.
Proof.
  intros Hdim. unfold createEmbeddingBasedLinks, similarityLinks.
  destruct (collectCandidates_returns settings (manualLinkPairs links) dimension
              nodesArray [] Hdim) as [m ->].
  simpl. eauto.
Qed.

(** The scenario of the design: [A] and [B] point the same way, [C] is
    orthogonal to both, [D] has no embedding; threshold one half, no cap. *)
Definition scenarioSettings : Settings :=
  {| similarityThreshold := 0.5; maxSimilarLinksPerNode := None;
     dynamicSimilarityPruning := None;
     minLinkThickness := 0.5; maxLinkThickness := 8 |}.

Definition scenarioNodes : list GraphNode :=
  [ {| node_id := "A"; embedding := Some [1; 0] |};
    {| node_id := "B"; embedding := Some [1; 0] |};
    {| node_id := "C"; embedding := Some [0; 1] |};
    {| node_id := "D"; embedding := None |} ].

Definition scenarioLinks : list GraphLink :=
  [ {| source := "A"; target := "B"; link_id := "A<->B"; similarity := Some 1;
       thickness := Some 8; link_type := None |} ].

Example scenario_links :
  createEmbeddingBasedLinks scenarioSettings [] scenarioNodes = Ok scenarioLinks.
Proof. vm_compute. reflexivity. Qed.

Lemma links_respect_threshold_witness :
  exists perNodeCandidates pushed,
    collectCandidates scenarioSettings (manualLinkPairs []) scenarioNodes []
    = Ok perNodeCandidates
    /\ scenarioLinks = [] ++ pushed
    /\ (forall nodeId candidates c,
           (nodeId, candidates) ∈ perNodeCandidates -> c ∈ candidates ->
           (similarityThreshold scenarioSettings <=? sim c) = true
           /\ pairSimilarity scenarioNodes nodeId (otherId c) (sim c))
    /\ (forall link, link ∈ pushed ->
           exists s, similarity link = Some s
                     /\ (similarityThreshold scenarioSettings <=? s) = true
                     /\ pairSimilarity scenarioNodes (source link) (target link) s).
Proof.
  apply (links_respect_threshold scenarioSettings [] scenarioNodes scenarioLinks).
  vm_compute. reflexivity.
Defined.

(** *** No pair of nodes is linked twice *)

Lemma pairKey_sym (a b : string) : pairKey a b = pairKey b a.
Proof.
  unfold pairKey, String.ltb.
  pose proof (String.compare_antisym b a) as Hba.
  destruct (String.compare a b) eqn:Hab; rewrite Hba; simpl; try reflexivity.
  apply String.compare_eq_iff in Hab. subst. reflexivity.
Qed.

(** The key under which a link is recorded in [addedPairs]. *)
Definition linkKey (link : GraphLink) : string := pairKey (source link) (target link).

(** Two links connect the same two end points, in either direction. *)
Definition sameEndpoints (l1 l2 : GraphLink) : Prop :=
  (source l1 = source l2 /\ target l1 = target l2)
  \/ (source l1 = target l2 /\ target l1 = source l2).

Lemma sameEndpoints_linkKey (l1 l2 : GraphLink) :
  sameEndpoints l1 l2 -> linkKey l1 = linkKey l2.
Proof.
  unfold linkKey. intros [[-> ->] | [-> ->]]; [reflexivity | apply pairKey_sym].
Qed.

(** The invariant of the two loops: the keys of the links pushed so far are
    pairwise different and all in [addedPairs]. *)
Definition keyed (state : gset string * list GraphLink) : Prop :=
  NoDup (map linkKey (snd state))
  /\ forall link, link ∈ snd state -> linkKey link ∈ fst state.

Lemma addLinks_keyed (settings : Settings) (nodeId : string) (filtered : list Candidate)
    (state : gset string * list GraphLink) :
  keyed state -> keyed (addLinks settings nodeId filtered state).
Proof.
  revert state.
  induction filtered as [|c filtered IH]; intros [addedPairs links] Hk; simpl;
    [assumption|].
  destruct (decide (pairKey nodeId (otherId c) ∈ addedPairs)) as [Hin | Hout];
    apply IH; [assumption|].
  destruct Hk as [Hnodup Hadded]. simpl in *. split; simpl.
  - rewrite map_app. simpl. apply NoDup_app. split; [assumption|]. split.
    + intros key Hkey Hnew. apply list_elem_of_singleton in Hnew. subst key.
      apply list_elem_of_fmap in Hkey as (link & Hkey & Hlink).
      apply Hout. change (pairKey nodeId (otherId c) = linkKey link) in Hkey.
      rewrite Hkey. apply Hadded, Hlink.
    + apply NoDup_singleton.
  - intros link Hlink. apply elem_of_app in Hlink as [Hlink | Hlink].
    + apply elem_of_union_l, Hadded, Hlink.
    + apply list_elem_of_singleton in Hlink. subst link.
      apply elem_of_union_r, elem_of_singleton. reflexivity.
Qed.

Lemma forEachNode_keyed (settings : Settings) (m : CandidateMap)
    (state : gset string * list GraphLink) :
  keyed state -> keyed (forEachNode settings m state).
Proof.
  revert state.
  induction m as [|[nodeId candidates] m IH]; intros state Hk; simpl; [assumption|].
  destruct candidates as [|c candidates]; [apply IH; assumption|].
  apply IH, addLinks_keyed, Hk.
Qed.

(** C2.  When the call returns, [this.links] is the old list followed by the
    links pushed, and no two of the links pushed (at different positions)
    connect the same two end points, in either direction. *)
Theorem links_unique_per_pair (settings : Settings) (links : list GraphLink)
    (nodesArray : list GraphNode) (after : list GraphLink) :
  createEmbeddingBasedLinks settings links nodesArray = Ok after ->
  exists pushed,
    after = links ++ pushed
    /\ forall i j l1 l2,
         pushed !! i = Some l1 -> pushed !! j = Some l2 -> i <> j ->
         ~ sameEndpoints l1 l2.
Proof.
  unfold createEmbeddingBasedLinks, similarityLinks. intros H.
  destruct (collectCandidates settings (manualLinkPairs links) nodesArray [])
    as [m|message] eqn:Hm; simpl in H; [|discriminate].
  injection H as <-.
  exists (snd (forEachNode settings m (∅, []))).
  split; [reflexivity|].
  assert (Hk : keyed (forEachNode settings m (∅, []))).
  { apply forEachNode_keyed. split; simpl; [constructor|].
    intros link Hlink. inversion Hlink. }
  destruct Hk as [Hnodup _].
  intros i j l1 l2 Hi Hj Hij Hsame. apply Hij.
  apply (NoDup_lookup _ i j (linkKey l1) Hnodup).
  - rewrite list_lookup_fmap, Hi. reflexivity.
  - rewrite list_lookup_fmap, Hj. simpl.
    rewrite (sameEndpoints_linkKey l1 l2 Hsame). reflexivity.
Qed.

(** Six nodes fanned out between 0 and 27 degrees: every pair is a candidate
    of both its end points; with dynamic pruning and at most two links per
    node, some pairs are kept by one end point only. *)
Definition fanSettings : Settings :=
  {| similarityThreshold := 0.5; maxSimilarLinksPerNode := Some 2%Z;
     dynamicSimilarityPruning := Some true;
     minLinkThickness := 0.5; maxLinkThickness := 8 |}.

Definition fanNodes : list GraphNode :=
  [ {| node_id := "A"; embedding := Some [1; 0] |};
    {| node_id := "B"; embedding := Some [1; 0.1] |};
    {| node_id := "C"; embedding := Some [1; 0.2] |};
    {| node_id := "D"; embedding := Some [1; 0.3] |};
    {| node_id := "E"; embedding := Some [1; 0.4] |};
    {| node_id := "F"; embedding := Some [1; 0.5] |} ].

Definition fanLinks : list GraphLink :=
  Eval vm_compute in
    match createEmbeddingBasedLinks fanSettings [] fanNodes with
    | Ok after => after
    | Throw _ => []
    end.

Example fan_links_ends :
  map (fun link => (source link, target link)) fanLinks
  = [("A", "B"); ("A", "C"); ("B", "C"); ("C", "D"); ("D", "E"); ("E", "F"); ("F", "D")]%string.
Proof. reflexivity. Qed.

Lemma links_unique_per_pair_witness :
  exists pushed,
    fanLinks = [] ++ pushed
    /\ forall i j l1 l2,
         pushed !! i = Some l1 -> pushed !! j = Some l2 -> i <> j ->
         ~ sameEndpoints l1 l2.
Proof.
  apply (links_unique_per_pair fanSettings [] fanNodes fanLinks).
  vm_compute. reflexivity.
Defined.

(** *** Pruning the candidates of one node *)

(** The mean and the population standard deviation of a node's similarities,
    summed from the left. *)
Definition mean (sims : list float) : float :=
  fold_left (fun a b => a + b) sims 0 / of_length (length sims).


(** Truncation to a cap, where a cap of 0 means no truncation. *)
Definition truncate {A} (cap : Z) (l : list A) : list A :=
  if (cap =? 0)%Z then l else take (Z.to_nat cap) l.

(** A stable sort by descending similarity: [x] stays in front of a later
    [y] unless the similarity of [x] is strictly less. *)
Fixpoint insertDescending (x : Candidate) (l : list Candidate) : list Candidate :=
  match l with
  | [] => [x]
  | y :: l' => if sim x <? sim y then y :: insertDescending x l' else x :: l
  end.


(** The comparator [(a, b) => b.sim - a.sim] sorts by descending
    similarity. *)
Lemma sort_insert_descending (x : Candidate) (l : list Candidate) :
  sort_insert (fun a b => sim b - sim a) x l = insertDescending x l.
Proof.
  induction l as [|y l IH]; simpl; [reflexivity|].
  rewrite float_sub_pos_iff_lt, IH. reflexivity.
Qed.






Lemma insertDescending_perm (x : Candidate) (l : list Candidate) :
  insertDescending x l ≡ₚ x :: l.
Proof. rewrite <- sort_insert_descending. apply sort_insert_perm. Qed.



Lemma truncate_slice {A} (cap : Z) (l : list A) :
  (0 <= cap)%Z ->
  (if (0 <? cap)%Z && (cap <? Z.of_nat (length l))%Z then Text.slice l 0 cap else l)
  = truncate cap l.
Proof.
  intros Hcap. unfold truncate.
  destruct (Z.eqb_spec cap 0) as [-> | Hne]; [reflexivity|].
  destruct (Z.ltb_spec 0 cap); [|lia]. simpl.
  destruct (Z.ltb_spec cap (Z.of_nat (length l))).
  - unfold Text.slice.
    destruct (Z.ltb_spec cap 0); [lia|].
    change (0 <? 0)%Z with false. cbv iota.
    replace (Z.min 0 (Z.of_nat (length l))) with 0%Z by lia.
    replace (Z.max (Z.min cap (Z.of_nat (length l)) - 0) 0) with cap by lia.
    reflexivity.
  - symmetry. apply take_ge. lia.
Qed.



Definition fanCandidatesC : list Candidate :=
  [ {| otherId := "A"; sim := 0.98058067569092011 |};
    {| otherId := "B"; sim := 0.99522852511998006 |};
    {| otherId := "D"; sim := 0.99557950271408147 |};
    {| otherId := "E"; sim := 0.98328200498446006 |};
    {| otherId := "F"; sim := 0.96476382123773219 |} ].

Example fan_candidates_C :
  option_map (fun m => m !! 2%nat)
    (match collectCandidates fanSettings ∅ fanNodes [] with
     | Ok m => Some m
     | Throw _ => None
     end)
  = Some (Some ("C"%string, fanCandidatesC)).
Proof. vm_compute. reflexivity. Qed.

Example fan_pruned_C :
  map otherId (pruneCandidates fanSettings fanCandidatesC) = ["D"; "B"]%string.
Proof. vm_compute. reflexivity. Qed.


End SimilarityLinks.

(** ** Text normalisation *)

Section Normalisation.
Import Text.

(** *** Strings *)

Lemma append_cons (a : ascii) (s t : string) : String a s +:+ t = String a (s +:+ t).
Proof. reflexivity. Qed.

Lemma append_empty_l (t : string) : EmptyString +:+ t = t.
Proof. reflexivity. Qed.

Lemma append_assoc (s t u : string) : (s +:+ t) +:+ u = s +:+ (t +:+ u).
Proof.
  induction s as [|a s IH]; [reflexivity|].
  rewrite !append_cons, IH. reflexivity.
Qed.

Lemma append_empty_r (s : string) : s +:+ EmptyString = s.
Proof.
  induction s as [|a s IH]; [reflexivity|].
  rewrite append_cons, IH. reflexivity.
Qed.

(** A word: not empty and free of white space. *)
Fixpoint no_ws (s : string) : bool :=
  match s with
  | EmptyString => true
  | String a s' => negb (is_ws a) && no_ws s'
  end.

Definition word (w : string) : Prop := nonempty w = true /\ no_ws w = true.

Lemma no_ws_append (s t : string) : no_ws (s +:+ t) = no_ws s && no_ws t.
Proof.
  induction s as [|a s IH]; [reflexivity|].
  rewrite append_cons. simpl. rewrite IH, andb_assoc. reflexivity.
Qed.

(** *** Splitting *)

Lemma split_ws_from_no_ws (cur : string) (in_sep : bool) (s : string) :
  no_ws cur = true -> Forall (fun w => no_ws w = true) (split_ws_from cur in_sep s).
Proof.
  revert cur in_sep. induction s as [|a s IH]; intros cur in_sep Hcur; simpl.
  - repeat constructor. assumption.
  - destruct (is_ws a) eqn:Ha.
    + destruct in_sep; [apply IH; reflexivity|].
      constructor; [assumption | apply IH; reflexivity].
    + apply IH. rewrite no_ws_append, Hcur. simpl. rewrite Ha. reflexivity.
Qed.

Lemma split_ws_from_word (w : string) (cur : string) (s : string) :
  no_ws w = true ->
  split_ws_from cur false (w +:+ s) = split_ws_from (cur +:+ w) false s.
Proof.
  revert cur. induction w as [|a w IH]; intros cur Hw.
  - rewrite append_empty_l, append_empty_r. reflexivity.
  - simpl in Hw. apply andb_prop in Hw as [Ha Hw].
    apply negb_true_iff in Ha. rewrite append_cons. simpl. rewrite Ha.
    rewrite IH by assumption. rewrite append_assoc. reflexivity.
Qed.

Lemma split_ws_from_after_sep (w s : string) :
  word w ->
  split_ws_from EmptyString true (w +:+ s) = split_ws_from EmptyString false (w +:+ s).
Proof.
  intros [Hne Hw]. destruct w as [|a w]; [discriminate Hne|].
  simpl in Hw. apply andb_prop in Hw as [Ha _].
  apply negb_true_iff in Ha. rewrite append_cons. simpl. rewrite Ha. reflexivity.
Qed.

Lemma join_cons (sep w : string) (l : list string) :
  l <> [] -> join sep (w :: l) = w +:+ sep +:+ join sep l.
Proof. destruct l; [congruence | reflexivity]. Qed.

Lemma split_join (w : string) (l : list string) (cur : string) :
  Forall word (w :: l) ->
  split_ws_from cur false (join " " (w :: l)) = (cur +:+ w) :: l.
Proof.
  revert w cur. induction l as [|w2 l IH]; intros w cur Hall.
  - simpl. inversion Hall as [|? ? [_ Hw] _]; subst.
    rewrite <- (append_empty_r w) at 1.
    rewrite split_ws_from_word by assumption. reflexivity.
  - inversion Hall as [|? ? [_ Hw] Hrest]; subst.
    rewrite join_cons by discriminate.
    rewrite split_ws_from_word by assumption.
    change (" " +:+ join " " (w2 :: l)) with (String " " (join " " (w2 :: l))).
    change (split_ws_from (cur +:+ w) false (String " " (join " " (w2 :: l))))
      with ((cur +:+ w) :: split_ws_from EmptyString true (join " " (w2 :: l))).
    f_equal.
    assert (Hj : exists t, join " " (w2 :: l) = w2 +:+ t).
    { destruct l; [exists EmptyString; simpl; rewrite append_empty_r; reflexivity|].
      eexists. apply join_cons. discriminate. }
    destruct Hj as [t Ht].
    rewrite Ht at 1. rewrite split_ws_from_after_sep by (inversion Hrest; assumption).
    rewrite <- Ht. rewrite IH by assumption. reflexivity.
Qed.

Lemma words_of_join (l : list string) :
  Forall word l ->
  List.filter nonempty (split_ws (join " " l)) = l.
Proof.
  intros Hall. destruct l as [|w l]; [reflexivity|].
  unfold split_ws. rewrite split_join by assumption. rewrite append_empty_l.
  apply filter_id. eapply Forall_impl; [exact Hall|]. intros x [Hx _]. exact Hx.
Qed.

(** *** Trimming *)

Fixpoint ends_with_ink (s : string) : bool :=
  match s with
  | EmptyString => false
  | String a s' =>
      match s' with
      | EmptyString => negb (is_ws a)
      | _ => ends_with_ink s'
      end
  end.

Lemma trimEnd_ink (s : string) : ends_with_ink s = true -> trimEnd s = s.
Proof.
  induction s as [|a s IH]; [discriminate|].
  destruct s as [|b s].
  - simpl. intros Ha. apply negb_true_iff in Ha. rewrite Ha. reflexivity.
  - intros H. change (ends_with_ink (String b s) = true) in H.
    change (trimEnd (String a (String b s)))
      with (match trimEnd (String b s) with
            | EmptyString => if is_ws a then EmptyString else String a EmptyString
            | t => String a t
            end).
    rewrite (IH H). reflexivity.
Qed.

Lemma ends_with_ink_append (s t : string) :
  ends_with_ink t = true -> ends_with_ink (s +:+ t) = true.
Proof.
  intros Ht. induction s as [|a s IH]; [exact Ht|].
  rewrite append_cons.
  destruct (s +:+ t) as [|b r] eqn:Hst; [discriminate IH | exact IH].
Qed.

Lemma word_ends_with_ink (w : string) : word w -> ends_with_ink w = true.
Proof.
  intros [Hne Hw]. induction w as [|a w IH]; [discriminate Hne|].
  simpl in Hw. apply andb_prop in Hw as [Ha Hw].
  destruct w as [|b w]; [exact Ha|].
  apply IH; [reflexivity | exact Hw].
Qed.

Lemma join_ends_with_ink (w : string) (l : list string) :
  Forall word (w :: l) -> ends_with_ink (join " " (w :: l)) = true.
Proof.
  revert w. induction l as [|w2 l IH]; intros w Hall.
  - apply word_ends_with_ink. inversion Hall; assumption.
  - rewrite join_cons by discriminate.
    apply ends_with_ink_append, ends_with_ink_append, IH.
    inversion Hall; assumption.
Qed.

Lemma trimStart_join (w : string) (l : list string) :
  Forall word (w :: l) -> trimStart (join " " (w :: l)) = join " " (w :: l).
Proof.
  intros Hall.
  assert (Hj : exists t, join " " (w :: l) = w +:+ t).
  { destruct l; [exists EmptyString; simpl; rewrite append_empty_r; reflexivity|].
    eexists. apply join_cons. discriminate. }
  destruct Hj as [t ->].
  inversion Hall as [|? ? [Hne Hw] _]; subst.
  destruct w as [|a w]; [discriminate Hne|].
  simpl in Hw. apply andb_prop in Hw as [Ha _]. apply negb_true_iff in Ha.
  rewrite append_cons. simpl. rewrite Ha. reflexivity.
Qed.

Lemma trim_join (l : list string) : Forall word l -> trim (join " " l) = join " " l.
Proof.
  intros Hall. destruct l as [|w l]; [reflexivity|].
  unfold trim. rewrite trimStart_join by assumption.
  apply trimEnd_ink, join_ends_with_ink, Hall.
Qed.

(** *** Text without a match *)

(** The pattern matches nowhere in [s]. *)
Definition noMatch (re : list item) (s : string) : Prop :=
  search re None s EmptyString = None.

Lemma replace_all_from_no_match (re : list item) (prev : option ascii) (s skipped : string) :
  search re prev s skipped = None -> replace_all_from re prev O s = s.
Proof.
  revert prev skipped. induction s as [|a s IH]; intros prev skipped H; [reflexivity|].
  simpl in *. destruct (matchItems re prev (String a s) None); [discriminate|].
  rewrite (IH _ _ H). reflexivity.
Qed.

Lemma replace_all_no_match (re : list item) (s : string) :
  noMatch re s -> replace_all re s = s.
Proof. apply replace_all_from_no_match. Qed.

Lemma replace_first_no_match (re : list item) (s : string) :
  noMatch re s -> replace_first re s = s.
Proof. unfold noMatch, replace_first. intros ->. reflexivity. Qed.

(** A text with no front matter, heading line, code block or link. *)
Definition plain (s : string) : Prop :=
  noMatch frontmatterRegex s /\ noMatch headingLineRegex s
  /\ noMatch codeBlockRegex s /\ noMatch linkRegex s.

Lemma bodyText_plain (s : string) : plain s -> bodyText s = trim s.
Proof.
  intros (Hfront & Hheading & Hcode & Hlink). unfold bodyText.
  rewrite (replace_first_no_match _ _ Hfront), (replace_all_no_match _ _ Hheading),
    (replace_all_no_match _ _ Hcode), (replace_all_no_match _ _ Hlink).
  reflexivity.
Qed.

(** *** The selected words *)

Definition notStop (w : string) : bool := negb (STOP_has (toLowerCase w)).

Definition filteredWords (content : string) : list string :=
  List.filter notStop (List.filter nonempty (split_ws (bodyText content))).

Lemma filteredWords_words (content : string) :
  Forall (fun w => word w /\ notStop w = true) (filteredWords content).
Proof.
  unfold filteredWords. apply Forall_and. split.
  - apply filter_Forall.
    unfold word. apply Forall_and. split; [apply filter_Forall_true|].
    apply filter_Forall, split_ws_from_no_ws. reflexivity.
  - apply filter_Forall_true.
Qed.

Lemma slice_prefix_length {A} (l : list A) (limit : Z) :
  (0 <= limit)%Z ->
  (Z.of_nat (length (slice l 0 (Z.min (Z.of_nat (length l)) (0 + limit)))) <= limit)%Z.
Proof.
  intros Hlimit. unfold slice. rewrite length_take, length_drop.
  change (0 <? 0)%Z with false. cbv iota.
  destruct (Z.ltb_spec (Z.min (Z.of_nat (length l)) (0 + limit)) 0); lia.
Qed.

Lemma slice_all {A} (l : list A) (limit : Z) :
  (Z.of_nat (length l) <= limit)%Z ->
  slice l 0 (Z.min (Z.of_nat (length l)) (0 + limit)) = l.
Proof.
  intros Hlen. unfold slice.
  change (0 <? 0)%Z with false. cbv iota.
  destruct (Z.ltb_spec (Z.min (Z.of_nat (length l)) (0 + limit)) 0); [lia|].
  replace (Z.to_nat (Z.min 0 (Z.of_nat (length l)))) with O by lia.
  rewrite drop_0. apply take_ge. lia.
Qed.

(** C9, as the code has it.  With a word skip of 0 (unset, 0 or negative)
    and headings excluded (unset or true), and a word limit that is not
    negative: every output of the function that contains no front matter, no
    heading line, no code block and no link is returned unchanged when the
    function is applied to it again. *)
Theorem extract_idempotent (settings : Settings) (wordLimit : Z) (content : string) :
  match embeddingWordSkip settings with
  | Some k => (k <= 0)%Z
  | None => True
  end ->
  excludeHeadingsFromEmbedding settings <> Some false ->
  (0 <= wordLimit)%Z ->
  plain (extractHeadingsAndFirstWords settings content wordLimit) ->
  extractHeadingsAndFirstWords settings
    (extractHeadingsAndFirstWords settings content wordLimit) wordLimit
  = extractHeadingsAndFirstWords settings content wordLimit.
Proof.
  intros Hskip Hexclude Hlimit.
  assert (Hstart : Z.max 0 (match embeddingWordSkip settings with
                            | Some k => k
                            | None => 0%Z
                            end) = 0%Z).
  { destruct (embeddingWordSkip settings); lia. }
  assert (Hexcl : match excludeHeadingsFromEmbedding settings with
                  | Some b => b
                  | None => true
                  end = true).
  { destruct (excludeHeadingsFromEmbedding settings) as [[|]|]; congruence. }
  assert (Hshape : forall text,
    extractHeadingsAndFirstWords settings text wordLimit
    = trim (join " " (slice (filteredWords text) 0
                        (Z.min (Z.of_nat (length (filteredWords text))) (0 + wordLimit))))).
  { intros text. unfold extractHeadingsAndFirstWords.
    rewrite Hstart, Hexcl. reflexivity. }
  rewrite !Hshape.
  set (selected := slice (filteredWords content) 0
                     (Z.min (Z.of_nat (length (filteredWords content))) (0 + wordLimit))).
  assert (Hsel : Forall (fun w => word w /\ notStop w = true) selected).
  { apply slice_Forall, filteredWords_words. }
  apply Forall_and in Hsel as [Hwords Hstop].
  rewrite (trim_join selected Hwords).
  intros Hplain.
  assert (Hfiltered : filteredWords (join " " selected) = selected).
  { unfold filteredWords. rewrite (bodyText_plain _ Hplain).
    rewrite (trim_join selected Hwords), (words_of_join selected Hwords).
    apply filter_id, Hstop. }
  rewrite Hfiltered, slice_all; [apply trim_join, Hwords|].
  apply slice_prefix_length, Hlimit.
Qed.

(** A note with front matter, two headings, a link and a code block. *)
Definition newline : string := String "010" EmptyString.

Definition sampleNote : string :=
  "---" +:+ newline +:+ "tags: x" +:+ newline +:+ "---" +:+ newline
  +:+ "# Title here" +:+ newline
  +:+ "alpha [link](http://x) beta ```code``` gamma" +:+ newline
  +:+ "## Sub" +:+ newline +:+ "delta".

Example headings_of_sampleNote :
  exec_all headingRegex sampleNote = ["Title here"; "Sub"]%string.
Proof. vm_compute. reflexivity. Qed.

Example heading_needs_one_to_six_marks :
  exec_all headingRegex ("####### seven" +:+ newline +:+ "###### six")
  = ["six"]%string.
Proof. vm_compute. reflexivity. Qed.

Example frontmatter_is_removed_once :
  replace_first frontmatterRegex
    ("---" +:+ newline +:+ "a: 1" +:+ newline +:+ "---" +:+ newline +:+ "body --- x --- y")
  = "body --- x --- y"%string.
Proof. vm_compute. reflexivity. Qed.

Example links_and_code_are_removed :
  replace_all linkRegex (replace_all codeBlockRegex "see [a](b), ```x``` and [c](d)!")
  = "see ,  and !"%string.
Proof. vm_compute. reflexivity. Qed.

Example stop_words_are_dropped :
  extractHeadingsAndFirstWords {| embeddingWordSkip := None;
                                  excludeHeadingsFromEmbedding := None |}
    "The  quick fox AND the hound" defaultWordLimit
  = "quick fox hound"%string.
Proof. vm_compute. reflexivity. Qed.

Definition defaultSettings : Settings :=
  {| embeddingWordSkip := None; excludeHeadingsFromEmbedding := None |}.

Example sampleNote_normalised :
  extractHeadingsAndFirstWords defaultSettings sampleNote defaultWordLimit
  = "alpha beta gamma delta"%string.
Proof. vm_compute. reflexivity. Qed.

Lemma extract_idempotent_witness :
  extractHeadingsAndFirstWords defaultSettings
    (extractHeadingsAndFirstWords defaultSettings sampleNote defaultWordLimit)
    defaultWordLimit
  = extractHeadingsAndFirstWords defaultSettings sampleNote defaultWordLimit.
Proof.
  apply (extract_idempotent defaultSettings defaultWordLimit sampleNote).
  - exact I.
  - discriminate.
  - discriminate.
  - repeat split; vm_compute; reflexivity.
Defined.

(** Idempotence for every configuration: an output that is plain is
    a fixed point. *)
Definition idempotent_on_plain_outputs : Prop :=
  forall (settings : Settings) (content : string),
    plain (extractHeadingsAndFirstWords settings content defaultWordLimit) ->
    extractHeadingsAndFirstWords settings
      (extractHeadingsAndFirstWords settings content defaultWordLimit) defaultWordLimit
    = extractHeadingsAndFirstWords settings content defaultWordLimit.

Definition skipOneSettings : Settings :=
  {| embeddingWordSkip := Some 1%Z; excludeHeadingsFromEmbedding := None |}.

Definition withHeadingsSettings : Settings :=
  {| embeddingWordSkip := None; excludeHeadingsFromEmbedding := Some false |}.

(** C9 fails when a word skip is configured: with a skip of 1 the text
    [alpha beta gamma] becomes [beta gamma], which is plain, and the second
    application skips again and returns [gamma]. *)
Lemma extract_not_idempotent_with_skip : ~ idempotent_on_plain_outputs.
Proof.
  intros H. specialize (H skipOneSettings "alpha beta gamma"%string).
  assert (Hplain : plain (extractHeadingsAndFirstWords skipOneSettings
                            "alpha beta gamma" defaultWordLimit)).
  { repeat split; vm_compute; reflexivity. }
  specialize (H Hplain). vm_compute in H. discriminate H.
Qed.

(** It also fails when headings are included: the heading [Title] and the
    body [alpha] are joined with an empty line between them, which the second
    application turns into a single space. *)
Example extract_not_idempotent_with_headings :
  extractHeadingsAndFirstWords withHeadingsSettings
    ("# Title" +:+ newline +:+ "alpha") defaultWordLimit
  = "Title" +:+ newline +:+ newline +:+ "alpha"
  /\ plain ("Title" +:+ newline +:+ newline +:+ "alpha")
  /\ extractHeadingsAndFirstWords withHeadingsSettings
       ("Title" +:+ newline +:+ newline +:+ "alpha") defaultWordLimit
     = "Title alpha"%string.
Proof. repeat split; vm_compute; reflexivity. Qed.

End Normalisation.

(* ================================================================== *)
(** * Further properties *)
(* ================================================================== *)

(** ** The similarity of two vectors does not depend on their order *)

Section CosineSymmetry.
Import Service.
Local Open Scope float_scope.

Lemma SFmul_comm (x y : spec_float) :
  SFmul prec emax x y = SFmul prec emax y x.
Proof.
  destruct x as [sx|sx| |sx mx ex], y as [sy|sy| |sy my ey]; simpl;
    rewrite ?(xorb_comm sx sy); try reflexivity.
  rewrite (Pos.mul_comm mx my), (Z.add_comm ex ey). reflexivity.
Qed.

Lemma float_mul_comm (x y : float) : x * y = y * x.
Proof.
  apply Prim2SF_inj. rewrite !FloatAxioms.mul_spec. apply SFmul_comm.
Qed.

Lemma fold_products_comm (u v : list float) (d : float) :
  fold_left (fun acc ab => acc + fst ab * snd ab) (combine u v) d
  = fold_left (fun acc ab => acc + fst ab * snd ab) (combine v u) d.
Proof.
  revert v d. induction u as [|a u IH]; intros [|b v] d; simpl; try reflexivity.
  rewrite (float_mul_comm a b). apply IH.
Qed.

(** X1.  [calculateCosineSimilarity] is symmetric: with the arguments
    exchanged it returns the same number, bit for bit, or throws the same
    error. *)
Theorem cosine_symmetric (u v : list float) :
  calculateCosineSimilarity u v = calculateCosineSimilarity v u.
Proof.
  destruct (Nat.eq_dec (length u) (length v)) as [Hlen | Hlen].
  - rewrite (cosine_equal_length u v Hlen), (cosine_equal_length v u (eq_sym Hlen)).
    rewrite (orb_comm (magnitude u =? 0)), (float_mul_comm (magnitude u)).
    unfold dotProduct. rewrite (fold_products_comm u v). reflexivity.
  - unfold calculateCosineSimilarity.
    assert (Hvu : length v <> length u) by congruence.
    apply Nat.eqb_neq in Hlen, Hvu. rewrite Hlen, Hvu. reflexivity.
Qed.

End CosineSymmetry.

Section ServiceUtilFacts.
Import Service ServiceUtil.

(** ** Statistics *)

Definition sameStatus (a b : Status) : bool :=
  match a, b with
  | UpToDate, UpToDate | Modified, Modified | New, New | Processing, Processing => true
  | _, _ => false
  end.

(** The number of files of [l] whose status is [s]. *)
Definition countOf (c : EmbeddingCache) (s : Status) (l : list TFile) : nat :=
  length (List.filter (fun file => sameStatus (getFileStatus c file) s) l).

Lemma stats_fold_counts (c : EmbeddingCache) (l : list TFile) (stats : Stats) :
  let after :=
    fold_left (fun stats file => countStatus stats (getFileStatus c file)) l stats in
  total after = total stats
  /\ upToDate after = (upToDate stats + countOf c UpToDate l)%nat
  /\ modified after = (modified stats + countOf c Modified l)%nat
  /\ new after = (new stats + countOf c New l)%nat.
Proof.
  revert stats. induction l as [|file l IH]; intros stats; simpl.
  - unfold countOf. simpl. repeat split; lia.
  - specialize (IH (countStatus stats (getFileStatus c file))).
    simpl in IH. destruct IH as (Ht & Hu & Hm & Hn).
    rewrite Ht, Hu, Hm, Hn. unfold countOf. simpl.
    destruct (getFileStatus c file); simpl; repeat split; lia.
Qed.

Lemma countOf_partition (c : EmbeddingCache) (l : list TFile) :
  (countOf c UpToDate l + countOf c Modified l + countOf c New l)%nat = length l.
Proof.
  unfold countOf. induction l as [|file l IH]; simpl; [reflexivity|].
  pose proof (getFileStatus_not_processing c file) as Hnp.
  destruct (getFileStatus c file); simpl; try lia. congruence.
Qed.

(** X2.  For every cache and every list of files, the counters of
    [getEmbeddingStats] count the files by their status as [getFileStatus]
    reports it, [total] is the number of files, and the three counters
    [upToDate], [modified] and [new] add up to [total]. *)
Theorem getEmbeddingStats_counts (c : EmbeddingCache) (markdownFiles : list TFile) :
  total (getEmbeddingStats c markdownFiles) = length markdownFiles
  /\ upToDate (getEmbeddingStats c markdownFiles) = countOf c UpToDate markdownFiles
  /\ modified (getEmbeddingStats c markdownFiles) = countOf c Modified markdownFiles
  /\ new (getEmbeddingStats c markdownFiles) = countOf c New markdownFiles
  /\ (upToDate (getEmbeddingStats c markdownFiles)
      + modified (getEmbeddingStats c markdownFiles)
      + new (getEmbeddingStats c markdownFiles))%nat
     = total (getEmbeddingStats c markdownFiles).
Proof.
  unfold getEmbeddingStats.
  destruct (stats_fold_counts c markdownFiles
              {| total := length markdownFiles; upToDate := 0; modified := 0; new := 0;
                 processing := 0 |}) as (Ht & Hu & Hm & Hn).
  simpl in *. rewrite Ht, Hu, Hm, Hn.
  repeat split; try reflexivity. apply countOf_partition.
Qed.

(** ** Clearing the cache *)

Lemma countOf_all (c : EmbeddingCache) (s : Status) (l : list TFile) :
  Forall (fun file => getFileStatus c file = s) l -> countOf c s l = length l.
Proof.
  unfold countOf. induction 1 as [|file l Hf Hl IH]; simpl; [reflexivity|].
  rewrite Hf. destruct s; simpl; rewrite IH; reflexivity.
Qed.

Lemma countOf_none (c : EmbeddingCache) (s s' : Status) (l : list TFile) :
  Forall (fun file => getFileStatus c file = s') l -> s <> s' -> countOf c s l = 0%nat.
Proof.
  unfold countOf. intros Hall Hne.
  induction Hall as [|file l Hf Hl IH]; simpl; [reflexivity|].
  rewrite Hf. destruct s', s; simpl; try congruence; exact IH.
Qed.

(** X3.  After [clearCache], whatever the cache held before, no path has an
    embedding, every file is new, the next run updates every file, and the
    statistics over any list of files count all of them as new. *)
Theorem clearCache_forgets (c : EmbeddingCache) (markdownFiles : list TFile) :
  (forall p, getFileEmbedding (clearCache c) p = None)
  /\ (forall file, getFileStatus (clearCache c) file = New)
  /\ needsUpdate (clearCache c) markdownFiles = markdownFiles
  /\ getEmbeddingStats (clearCache c) markdownFiles
     = {| total := length markdownFiles; upToDate := 0; modified := 0;
          new := length markdownFiles; processing := 0 |}.
Proof.
  assert (Hnew : forall file, getFileStatus (clearCache c) file = New).
  { intros file. unfold getFileStatus, clearCache. simpl.
    rewrite lookup_empty. reflexivity. }
  split; [intros p; apply lookup_empty|]. split; [exact Hnew|].
  split.
  { unfold needsUpdate. apply filter_id, Forall_forall. intros file _.
    rewrite Hnew. reflexivity. }
  pose proof (getEmbeddingStats_counts_aux := stats_fold_counts (clearCache c) markdownFiles
              {| total := length markdownFiles; upToDate := 0; modified := 0; new := 0;
                 processing := 0 |}).
  pose proof (stats_fold_processing (clearCache c) markdownFiles
              {| total := length markdownFiles; upToDate := 0; modified := 0; new := 0;
                 processing := 0 |}) as Hp.
  fold (getEmbeddingStats (clearCache c) markdownFiles) in *.
  simpl in *. destruct getEmbeddingStats_counts_aux as (Ht & Hu & Hm & Hn).
  assert (Hall : Forall (fun file => getFileStatus (clearCache c) file = New) markdownFiles).
  { apply Forall_forall. intros file _. apply Hnew. }
  rewrite (countOf_none _ UpToDate New _ Hall) in Hu by discriminate.
  rewrite (countOf_none _ Modified New _ Hall) in Hm by discriminate.
  rewrite (countOf_all _ New _ Hall) in Hn.
  destruct (getEmbeddingStats (clearCache c) markdownFiles); simpl in *. congruence.
Qed.

(** ** The time of the last update *)

Lemma maxOf_ge (t : Z) (ts : list Z) :
  t <= maxOf t ts /\ Forall (fun x => x <= maxOf t ts) ts.
Proof.
  unfold maxOf. revert t. induction ts as [|x ts IH]; intros t; simpl.
  - split; [lia | constructor].
  - destruct (IH (Z.max t x)) as [H1 H2]. split; [lia|].
    constructor; [lia | exact H2].
Qed.

Lemma maxOf_in (t : Z) (ts : list Z) : maxOf t ts ∈ t :: ts.
Proof.
  unfold maxOf. revert t. induction ts as [|x ts IH]; intros t; simpl.
  - left.
  - specialize (IH (Z.max t x)). apply elem_of_cons in IH as [IH | IH].
    + rewrite IH. destruct (Z.max_spec t x) as [[_ ->] | [_ ->]];
        [right; left | left].
    + right. right. exact IH.
Qed.

(** X4.  [getLastUpdateTime] is never negative, no record of the cache has a
    later [embeddingGenerated], and unless it is 0 it is the
    [embeddingGenerated] of some record. *)
Theorem getLastUpdateTime_is_latest (c : EmbeddingCache) :
  0 <= getLastUpdateTime c
  /\ (forall p r, files c !! p = Some r -> embeddingGenerated r <= getLastUpdateTime c)
  /\ (getLastUpdateTime c = 0
      \/ exists p r, files c !! p = Some r /\ embeddingGenerated r = getLastUpdateTime c).
Proof.
  unfold getLastUpdateTime.
  set (times := List.filter (fun t => 0 <? t)
                  (map (fun entry => embeddingGenerated (snd entry))
                     (map_to_list (files c)))).
  assert (Hin : forall t, t ∈ times <->
            0 < t /\ exists p r, files c !! p = Some r /\ embeddingGenerated r = t).
  { intros t. unfold times. rewrite list_elem_of_In, filter_In, in_map_iff, Z.ltb_lt.
    split.
    - intros [([p r] & Ht & Hpr) Hpos]. split; [exact Hpos|].
      exists p, r. apply list_elem_of_In, elem_of_map_to_list in Hpr. auto.
    - intros [Hpos (p & r & Hpr & Ht)]. split; [|exact Hpos].
      exists (p, r). split; [exact Ht|].
      apply list_elem_of_In, elem_of_map_to_list, Hpr. }
  destruct times as [|t ts] eqn:Htimes.
  - split; [lia|]. split; [|left; reflexivity].
    intros p r Hpr.
    destruct (Z.le_gt_cases (embeddingGenerated r) 0) as [Hle | Hgt]; [exact Hle|].
    exfalso. assert (Hmem : embeddingGenerated r ∈ @nil Z).
    { apply Hin. split; [lia|]. eauto. }
    inversion Hmem.
  - destruct (maxOf_ge t ts) as [Ht Hts].
    assert (Htpos : 0 < t) by (apply Hin; left).
    split; [lia|]. split.
    + intros p r Hpr.
      destruct (Z.le_gt_cases (embeddingGenerated r) 0) as [Hle | Hgt]; [lia|].
      assert (Hmem : embeddingGenerated r ∈ t :: ts).
      { apply Hin. split; [lia|]. eauto. }
      apply elem_of_cons in Hmem as [-> | Hmem]; [exact Ht|].
      rewrite Forall_forall in Hts. apply Hts, Hmem.
    + right. destruct (proj1 (Hin (maxOf t ts)) (maxOf_in t ts)) as [_ H]. exact H.
Qed.

(** ** Token estimates *)

Lemma ceilQuarter_bounds (n : Z) : 4 * (ceilQuarter n - 1) < n <= 4 * ceilQuarter n.
Proof.
  unfold ceilQuarter.
  pose proof (Z.div_mod n 4 ltac:(lia)) as Hdm.
  pose proof (Z.mod_pos_bound n 4 ltac:(lia)) as Hb.
  destruct (Z.eqb_spec (n mod 4) 0); lia.
Qed.

(** X5.  The estimate is the least number of 4-character tokens that cover
    the text, and a text is within a token limit exactly when its length is
    at most four times the limit; with the default limit of 8191 that is a
    length of at most 32764. *)
Theorem token_limit_by_length (text : string) (maxTokens : Z) :
  4 * (estimateTokenCount text - 1) < Z.of_nat (String.length text)
    <= 4 * estimateTokenCount text
  /\ (isWithinTokenLimit text maxTokens = true
      <-> Z.of_nat (String.length text) <= 4 * maxTokens)
  /\ (isWithinTokenLimit text defaultMaxTokens = true
      <-> Z.of_nat (String.length text) <= 32764).
Proof.
  unfold isWithinTokenLimit, estimateTokenCount, defaultMaxTokens.
  pose proof (ceilQuarter_bounds (Z.of_nat (String.length text))) as Hb.
  split; [exact Hb|]. rewrite !Z.leb_le. split; lia.
Qed.

(** ** Normalising a provider vector *)

Local Open Scope float_scope.

Lemma normalize_zero_entry (x : float) : (x =? 0) = true -> x / 1 = x.
Proof. intros H. destruct (float_eqb_zero x H) as [-> | ->]; reflexivity. Qed.

(** X6.  Normalisation keeps the length of every vector, and it returns a
    zero vector (every component [+0] or [-0]) unchanged: the fallback norm
    of 1 keeps the components from becoming NaN. *)
Theorem normalize_zero_vector (vec : list float) :
  length (normalize vec) = length vec
  /\ (isZeroVector vec = true -> normalize vec = vec).
Proof.
  split; [apply length_map|].
  intros Hzero. unfold normalize.
  fold (sumSquares vec). rewrite (sumSquares_zero vec Hzero).
  change (orElse (PrimFloat.sqrt 0) 1) with 1.
  unfold isZeroVector in Hzero.
  induction vec as [|x vec IH]; simpl in *; [reflexivity|].
  apply andb_prop in Hzero as [Hx Hvec].
  rewrite (normalize_zero_entry x Hx), (IH Hvec). reflexivity.
Qed.

End ServiceUtilFacts.

(** ** What a generation run keeps *)

Section RunFacts.
Import Service.
Context (settings : Text.Settings) (w : World).

(** The outcome of the [try] block for one file. *)
Definition attemptOf (file : TFile) : result (list float) :=
  bind (vault_read w file)
    (fun content =>
       getEmbedding w
         (Text.extractHeadingsAndFirstWords settings content Text.defaultWordLimit)).

(** The outcome is an error that the [catch] block takes for an exhausted
    quota. *)
Definition isQuota (outcome : result (list float)) : bool :=
  match outcome with
  | Throw message => Text.nonempty message && includes "429" message
  | Ok _ => false
  end.

Lemma processFiles_cons (file : TFile) (pending : list TFile) (st : Run) :
  processFiles settings w (file :: pending) st
  = let p := file_path file in
    let c1 := setFile (cache st) p
                {| path := p; lastModified := file_mtime file;
                   embeddingGenerated := now w (clock st); status := Processing |} in
    let attempted1 := attempted st ++ [p] in
    match attemptOf file with
    | Ok embedding =>
        if (0 <? length embedding)%nat then
          processFiles settings w pending
            {| cache := setEmbeddingGenerated
                          (setStatus (setEmbedding c1 p embedding) p UpToDate) p
                          (now w (S (clock st)));
               processed := S (processed st); failed := failed st;
               clock := S (S (clock st)); attempted := attempted1 |}
        else
          processFiles settings w pending
            {| cache := c1; processed := processed st; failed := S (failed st);
               clock := S (clock st); attempted := attempted1 |}
    | Throw message =>
        if Text.nonempty message && includes "429" message then
          {| cache := c1; processed := processed st; failed := S (failed st);
             clock := S (clock st); attempted := attempted1 |}
        else
          processFiles settings w pending
            {| cache := setStatus c1 p Modified; processed := processed st;
               failed := S (failed st); clock := S (clock st);
               attempted := attempted1 |}
    end.
Proof. reflexivity. Qed.

(** An induction principle for properties of a run: the property holds at
    the start and every way a file can be handled keeps it. *)
Lemma processFiles_ind (P : Run -> Prop) :
  (forall file st embedding,
      P st -> attemptOf file = Ok embedding -> (0 < length embedding)%nat ->
      P {| cache := setEmbeddingGenerated
                      (setStatus
                         (setEmbedding
                            (setFile (cache st) (file_path file)
                               {| path := file_path file;
                                  lastModified := file_mtime file;
                                  embeddingGenerated := now w (clock st);
                                  status := Processing |})
                            (file_path file) embedding)
                         (file_path file) UpToDate)
                      (file_path file) (now w (S (clock st)));
           processed := S (processed st); failed := failed st;
           clock := S (S (clock st));
           attempted := attempted st ++ [file_path file] |}) ->
  (forall file st (modifiedMark : bool),
      P st ->
      (attemptOf file = Ok [] /\ modifiedMark = false
       \/ exists message, attemptOf file = Throw message
                          /\ modifiedMark = negb (isQuota (Throw message))) ->
      P {| cache :=
             (if modifiedMark
              then setStatus
                     (setFile (cache st) (file_path file)
                        {| path := file_path file; lastModified := file_mtime file;
                           embeddingGenerated := now w (clock st);
                           status := Processing |})
                     (file_path file) Modified
              else setFile (cache st) (file_path file)
                     {| path := file_path file; lastModified := file_mtime file;
                        embeddingGenerated := now w (clock st);
                        status := Processing |});
           processed := processed st; failed := S (failed st);
           clock := S (clock st);
           attempted := attempted st ++ [file_path file] |}) ->
  forall l st, P st -> P (processFiles settings w l st).
Proof.
  intros Hok Hfail. induction l as [|file pending IH]; intros st Hst; [exact Hst|].
  rewrite processFiles_cons. cbv zeta.
  destruct (attemptOf file) as [embedding|message] eqn:Hattempt.
  - destruct (0 <? length embedding)%nat eqn:Hlen; apply IH.
    + apply Hok; [assumption.. | apply Nat.ltb_lt, Hlen].
    + apply (Hfail file st false Hst). left. split; [|reflexivity].
      apply Nat.ltb_ge in Hlen. destruct embedding; [exact Hattempt | simpl in Hlen; lia].
  - destruct (Text.nonempty message && includes "429" message) eqn:Hq.
    + apply (Hfail file st false Hst). right. exists message.
      split; [exact Hattempt|]. simpl. rewrite Hq. reflexivity.
    + apply IH. apply (Hfail file st true Hst). right. exists message.
      split; [exact Hattempt|]. simpl. rewrite Hq. reflexivity.
Qed.


Definition startOf (c : EmbeddingCache) : Run :=
  {| cache := c; processed := 0; failed := 0; clock := 0; attempted := [] |}.

Lemma generate_processFiles (c : EmbeddingCache) (markdownFiles : list TFile) :
  generateIncrementalEmbeddings settings w c markdownFiles
  = processFiles settings w (needsUpdate c markdownFiles) (startOf c).
Proof. reflexivity. Qed.

(** *** The files attempted *)

Lemma processFiles_attempted (l : list TFile) (st : Run) :
  exists n, attempted (processFiles settings w l st)
            = attempted st ++ map file_path (take n l).
Proof.
  revert st. induction l as [|file pending IH]; intros st.
  - exists O. simpl. rewrite app_nil_r. reflexivity.
  - rewrite processFiles_cons. cbv zeta.
    destruct (attemptOf file) as [embedding|message].
    + destruct (0 <? length embedding)%nat;
        match goal with |- context [processFiles _ _ pending ?st'] =>
          destruct (IH st') as [n Hn] end;
        exists (S n); rewrite Hn; simpl; rewrite <- app_assoc; reflexivity.
    + destruct (Text.nonempty message && includes "429" message).
      * exists 1%nat. reflexivity.
      * match goal with |- context [processFiles _ _ pending ?st'] =>
          destruct (IH st') as [n Hn] end.
        exists (S n). rewrite Hn. simpl. rewrite <- app_assoc. reflexivity.
Qed.

Lemma processFiles_all_attempted (l : list TFile) (st : Run) :
  Forall (fun file => isQuota (attemptOf file) = false) l ->
  attempted (processFiles settings w l st) = attempted st ++ map file_path l.
Proof.
  intros Hl. revert st. induction Hl as [|file pending Hq Hl IH]; intros st.
  - simpl. rewrite app_nil_r. reflexivity.
  - rewrite processFiles_cons. cbv zeta.
    destruct (attemptOf file) as [embedding|message].
    + destruct (0 <? length embedding)%nat; rewrite IH; simpl;
        rewrite <- app_assoc; reflexivity.
    + simpl in Hq. rewrite Hq. rewrite IH. simpl. rewrite <- app_assoc. reflexivity.
Qed.

Lemma processFiles_counters (l : list TFile) (st : Run) :
  (processed st + failed st = length (attempted st))%nat ->
  (processed (processFiles settings w l st) + failed (processFiles settings w l st)
   = length (attempted (processFiles settings w l st)))%nat.
Proof.
  revert l st.
  apply (processFiles_ind
           (fun st => (processed st + failed st = length (attempted st))%nat)).
  - intros file st embedding H _ _. simpl. rewrite length_app. simpl. lia.
  - intros file st mark H _. simpl. rewrite length_app. simpl. lia.
Qed.

(** X7.  In every run, the files handed to the provider are an initial
    stretch, in order, of the files that needed an update, and the two
    counters of the closing notice add up to their number. *)
Theorem run_accounting (c : EmbeddingCache) (markdownFiles : list TFile) :
  (exists n, attempted (generateIncrementalEmbeddings settings w c markdownFiles)
             = map file_path (take n (needsUpdate c markdownFiles)))
  /\ (processed (generateIncrementalEmbeddings settings w c markdownFiles)
      + failed (generateIncrementalEmbeddings settings w c markdownFiles)
      = length (attempted (generateIncrementalEmbeddings settings w c markdownFiles)))%nat.
Proof.
  rewrite generate_processFiles. split.
  - destruct (processFiles_attempted (needsUpdate c markdownFiles) (startOf c)) as [n Hn].
    exists n. exact Hn.
  - apply processFiles_counters. reflexivity.
Qed.

(** X8.  When no attempt fails with a message that includes ['429'], the run
    hands every file that needed an update to the provider, in order; other
    failures do not stop it. *)
Theorem run_visits_all_without_quota (c : EmbeddingCache) (markdownFiles : list TFile) :
  Forall (fun file => isQuota (attemptOf file) = false) (needsUpdate c markdownFiles) ->
  attempted (generateIncrementalEmbeddings settings w c markdownFiles)
  = map file_path (needsUpdate c markdownFiles).
Proof.
  intros Hq. rewrite generate_processFiles.
  apply (processFiles_all_attempted _ (startOf c) Hq).
Qed.

(** *** What is left alone *)

Lemma setFile_other (c : EmbeddingCache) (p q : string) (r : FileEmbeddingStatus) :
  p <> q -> files (setFile c p r) !! q = files c !! q.
Proof. intros H. simpl. apply lookup_insert_ne, H. Qed.

Lemma setStatus_other (c : EmbeddingCache) (p q : string) (s : Status) :
  p <> q -> files (setStatus c p s) !! q = files c !! q.
Proof. intros H. simpl. apply lookup_alter_ne, H. Qed.

Lemma setEmbeddingGenerated_other (c : EmbeddingCache) (p q : string) (t : Z) :
  p <> q -> files (setEmbeddingGenerated c p t) !! q = files c !! q.
Proof. intros H. simpl. apply lookup_alter_ne, H. Qed.

Lemma processFiles_frame (c0 : EmbeddingCache) (l : list TFile) (st : Run) :
  (forall p, p ∉ attempted st ->
             files (cache st) !! p = files c0 !! p
             /\ embeddings (cache st) !! p = embeddings c0 !! p) ->
  forall p, p ∉ attempted (processFiles settings w l st) ->
            files (cache (processFiles settings w l st)) !! p = files c0 !! p
            /\ embeddings (cache (processFiles settings w l st)) !! p
               = embeddings c0 !! p.
Proof.
  revert l st.
  apply (processFiles_ind
           (fun st => forall p, p ∉ attempted st ->
                        files (cache st) !! p = files c0 !! p
                        /\ embeddings (cache st) !! p = embeddings c0 !! p)).
  - intros file st embedding H _ _ p Hp. simpl attempted in Hp.
    apply not_elem_of_app in Hp as [Hp Hne].
    apply not_elem_of_cons in Hne as [Hne _].
    destruct (H p Hp) as [Hf He]. simpl cache. split.
    + rewrite setEmbeddingGenerated_other, setStatus_other by congruence.
      simpl. rewrite lookup_insert_ne by congruence. exact Hf.
    + simpl. rewrite lookup_insert_ne by congruence. exact He.
  - intros file st mark H _ p Hp. simpl attempted in Hp.
    apply not_elem_of_app in Hp as [Hp Hne].
    apply not_elem_of_cons in Hne as [Hne _].
    destruct (H p Hp) as [Hf He].
    destruct mark; simpl cache; split; try exact He.
    + rewrite setStatus_other, setFile_other by congruence. exact Hf.
    + rewrite setFile_other by congruence. exact Hf.
Qed.

(** X9.  A run leaves the record and the vector of every path alone that it
    did not hand to the provider: files that were up to date, and files
    still pending when a quota error stopped the run. *)
Theorem run_frame (c : EmbeddingCache) (markdownFiles : list TFile) (p : string) :
  p ∉ attempted (generateIncrementalEmbeddings settings w c markdownFiles) ->
  files (cache (generateIncrementalEmbeddings settings w c markdownFiles)) !! p
  = files c !! p
  /\ embeddings (cache (generateIncrementalEmbeddings settings w c markdownFiles)) !! p
     = embeddings c !! p.
Proof.
  rewrite generate_processFiles.
  apply (processFiles_frame c). intros q _. split; reflexivity.
Qed.

(** *** Vectors and records *)

(** No stored vector is empty, and a record that says ['up-to-date'] has a
    vector. *)
Definition consistent (c : EmbeddingCache) : Prop :=
  (forall p v, embeddings c !! p = Some v -> v <> [])
  /\ (forall p r, files c !! p = Some r -> status r = UpToDate ->
                  is_Some (embeddings c !! p)).

Lemma processFiles_consistent (l : list TFile) (st : Run) :
  consistent (cache st) -> consistent (cache (processFiles settings w l st)).
Proof.
  revert l st. apply (processFiles_ind (fun st => consistent (cache st))).
  - intros file st embedding [Hv Hr] _ Hlen. simpl cache. split.
    + intros p v. simpl.
      destruct (decide (file_path file = p)) as [<- | Hne].
      * rewrite lookup_insert_eq. intros [= <-]. destruct embedding; [simpl in Hlen; lia|].
        discriminate.
      * rewrite lookup_insert_ne by exact Hne. apply Hv.
    + intros p r. simpl.
      destruct (decide (file_path file = p)) as [<- | Hne].
      * intros _ _. rewrite lookup_insert_eq. eauto.
      * rewrite !lookup_alter_ne, !lookup_insert_ne by exact Hne. apply Hr.
  - intros file st mark [Hv Hr] _.
    assert (Hfiles : forall p r,
              files (if mark
                     then setStatus
                            (setFile (cache st) (file_path file)
                               {| path := file_path file;
                                  lastModified := file_mtime file;
                                  embeddingGenerated := now w (clock st);
                                  status := Processing |})
                            (file_path file) Modified
                     else setFile (cache st) (file_path file)
                            {| path := file_path file; lastModified := file_mtime file;
                               embeddingGenerated := now w (clock st);
                               status := Processing |}) !! p = Some r ->
              status r = UpToDate -> file_path file <> p /\ files (cache st) !! p = Some r).
    { intros p r. destruct (decide (file_path file = p)) as [<- | Hne].
      - destruct mark; simpl; rewrite ?lookup_alter_eq, lookup_insert_eq; simpl;
          intros [= <-]; discriminate.
      - destruct mark; simpl; rewrite ?lookup_alter_ne, lookup_insert_ne by exact Hne;
          auto. }
    simpl cache. split.
    + intros p v Hp. apply (Hv p v). destruct mark; exact Hp.
    + intros p r Hp Hs. destruct (Hfiles p r Hp Hs) as [_ Hold].
      destruct (Hr p r Hold Hs) as [v Hv']. exists v. destruct mark; exact Hv'.
Qed.

(** X10.  A run keeps the cache consistent: if beforehand no stored vector
    was empty and every record marked ['up-to-date'] had a vector, the same
    holds afterwards, however the attempts of the run ended. *)
Theorem run_keeps_consistent (c : EmbeddingCache) (markdownFiles : list TFile) :
  consistent c ->
  consistent (cache (generateIncrementalEmbeddings settings w c markdownFiles)).
Proof.
  intros H. rewrite generate_processFiles. apply processFiles_consistent, H.
Qed.

(** *** What the next status check says *)

Definition stamped (st : Run) : Prop :=
  forall p, p ∈ attempted st ->
    exists r k, files (cache st) !! p = Some r /\ embeddingGenerated r = now w k.

Lemma processFiles_stamped (l : list TFile) (st : Run) :
  stamped st -> stamped (processFiles settings w l st).
Proof.
  revert l st. apply (processFiles_ind stamped).
  - intros file st embedding H _ _ p Hp. simpl attempted in Hp. simpl cache.
    destruct (decide (file_path file = p)) as [<- | Hne].
    + simpl. rewrite !lookup_alter_eq, lookup_insert_eq. simpl. eauto.
    + apply elem_of_app in Hp as [Hp | Hp].
      * rewrite setEmbeddingGenerated_other, setStatus_other by exact Hne.
        simpl. rewrite lookup_insert_ne by exact Hne. apply H, Hp.
      * apply list_elem_of_singleton in Hp. congruence.
  - intros file st mark H _ p Hp. simpl attempted in Hp. simpl cache.
    destruct (decide (file_path file = p)) as [<- | Hne].
    + destruct mark; simpl; rewrite ?lookup_alter_eq, lookup_insert_eq; simpl; eauto.
    + apply elem_of_app in Hp as [Hp | Hp].
      * destruct mark; rewrite ?setStatus_other, setFile_other by exact Hne;
          apply H, Hp.
      * apply list_elem_of_singleton in Hp. congruence.
Qed.

(** X11.  When the clock is never behind the modification time of a file,
    every file whose path the run handed to the provider is reported
    ['up-to-date'] afterwards and is not among the files the next run would
    update; this holds whether the attempt stored a vector, failed, or
    returned an empty array. *)
Theorem run_attempted_up_to_date (c : EmbeddingCache) (markdownFiles : list TFile) :
  (forall k file, file ∈ markdownFiles -> file_mtime file <= now w k) ->
  forall file,
    file ∈ markdownFiles ->
    file_path file ∈ attempted (generateIncrementalEmbeddings settings w c markdownFiles) ->
    getFileStatus (cache (generateIncrementalEmbeddings settings w c markdownFiles)) file
    = UpToDate
    /\ file ∉ needsUpdate
                (cache (generateIncrementalEmbeddings settings w c markdownFiles))
                markdownFiles.
Proof.
  intros Hclock file Hfile Hattempted.
  assert (Hup : getFileStatus
                  (cache (generateIncrementalEmbeddings settings w c markdownFiles)) file
                = UpToDate).
  { rewrite generate_processFiles in *.
    assert (Hst : stamped (processFiles settings w (needsUpdate c markdownFiles)
                             (startOf c))).
    { apply processFiles_stamped. intros p Hp. inversion Hp. }
    destruct (Hst _ Hattempted) as (r & k & Hr & Hk).
    unfold getFileStatus. rewrite Hr, Hk.
    destruct (Z.ltb_spec (now w k) (file_mtime file)); [|reflexivity].
    specialize (Hclock k file Hfile). lia. }
  split; [exact Hup|].
  unfold needsUpdate. rewrite list_elem_of_In, filter_In, Hup.
  intros [_ H]. discriminate H.
Qed.

(** *** What a successful attempt stores *)

Lemma processFiles_untouched (l : list TFile) (st : Run) (p : string) :
  p ∉ map file_path l ->
  files (cache (processFiles settings w l st)) !! p = files (cache st) !! p
  /\ embeddings (cache (processFiles settings w l st)) !! p
     = embeddings (cache st) !! p.
Proof.
  revert st. induction l as [|file pending IH]; intros st Hp; [split; reflexivity|].
  simpl in Hp. apply not_elem_of_cons in Hp as [Hne Hp].
  assert (Hne' : file_path file <> p) by congruence.
  rewrite processFiles_cons. cbv zeta.
  destruct (attemptOf file) as [embedding|message].
  - destruct (0 <? length embedding)%nat;
      match goal with |- context [processFiles _ _ pending ?st'] =>
        destruct (IH st' Hp) as [-> ->] end; simpl cache.
    + rewrite setEmbeddingGenerated_other, setStatus_other by exact Hne'.
      simpl. rewrite !lookup_insert_ne by exact Hne'. split; reflexivity.
    + rewrite setFile_other by exact Hne'. split; reflexivity.
  - destruct (Text.nonempty message && includes "429" message).
    + simpl cache. rewrite setFile_other by exact Hne'. split; reflexivity.
    + match goal with |- context [processFiles _ _ pending ?st'] =>
        destruct (IH st' Hp) as [-> ->] end; simpl cache.
      rewrite setStatus_other, setFile_other by exact Hne'. split; reflexivity.
Qed.

(** The vector [v] is stored for the file, and its record says
    ['up-to-date'] for the modification time of the file. *)
Definition stored (c : EmbeddingCache) (file : TFile) (v : list float) : Prop :=
  embeddings c !! file_path file = Some v
  /\ exists r, files c !! file_path file = Some r
               /\ status r = UpToDate /\ lastModified r = file_mtime file.

Lemma processFiles_stores (l : list TFile) (st : Run) (file : TFile) (v : list float) :
  NoDup (map file_path l) ->
  file ∈ l ->
  file_path file ∈ attempted (processFiles settings w l st) ->
  file_path file ∉ attempted st ->
  attemptOf file = Ok v -> v <> [] ->
  stored (cache (processFiles settings w l st)) file v.
Proof.
  intros Hnodup Hfile Hatt Hnew Hv Hne. revert st Hatt Hnew.
  induction l as [|first pending IH]; intros st Hatt Hnew; [inversion Hfile|].
  simpl in Hnodup. apply NoDup_cons in Hnodup as [Hfirst Hnodup].
  apply elem_of_cons in Hfile as [Heq | Hfile].
  - subst first. clear IH. rewrite processFiles_cons in *. cbv zeta in *.
    rewrite Hv in *.
    assert (Hlen : (0 <? length v)%nat = true).
    { apply Nat.ltb_lt. destruct v; [congruence | simpl; lia]. }
    rewrite Hlen in *. unfold stored.
    match goal with |- context [processFiles _ _ pending ?st'] =>
      destruct (processFiles_untouched pending st' (file_path file) Hfirst) as [-> ->]
    end.
    simpl cache. split.
    + simpl. apply lookup_insert_eq.
    + simpl. rewrite !lookup_alter_eq, lookup_insert_eq. simpl. eauto.
  - assert (Hpath : file_path first <> file_path file).
    { intros Heq. apply Hfirst. rewrite Heq. apply list_elem_of_fmap. eauto. }
    rewrite processFiles_cons in *. cbv zeta in *.
    destruct (attemptOf first) as [embedding|message].
    + destruct (0 <? length embedding)%nat; apply (IH Hnodup Hfile); try exact Hatt;
        simpl; intros H; apply elem_of_app in H as [H | H]; try contradiction;
        apply list_elem_of_singleton in H; congruence.
    + destruct (Text.nonempty message && includes "429" message).
      * exfalso. simpl in Hatt. apply elem_of_app in Hatt as [H | H]; [contradiction|].
        apply list_elem_of_singleton in H. congruence.
      * apply (IH Hnodup Hfile); try exact Hatt.
        simpl. intros H. apply elem_of_app in H as [H | H]; [contradiction|].
        apply list_elem_of_singleton in H. congruence.
Qed.

Lemma filter_paths_NoDup (f : TFile -> bool) (l : list TFile) :
  NoDup (map file_path l) -> NoDup (map file_path (List.filter f l)).
Proof.
  induction l as [|file l IH]; simpl; intros H; [constructor|].
  apply NoDup_cons in H as [Hout H].
  destruct (f file); simpl; [|apply IH, H].
  apply NoDup_cons. split; [|apply IH, H].
  intros Hin. apply Hout. apply list_elem_of_fmap in Hin as (x & -> & Hx).
  apply list_elem_of_fmap. exists x. split; [reflexivity|].
  apply list_elem_of_In in Hx. apply filter_In in Hx as [Hx _].
  apply list_elem_of_In, Hx.
Qed.

Lemma same_path_same_file (l : list TFile) (x y : TFile) :
  NoDup (map file_path l) -> x ∈ l -> y ∈ l -> file_path x = file_path y -> x = y.
Proof.
  induction l as [|z l IH]; simpl; intros Hnodup Hx Hy Heq; [inversion Hx|].
  apply NoDup_cons in Hnodup as [Hout Hnodup].
  apply elem_of_cons in Hx as [-> | Hx], Hy as [-> | Hy]; auto.
  - exfalso. apply Hout. rewrite Heq. apply list_elem_of_fmap. eauto.
  - exfalso. apply Hout. rewrite <- Heq. apply list_elem_of_fmap. eauto.
Qed.

(** X12.  When the paths of the files are pairwise different: a file that
    the run handed to the provider, and for which the provider returned a
    vector that is not empty, has that vector stored afterwards, and its
    record says ['up-to-date'] with the modification time of the file, also
    when later attempts of the run fail or a quota error stops it. *)
Theorem run_stores_vectors (c : EmbeddingCache) (markdownFiles : list TFile)
    (file : TFile) (v : list float) :
  NoDup (map file_path markdownFiles) ->
  file ∈ markdownFiles ->
  file_path file ∈ attempted (generateIncrementalEmbeddings settings w c markdownFiles) ->
  attemptOf file = Ok v -> v <> [] ->
  stored (cache (generateIncrementalEmbeddings settings w c markdownFiles)) file v.
Proof.
  intros Hnodup Hfile Hatt Hv Hne. rewrite generate_processFiles in *.
  apply processFiles_stores; try assumption.
  - apply filter_paths_NoDup, Hnodup.
  - destruct (processFiles_attempted (needsUpdate c markdownFiles) (startOf c))
      as [n Hn].
    rewrite Hn in Hatt. simpl in Hatt.
    apply list_elem_of_fmap in Hatt as (file' & Hpath & Hfile').
    apply elem_of_take in Hfile' as (i & Hfile' & _).
    apply list_elem_of_lookup_2 in Hfile'.
    assert (Hin' : file' ∈ markdownFiles).
    { unfold needsUpdate in Hfile'. apply list_elem_of_In in Hfile'.
      apply filter_In in Hfile' as [Hx _]. apply list_elem_of_In, Hx. }
    rewrite (same_path_same_file markdownFiles file file' Hnodup Hfile Hin' Hpath).
    exact Hfile'.
  - simpl. intros H. inversion H.
Qed.

End RunFacts.

Section RunExamples.
Import Service.

Lemma run_visits_all_without_quota_witness :
  attempted (generateIncrementalEmbeddings defaultTextSettings sampleWorld emptyCache
               emptyAnswerFiles)
  = map file_path (needsUpdate emptyCache emptyAnswerFiles).
Proof.
  apply (run_visits_all_without_quota defaultTextSettings sampleWorld emptyCache
           emptyAnswerFiles).
  repeat constructor.
Defined.

Lemma run_frame_witness :
  files (cache (generateIncrementalEmbeddings defaultTextSettings sampleWorld emptyCache
                  quotaFiles)) !! "papa1"
  = files emptyCache !! "papa1"
  /\ embeddings (cache (generateIncrementalEmbeddings defaultTextSettings sampleWorld
                          emptyCache quotaFiles)) !! "papa1"
     = embeddings emptyCache !! "papa1".
Proof.
  apply (run_frame defaultTextSettings sampleWorld emptyCache quotaFiles "papa1").
  replace (attempted (generateIncrementalEmbeddings defaultTextSettings sampleWorld
                        emptyCache quotaFiles))
    with ["alpha"; "xray"]%string by (vm_compute; reflexivity).
  intros H. apply elem_of_cons in H as [H | H]; [discriminate H|].
  apply elem_of_cons in H as [H | H]; [discriminate H|]. inversion H.
Defined.

Lemma run_keeps_consistent_witness :
  consistent (cache (generateIncrementalEmbeddings defaultTextSettings sampleWorld
                       emptyCache emptyAnswerFiles)).
Proof.
  apply (run_keeps_consistent defaultTextSettings sampleWorld emptyCache emptyAnswerFiles).
  split.
  - intros p v H. simpl in H. rewrite lookup_empty in H. discriminate H.
  - intros p r H. simpl in H. rewrite lookup_empty in H. discriminate H.
Defined.

Lemma run_attempted_up_to_date_witness :
  getFileStatus
    (cache (generateIncrementalEmbeddings defaultTextSettings sampleWorld emptyCache
              quotaFiles))
    {| file_path := "xray"; file_mtime := 2 |}
  = UpToDate
  /\ {| file_path := "xray"; file_mtime := 2 |}
     ∉ needsUpdate
         (cache (generateIncrementalEmbeddings defaultTextSettings sampleWorld emptyCache
                   quotaFiles))
         quotaFiles.
Proof.
  apply (run_attempted_up_to_date defaultTextSettings sampleWorld emptyCache quotaFiles).
  - intros k file Hfile.
    assert (Hall : Forall (fun f => file_mtime f <= 3) quotaFiles).
    { repeat constructor; simpl; lia. }
    rewrite Forall_forall in Hall. specialize (Hall file Hfile). simpl. lia.
  - right. left.
  - replace (attempted (generateIncrementalEmbeddings defaultTextSettings sampleWorld
                          emptyCache quotaFiles))
      with ["alpha"; "xray"]%string by (vm_compute; reflexivity).
    right. left.
Defined.

Lemma run_stores_vectors_witness :
  stored
    (cache (generateIncrementalEmbeddings defaultTextSettings sampleWorld emptyCache
              quotaFiles))
    {| file_path := "alpha"; file_mtime := 1 |} [1%float; 0%float].
Proof.
  apply (run_stores_vectors defaultTextSettings sampleWorld emptyCache quotaFiles).
  - apply (bool_decide_unpack _). vm_compute. exact I.
  - left.
  - replace (attempted (generateIncrementalEmbeddings defaultTextSettings sampleWorld
                          emptyCache quotaFiles))
      with ["alpha"; "xray"]%string by (vm_compute; reflexivity).
    left.
  - reflexivity.
  - discriminate.
Defined.

End RunExamples.

(** ** The thickness of a link at the threshold *)

Section ThicknessAtThreshold.
Import View.
Local Open Scope float_scope.

(** A number that is neither NaN nor an infinity. *)
Definition finite (x : float) : bool :=
  match Prim2SF x with
  | S754_zero _ | S754_finite _ _ _ => true
  | _ => false
  end.

Lemma SFsub_self (x : spec_float) :
  match x with
  | S754_zero _ | S754_finite _ _ _ => SF64sub x x = S754_zero false
  | _ => True
  end.
Proof.
  destruct x as [[|]|s| |s m e]; try exact I; try reflexivity.
  unfold SF64sub, SFsub. cbv zeta.
  rewrite Z.min_id. unfold shl_align. rewrite Z.sub_diag. simpl fst.
  reflexivity.
Qed.

Lemma SFcompare_refl (x : spec_float) :
  match x with
  | S754_nan => True
  | _ => SFcompare x x = Some Eq
  end.
Proof.
  destruct x as [s|[|]| |[|] m e]; try exact I; try reflexivity; simpl;
    rewrite Z.compare_refl;
    change (Pos.compare_cont Eq m m) with (Pos.compare m m);
    rewrite Pos.compare_refl; reflexivity.
Qed.

(** X13.  For a finite threshold below 1, a finite minimum thickness and a
    finite difference between the maximum and the minimum thickness, a link
    whose similarity is exactly the threshold gets the minimum thickness. *)
Theorem thickness_at_threshold_is_minimum (settings : Settings) :
  finite (similarityThreshold settings) = true ->
  (similarityThreshold settings <? 1) = true ->
  finite (minLinkThickness settings) = true ->
  finite (maxLinkThickness settings - minLinkThickness settings) = true ->
  (calculateThicknessFromSimilarity settings (similarityThreshold settings)
   =? minLinkThickness settings) = true.
Proof.
  unfold calculateThicknessFromSimilarity, finite.
  set (t := similarityThreshold settings).
  set (lo := minLinkThickness settings).
  set (hi := maxLinkThickness settings).
  intros Ht Hbelow Hlo Hrange.
  rewrite <- (float_sub_pos_iff_lt t 1) in Hbelow.
  rewrite FloatAxioms.ltb_spec in Hbelow.
  rewrite FloatAxioms.eqb_spec, FloatAxioms.add_spec, FloatAxioms.mul_spec,
    FloatAxioms.div_spec.
  rewrite (FloatAxioms.sub_spec t t).
  change (Prim2SF 0) with (S754_zero false) in Hbelow.
  assert (Hzero : SF64sub (Prim2SF t) (Prim2SF t) = S754_zero false).
  { pose proof (SFsub_self (Prim2SF t)) as H.
    destruct (Prim2SF t); try discriminate Ht; exact H. }
  rewrite Hzero.
  assert (Hquot : SF64div (S754_zero false) (Prim2SF (1 - t)) = S754_zero false).
  { destruct (Prim2SF (1 - t)) as [s|[|]| |[|] m e]; try discriminate Hbelow;
      reflexivity. }
  rewrite Hquot.
  assert (Hprod : exists s, SF64mul (S754_zero false) (Prim2SF (hi - lo)) = S754_zero s).
  { destruct (Prim2SF (hi - lo)) as [s|s| |s m e]; try discriminate Hrange;
      simpl; eauto. }
  destruct Hprod as [s ->].
  pose proof (SFcompare_refl (Prim2SF lo)) as Hrefl.
  unfold SFeqb.
  destruct (Prim2SF lo) as [s'|s'| |s' m e]; try discriminate Hlo.
  - destruct s', s; reflexivity.
  - change (SF64add (S754_finite s' m e) (S754_zero s)) with (S754_finite s' m e).
    rewrite Hrefl. reflexivity.
Qed.

Lemma thickness_at_threshold_is_minimum_witness :
  (calculateThicknessFromSimilarity defaultLinkSettings
     (similarityThreshold defaultLinkSettings)
   =? minLinkThickness defaultLinkSettings) = true.
Proof.
  apply (thickness_at_threshold_is_minimum defaultLinkSettings); reflexivity.
Defined.

End ThicknessAtThreshold.

(** ** When the link construction throws *)

Section LinkErrors.
Import Service View.

(** A pair the sweep compares, with vectors of different lengths. *)
Definition mismatchAfter (manual : gset string) (nodeA : GraphNode)
    (embeddingA : list float) (later : list GraphNode) : Prop :=
  exists nodeB embeddingB,
    nodeB ∈ later /\ embedding nodeB = Some embeddingB
    /\ (pairString (node_id nodeA) (node_id nodeB) ∉ manual)
    /\ length embeddingA <> length embeddingB.

Definition mismatch (manual : gset string) (nodesArray : list GraphNode) : Prop :=
  exists before nodeA later embeddingA,
    nodesArray = before ++ nodeA :: later
    /\ embedding nodeA = Some embeddingA
    /\ mismatchAfter manual nodeA embeddingA later.

Lemma mismatchAfter_cons (manual : gset string) (nodeA : GraphNode)
    (embeddingA : list float) (nodeB : GraphNode) (later : list GraphNode) :
  mismatchAfter manual nodeA embeddingA (nodeB :: later)
  <-> (exists embeddingB,
         embedding nodeB = Some embeddingB
         /\ (pairString (node_id nodeA) (node_id nodeB) ∉ manual)
         /\ length embeddingA <> length embeddingB)
      \/ mismatchAfter manual nodeA embeddingA later.
Proof.
  unfold mismatchAfter. split.
  - intros (B & eB & HB & Hrest). apply elem_of_cons in HB as [-> | HB]; eauto.
  - intros [(eB & Hrest) | (B & eB & HB & Hrest)].
    + exists nodeB, eB. split; [left | exact Hrest].
    + exists B, eB. split; [right; exact HB | exact Hrest].
Qed.

Lemma collectFrom_throws (settings : Settings) (manual : gset string)
    (nodeA : GraphNode) (embeddingA : list float) (later : list GraphNode)
    (m : CandidateMap) :
  (exists message, collectFrom settings manual nodeA embeddingA later m = Throw message)
  <-> mismatchAfter manual nodeA embeddingA later.
Proof.
  revert m. induction later as [|nodeB later IH]; intros m.
  - simpl. split; [intros [message H]; discriminate H|].
    intros (B & eB & HB & _). inversion HB.
  - rewrite mismatchAfter_cons. simpl.
    destruct (embedding nodeB) as [embeddingB|] eqn:HeB.
    + destruct (decide _) as [Hin | Hout].
      * rewrite IH. split; [tauto|].
        intros [(eB & Heq & Hno & _) | H]; [|exact H].
        injection Heq as <-. contradiction.
      * destruct (calculateCosineSimilarity embeddingA embeddingB) as [s|message] eqn:Hs;
          simpl.
        -- assert (Hlen : length embeddingA = length embeddingB).
           { destruct (Nat.eq_dec (length embeddingA) (length embeddingB)) as [H | H];
               [exact H|].
             apply cosine_throws_iff in H as [message H]. congruence. }
           destruct (similarityThreshold settings <=? s)%float; rewrite IH;
             (split; [tauto|]);
             (intros [(eB & Heq & _ & Hne) | H]; [|exact H]);
             injection Heq as <-; contradiction.
        -- split; [|eauto]. intros _. left. exists embeddingB.
           split; [reflexivity|]. split; [exact Hout|].
           apply cosine_throws_iff. eauto.
    + rewrite IH. split; [tauto|].
      intros [(eB & Heq & _) | H]; [discriminate Heq | exact H].
Qed.

Lemma mismatch_cons (manual : gset string) (nodeA : GraphNode)
    (later : list GraphNode) :
  mismatch manual (nodeA :: later)
  <-> (exists embeddingA,
         embedding nodeA = Some embeddingA
         /\ mismatchAfter manual nodeA embeddingA later)
      \/ mismatch manual later.
Proof.
  unfold mismatch. split.
  - intros (before & A & rest & eA & Heq & HeA & Hmis).
    destruct before as [|first before]; simpl in Heq; injection Heq as -> ->.
    + left. eauto.
    + right. exists before, A, rest, eA. auto.
  - intros [(eA & HeA & Hmis) | (before & A & rest & eA & -> & HeA & Hmis)].
    + exists [], nodeA, later, eA. auto.
    + exists (nodeA :: before), A, rest, eA. auto.
Qed.

Lemma collectCandidates_throws (settings : Settings) (manual : gset string)
    (nodesArray : list GraphNode) (m : CandidateMap) :
  (exists message, collectCandidates settings manual nodesArray m = Throw message)
  <-> mismatch manual nodesArray.
Proof.
  revert m. induction nodesArray as [|nodeA later IH]; intros m.
  - simpl. split; [intros [message H]; discriminate H|].
    intros (before & A & rest & eA & Heq & _). destruct before; discriminate Heq.
  - rewrite mismatch_cons. simpl.
    destruct (embedding nodeA) as [embeddingA|] eqn:HeA.
    + destruct (collectFrom settings manual nodeA embeddingA later m) as [m1|message] eqn:H1;
        simpl.
      * rewrite IH. split; [tauto|].
        intros [(eA & Heq & Hmis) | H]; [|exact H].
        injection Heq as <-.
        apply (collectFrom_throws settings manual nodeA embeddingA later m) in Hmis
          as [message Hmis].
        congruence.
      * split; [|eauto]. intros _. left. exists embeddingA.
        split; [reflexivity|].
        apply (collectFrom_throws settings manual nodeA embeddingA later m). eauto.
    + rewrite IH. split; [tauto|].
      intros [(eA & Heq & _) | H]; [discriminate Heq | exact H].
Qed.

(** X14.  The call throws, and pushes no link at all, exactly when the
    node array holds two nodes that both have a vector, that no manual link
    joins (earlier node first), and whose vectors have different lengths. *)
Theorem createEmbeddingBasedLinks_throws_iff (settings : Settings)
    (links : list GraphLink) (nodesArray : list GraphNode) :
  (exists message, createEmbeddingBasedLinks settings links nodesArray = Throw message)
  <-> exists before nodeA later nodeB embeddingA embeddingB,
        nodesArray = before ++ nodeA :: later /\ nodeB ∈ later
        /\ embedding nodeA = Some embeddingA /\ embedding nodeB = Some embeddingB
        /\ (pairString (node_id nodeA) (node_id nodeB) ∉ manualLinkPairs links)
        /\ length embeddingA <> length embeddingB.
Proof.
  transitivity (mismatch (manualLinkPairs links) nodesArray).
  - rewrite <- (collectCandidates_throws settings (manualLinkPairs links) nodesArray []).
    unfold createEmbeddingBasedLinks, similarityLinks.
    destruct (collectCandidates settings (manualLinkPairs links) nodesArray [])
      as [m|message]; simpl.
    + split; intros [message H]; discriminate H.
    + split; intros _; eauto.
  - unfold mismatch, mismatchAfter. split.
    + intros (before & A & later & eA & Heq & HeA & B & eB & HB & HeB & Hno & Hlen).
      exists before, A, later, B, eA, eB. repeat split; assumption.
    + intros (before & A & later & B & eA & eB & Heq & HB & HeA & HeB & Hno & Hlen).
      exists before, A, later, eA. split; [exact Heq|]. split; [exact HeA|].
      exists B, eB. repeat split; assumption.
Qed.

End LinkErrors.

(** ** The node map *)

Section NodeMapFacts.
Import Service View ViewGraph.

Lemma nodeMap_has_keys (m : list (string * GraphNode)) (k : string) :
  nodeMap_has m k = true <-> k ∈ map fst m.
Proof.
  unfold nodeMap_has. induction m as [|[k' v'] m IH]; simpl.
  - split; [discriminate | intros H; inversion H].
  - rewrite orb_true_iff, IH, elem_of_cons, String.eqb_eq. split; intros [H | H]; auto.
Qed.

Lemma nodeMap_set_keys (m : list (string * GraphNode)) (k : string) (v : GraphNode) :
  map fst (nodeMap_set m k v)
  = if decide (k ∈ map fst m) then map fst m else map fst m ++ [k].
Proof.
  induction m as [|[k' v'] m IH]; simpl.
  - destruct (decide (k ∈ [])) as [H | _]; [inversion H | reflexivity].
  - destruct (String.eqb_spec k' k) as [-> | Hne]; simpl.
    + destruct (decide (k ∈ k :: map fst m)) as [_ | H]; [reflexivity|].
      exfalso. apply H. left.
    + rewrite IH.
      destruct (decide (k ∈ map fst m)) as [Hin | Hout];
        destruct (decide (k ∈ k' :: map fst m)) as [Hin' | Hout']; try reflexivity.
      * exfalso. apply Hout'. right. exact Hin.
      * exfalso. apply elem_of_cons in Hin' as [-> | Hin']; [congruence | auto].
Qed.

(** Keys are pairwise different and every node sits under its own id with
    the vector stored for it. *)
Definition wellKeyed (get : string -> option (list float))
    (m : list (string * GraphNode)) : Prop :=
  NoDup (map fst m)
  /\ Forall (fun entry => node_id (snd entry) = fst entry
                          /\ embedding (snd entry) = get (fst entry)) m.

Lemma nodeMap_set_wellKeyed (get : string -> option (list float))
    (m : list (string * GraphNode)) (k : string) :
  wellKeyed get m ->
  wellKeyed get (nodeMap_set m k {| node_id := k; embedding := get k |}).
Proof.
  intros [Hnodup Hall]. split.
  - rewrite nodeMap_set_keys. destruct (decide (k ∈ map fst m)); [exact Hnodup|].
    apply NoDup_app. split; [exact Hnodup|]. split; [|apply NoDup_singleton].
    intros x Hx Hk. apply list_elem_of_singleton in Hk. congruence.
  - clear Hnodup. induction Hall as [|[k' v'] m Hv Hm IH]; simpl.
    + repeat constructor.
    + destruct (String.eqb_spec k' k) as [-> | Hne]; constructor; auto.
Qed.

Lemma fold_nodeMap_set (get : string -> option (list float)) (files : list TFile)
    (m : list (string * GraphNode)) :
  wellKeyed get m ->
  wellKeyed get
    (fold_left
       (fun nodeMap file =>
          nodeMap_set nodeMap (file_path file)
            {| node_id := file_path file; embedding := get (file_path file) |})
       files m)
  /\ forall p,
       p ∈ map fst
             (fold_left
                (fun nodeMap file =>
                   nodeMap_set nodeMap (file_path file)
                     {| node_id := file_path file; embedding := get (file_path file) |})
                files m)
       <-> p ∈ map fst m \/ p ∈ map file_path files.
Proof.
  revert m. induction files as [|file files IH]; intros m Hm; simpl.
  - split; [exact Hm|]. intros p. split; [auto|]. intros [H | H]; [exact H | inversion H].
  - destruct (IH _ (nodeMap_set_wellKeyed get m (file_path file) Hm)) as [Hw Hkeys].
    split; [exact Hw|]. intros p. rewrite Hkeys, nodeMap_set_keys.
    destruct (decide (file_path file ∈ map fst m)) as [Hin | Hout].
    + rewrite elem_of_cons. split; [tauto|].
      intros [H | [-> | H]]; auto.
    + rewrite elem_of_app, list_elem_of_singleton, elem_of_cons. tauto.
Qed.

Lemma values_ids (get : string -> option (list float)) (m : list (string * GraphNode)) :
  wellKeyed get m -> map node_id (nodeMap_values m) = map fst m.
Proof.
  intros [_ Hall]. unfold nodeMap_values.
  induction Hall as [|[k v] m [Hv _] Hm IH]; simpl; [reflexivity|].
  simpl in Hv. rewrite Hv, IH. reflexivity.
Qed.

Lemma fileNodeMap_wellKeyed (get : string -> option (list float)) (files : list TFile) :
  wellKeyed get (fileNodeMap get files)
  /\ forall p, p ∈ map fst (fileNodeMap get files) <-> p ∈ map file_path files.
Proof.
  assert (Hempty : wellKeyed get []) by (split; constructor).
  destruct (fold_nodeMap_set get files [] Hempty) as [Hw Hkeys].
  fold (fileNodeMap get files) in Hw, Hkeys.
  split; [exact Hw|].
  intros p. rewrite Hkeys. split; [|auto]. intros [H | H]; [inversion H | exact H].
Qed.

(** X15.  The node map that [loadGraphData] builds holds exactly one node
    for every path among the files, however often a path occurs: the ids of
    its nodes are pairwise different, they are the paths of the files, and
    each node carries the vector stored for its path. *)
Theorem fileNodeMap_one_node_per_path (get : string -> option (list float))
    (files : list TFile) :
  NoDup (map node_id (nodeMap_values (fileNodeMap get files)))
  /\ (forall p, p ∈ map node_id (nodeMap_values (fileNodeMap get files))
                <-> p ∈ map file_path files)
  /\ (forall node, node ∈ nodeMap_values (fileNodeMap get files) ->
                   embedding node = get (node_id node)).
Proof.
  destruct (fileNodeMap_wellKeyed get files) as [Hw Hkeys].
  rewrite (values_ids get _ Hw). split; [apply Hw|]. split.
  - exact Hkeys.
  - intros node Hnode. destruct Hw as [_ Hall]. unfold nodeMap_values in Hnode.
    apply list_elem_of_fmap in Hnode as ([k v] & -> & Hentry).
    rewrite Forall_forall in Hall. destruct (Hall _ Hentry) as [Hid Hemb].
    simpl in *. rewrite Hid. exact Hemb.
Qed.

End NodeMapFacts.

(** ** Manual links *)

Section ManualLinkFacts.
Import Service View ViewGraph.
Context (meta : Metadata) (nodeMap : list (string * GraphNode)).

(** A link that [createTraditionalLinks] pushes: a manual link from one of
    the files to a key of the node map. *)
Definition manualBetween (files : list TFile) (link : GraphLink) : Prop :=
  source link ∈ map file_path files
  /\ target link ∈ map fst nodeMap
  /\ link_type link = Some ManualLink
  /\ link_id link = source link +:+ "->" +:+ target link.

Lemma traditionalLinksOf_between (thickness : float) (files : list TFile) (file : TFile)
    (links : list GraphLink) :
  file ∈ files ->
  exists pushed,
    traditionalLinksOf thickness meta nodeMap file links = links ++ pushed
    /\ Forall (manualBetween files) pushed.
Proof.
  intros Hfile. unfold traditionalLinksOf.
  destruct (linksOf meta file) as [texts|];
    [|exists []; rewrite app_nil_r; split; [reflexivity | constructor]].
  revert links. induction texts as [|text texts IH]; intros links; simpl.
  - exists []. rewrite app_nil_r. split; [reflexivity | constructor].
  - destruct (getFirstLinkpathDest meta text (file_path file)) as [targetPath|];
      [|apply IH].
    destruct (nodeMap_has nodeMap targetPath) eqn:Hhas; [|apply IH].
    destruct (IH (links ++ [ {| source := file_path file; target := targetPath;
                                link_id := file_path file +:+ "->" +:+ targetPath;
                                similarity := None; thickness := Some thickness;
                                link_type := Some ManualLink |} ])) as (pushed & -> & Hp).
    eexists. rewrite <- app_assoc. split; [reflexivity|].
    constructor; [|exact Hp]. repeat split; simpl.
    + apply list_elem_of_fmap. exists file. split; [reflexivity | exact Hfile].
    + apply nodeMap_has_keys, Hhas.
Qed.

Lemma createTraditionalLinks_between (thickness : float) (all files : list TFile)
    (links : list GraphLink) :
  (forall file, file ∈ files -> file ∈ all) ->
  exists pushed,
    createTraditionalLinks thickness meta files nodeMap links = links ++ pushed
    /\ Forall (manualBetween all) pushed.
Proof.
  unfold createTraditionalLinks. revert links.
  induction files as [|file files IH]; intros links Hsub; simpl.
  - exists []. rewrite app_nil_r. split; [reflexivity | constructor].
  - destruct (traditionalLinksOf_between thickness all file links) as (p1 & -> & H1).
    { apply Hsub. left. }
    destruct (IH (links ++ p1)) as (p2 & -> & H2).
    { intros f Hf. apply Hsub. right. exact Hf. }
    exists (p1 ++ p2). rewrite app_assoc. split; [reflexivity|].
    apply Forall_app. split; assumption.
Qed.

End ManualLinkFacts.

Section ManualLinkTheorems.
Import Service View ViewGraph.

(** X16.  [createTraditionalLinks] keeps the links that were there and
    pushes manual links only; for the node map built from the same files,
    both ends of every link pushed are ids of nodes of the graph, so no
    manual link points at a file the graph does not show. *)
Theorem createTraditionalLinks_no_dangling (thickness : float) (meta : Metadata)
    (get : string -> option (list float)) (files : list TFile) (links : list GraphLink) :
  exists pushed,
    createTraditionalLinks thickness meta files (fileNodeMap get files) links
    = links ++ pushed
    /\ forall link, link ∈ pushed ->
         source link ∈ map node_id (nodeMap_values (fileNodeMap get files))
         /\ target link ∈ map node_id (nodeMap_values (fileNodeMap get files))
         /\ link_type link = Some ManualLink.
Proof.
  destruct (createTraditionalLinks_between meta (fileNodeMap get files) thickness
              files files links) as (pushed & Heq & Hall); [auto|].
  exists pushed. split; [exact Heq|].
  intros link Hlink. rewrite Forall_forall in Hall.
  destruct (Hall _ Hlink) as (Hs & Ht & Hty & _).
  destruct (fileNodeMap_wellKeyed get files) as [Hw Hkeys].
  rewrite (values_ids get _ Hw).
  split; [apply Hkeys, Hs|]. split; [exact Ht | exact Hty].
Qed.

(** The invariant of the modal's loops: the ids of the links pushed are
    pairwise different and all in [linkSet]. *)
Definition idsRecorded (old : list GraphLink) (state : gset string * list GraphLink)
    : Prop :=
  exists pushed,
    snd state = old ++ pushed
    /\ NoDup (map link_id pushed)
    /\ forall link, link ∈ pushed -> link_id link ∈ fst state.

Lemma modalLinksOf_ids (meta : Metadata) (nodeMap : list (string * GraphNode))
    (old : list GraphLink) (file : TFile) (state : gset string * list GraphLink) :
  idsRecorded old state -> idsRecorded old (modalLinksOf meta nodeMap file state).
Proof.
  unfold modalLinksOf. destruct (linksOf meta file) as [texts|]; [|auto].
  revert state. induction texts as [|text texts IH]; intros state Hst; simpl;
    [exact Hst|].
  apply IH.
  destruct (getFirstLinkpathDest meta text (file_path file)) as [targetPath|];
    [|exact Hst].
  destruct (nodeMap_has nodeMap targetPath); [|exact Hst].
  destruct (decide _) as [Hin | Hout]; [exact Hst|].
  destruct Hst as (pushed & Heq & Hnodup & Hrec).
  eexists (pushed ++ [_]). simpl. split; [rewrite Heq, app_assoc; reflexivity|]. split.
  - rewrite map_app. simpl. apply NoDup_app. split; [exact Hnodup|].
    split; [|apply NoDup_singleton].
    intros id Hid Hnew. apply list_elem_of_singleton in Hnew. subst id.
    apply list_elem_of_fmap in Hid as (link & Hid & Hlink).
    apply Hout. rewrite Hid. apply Hrec, Hlink.
  - intros link Hlink. apply elem_of_app in Hlink as [Hlink | Hlink].
    + apply elem_of_union_l, Hrec, Hlink.
    + apply list_elem_of_singleton in Hlink. subst link.
      apply elem_of_union_r, elem_of_singleton. reflexivity.
Qed.

(** X17.  The modal's [buildGraphData] keeps the links that were there, and
    among the links it pushes no two have the same id: a file that links to
    the same note several times contributes one link. *)
Theorem buildGraphData_unique_ids (meta : Metadata) (files : list TFile)
    (links : list GraphLink) :
  exists pushed,
    buildGraphData meta files links = links ++ pushed
    /\ NoDup (map link_id pushed).
Proof.
  unfold buildGraphData.
  assert (H : forall l state,
            idsRecorded links state ->
            idsRecorded links
              (fold_left
                 (fun state file =>
                    modalLinksOf meta (fileNodeMap (fun _ => None) files) file state)
                 l state)).
  { induction l as [|file l IH]; intros state Hst; simpl; [exact Hst|].
    apply IH, modalLinksOf_ids, Hst. }
  destruct (H files (∅, links)) as (pushed & Heq & Hnodup & _).
  { exists []. simpl. rewrite app_nil_r. split; [reflexivity|].
    split; [constructor|]. intros link Hl. inversion Hl. }
  exists pushed. split; assumption.
Qed.

End ManualLinkTheorems.

(** ** More on similarity links *)

Section CandidatePairs.
Import Service View.
Local Open Scope float_scope.

(** Every candidate of every node of the map satisfies [P]. *)
Definition pairsSatisfy (P : string -> Candidate -> Prop) (m : CandidateMap) : Prop :=
  Forall (fun entry => Forall (P (fst entry)) (snd entry)) m.

Lemma map_init_pairs (P : string -> Candidate -> Prop) (m : CandidateMap) (k : string) :
  pairsSatisfy P m -> pairsSatisfy P (map_init m k).
Proof.
  unfold map_init, pairsSatisfy. intros H.
  destruct (map_has m k); [assumption|].
  apply Forall_app. split; [assumption|]. constructor; constructor.
Qed.

Lemma map_push_pairs (P : string -> Candidate -> Prop) (m : CandidateMap)
    (k : string) (c : Candidate) :
  pairsSatisfy P m -> P k c -> pairsSatisfy P (map_push m k c).
Proof.
  unfold pairsSatisfy. intros H Hc.
  induction H as [|[k' cs] m Hcs Hm IH]; simpl; [constructor|].
  destruct (String.eqb_spec k' k) as [-> | Hne]; constructor; simpl in *;
    try assumption.
  apply Forall_app. split; [assumption|]. constructor; [assumption | constructor].
Qed.

(** The sweep keeps [P] when [P] holds for both entries of every pair it
    stores: a node [nodeA], a later node [nodeB], both with a vector, not
    joined by a manual link, with a similarity at or above the threshold. *)
Lemma collectFrom_pairs (P : string -> Candidate -> Prop) (settings : Settings)
    (manual : gset string) (nodeA : GraphNode) (embeddingA : list float)
    (later : list GraphNode) (m m' : CandidateMap) :
  (forall nodeB embeddingB s,
      nodeB ∈ later -> embedding nodeB = Some embeddingB ->
      pairString (node_id nodeA) (node_id nodeB) ∉ manual ->
      calculateCosineSimilarity embeddingA embeddingB = Ok s ->
      (similarityThreshold settings <=? s) = true ->
      P (node_id nodeA) {| otherId := node_id nodeB; sim := s |}
      /\ P (node_id nodeB) {| otherId := node_id nodeA; sim := s |}) ->
  pairsSatisfy P m ->
  collectFrom settings manual nodeA embeddingA later m = Ok m' ->
  pairsSatisfy P m'.
Proof.
  revert m. induction later as [|nodeB later IH]; simpl; intros m Hstep Hm H.
  - injection H as <-. assumption.
  - assert (Hstep' : forall nodeB embeddingB s,
              nodeB ∈ later -> embedding nodeB = Some embeddingB ->
              pairString (node_id nodeA) (node_id nodeB) ∉ manual ->
              calculateCosineSimilarity embeddingA embeddingB = Ok s ->
              (similarityThreshold settings <=? s) = true ->
              P (node_id nodeA) {| otherId := node_id nodeB; sim := s |}
              /\ P (node_id nodeB) {| otherId := node_id nodeA; sim := s |}).
    { intros B eB s HB. apply Hstep. right. exact HB. }
    destruct (embedding nodeB) as [embeddingB|] eqn:HeB; [|eauto].
    destruct (decide _) as [Hin | Hout]; [eauto|].
    destruct (calculateCosineSimilarity embeddingA embeddingB) as [s|message] eqn:Hs;
      simpl in H; [|discriminate].
    destruct (similarityThreshold settings <=? s) eqn:Hts; [|eauto].
    destruct (Hstep nodeB embeddingB s) as [HA HB]; try assumption; [left|].
    eapply IH; [exact Hstep'| |exact H].
    apply map_push_pairs; [apply map_push_pairs|]; try assumption.
    repeat apply map_init_pairs. assumption.
Qed.

Lemma collectCandidates_pairs (P : string -> Candidate -> Prop) (settings : Settings)
    (manual : gset string) (nodesArray : list GraphNode) (m m' : CandidateMap) :
  (forall before nodeA later nodeB embeddingA embeddingB s,
      nodesArray = before ++ nodeA :: later ->
      nodeB ∈ later ->
      embedding nodeA = Some embeddingA -> embedding nodeB = Some embeddingB ->
      pairString (node_id nodeA) (node_id nodeB) ∉ manual ->
      calculateCosineSimilarity embeddingA embeddingB = Ok s ->
      (similarityThreshold settings <=? s) = true ->
      P (node_id nodeA) {| otherId := node_id nodeB; sim := s |}
      /\ P (node_id nodeB) {| otherId := node_id nodeA; sim := s |}) ->
  pairsSatisfy P m ->
  collectCandidates settings manual nodesArray m = Ok m' ->
  pairsSatisfy P m'.
Proof.
  revert m. induction nodesArray as [|nodeA later IH]; simpl; intros m Hstep Hm H.
  - injection H as <-. assumption.
  - assert (Hstep' : forall before nodeA0 later0 nodeB embeddingA embeddingB s,
              later = before ++ nodeA0 :: later0 ->
              nodeB ∈ later0 ->
              embedding nodeA0 = Some embeddingA -> embedding nodeB = Some embeddingB ->
              pairString (node_id nodeA0) (node_id nodeB) ∉ manual ->
              calculateCosineSimilarity embeddingA embeddingB = Ok s ->
              (similarityThreshold settings <=? s) = true ->
              P (node_id nodeA0) {| otherId := node_id nodeB; sim := s |}
              /\ P (node_id nodeB) {| otherId := node_id nodeA0; sim := s |}).
    { intros before A0 later0 B eA eB s Heq. apply (Hstep (nodeA :: before)).
      rewrite Heq. reflexivity. }
    destruct (embedding nodeA) as [embeddingA|] eqn:HeA; [|eauto].
    destruct (collectFrom settings manual nodeA embeddingA later m) as [m1|message] eqn:H1;
      simpl in H; [|discriminate].
    eapply IH; [exact Hstep'| |exact H].
    eapply (collectFrom_pairs P); [|exact Hm|exact H1].
    intros B eB s HB HeB. apply (Hstep [] nodeA later B embeddingA eB s); auto.
Qed.

(** A link pushed for a candidate that satisfies [P]. *)
Definition linkOf (P : string -> Candidate -> Prop) (link : GraphLink) : Prop :=
  exists c, P (source link) c /\ target link = otherId c
            /\ similarity link = Some (sim c)
            /\ link_type link = None.

Lemma addLinks_pairs (P : string -> Candidate -> Prop) (settings : Settings)
    (nodeId : string) (filtered : list Candidate) (state : gset string * list GraphLink) :
  Forall (P nodeId) filtered ->
  Forall (linkOf P) (snd state) ->
  Forall (linkOf P) (snd (addLinks settings nodeId filtered state)).
Proof.
  intros Hf. revert state.
  induction Hf as [|c filtered Hc Hf IH]; intros [addedPairs links] Hl; simpl;
    [assumption|].
  destruct (decide _); apply IH; simpl in *; [assumption|].
  apply Forall_app. split; [assumption|].
  constructor; [|constructor]. exists c. simpl. auto.
Qed.

Lemma forEachNode_pairs (P : string -> Candidate -> Prop) (settings : Settings)
    (m : CandidateMap) (state : gset string * list GraphLink) :
  pairsSatisfy P m ->
  Forall (linkOf P) (snd state) ->
  Forall (linkOf P) (snd (forEachNode settings m state)).
Proof.
  intros Hm. revert state.
  induction Hm as [|[nodeId candidates] m Hc Hm IH]; intros state Hl; simpl;
    [assumption|].
  destruct candidates as [|c candidates]; [apply IH; assumption|].
  apply IH, addLinks_pairs; [|assumption].
  apply pruneCandidates_Forall. exact Hc.
Qed.

(** Every link pushed comes from a candidate that satisfies [P]. *)
Lemma pushed_links_pairs (P : string -> Candidate -> Prop) (settings : Settings)
    (links : list GraphLink) (nodesArray : list GraphNode) (after : list GraphLink) :
  (forall before nodeA later nodeB embeddingA embeddingB s,
      nodesArray = before ++ nodeA :: later ->
      nodeB ∈ later ->
      embedding nodeA = Some embeddingA -> embedding nodeB = Some embeddingB ->
      pairString (node_id nodeA) (node_id nodeB) ∉ manualLinkPairs links ->
      calculateCosineSimilarity embeddingA embeddingB = Ok s ->
      (similarityThreshold settings <=? s) = true ->
      P (node_id nodeA) {| otherId := node_id nodeB; sim := s |}
      /\ P (node_id nodeB) {| otherId := node_id nodeA; sim := s |}) ->
  createEmbeddingBasedLinks settings links nodesArray = Ok after ->
  exists pushed, after = links ++ pushed /\ Forall (linkOf P) pushed.
Proof.
  intros Hstep H. unfold createEmbeddingBasedLinks, similarityLinks in H.
  destruct (collectCandidates settings (manualLinkPairs links) nodesArray [])
    as [m|message] eqn:Hm; simpl in H; [|discriminate].
  injection H as <-.
  exists (snd (forEachNode settings m (∅, []))). split; [reflexivity|].
  apply forEachNode_pairs; [|constructor].
  eapply (collectCandidates_pairs P); [exact Hstep| |exact Hm]. constructor.
Qed.

(** *** Pairs that are linked by hand *)

Definition addManual (pairs : gset string) (link : GraphLink) : gset string :=
  match link_type link with
  | Some ManualLink =>
      pairs ∪ {[ pairString (source link) (target link) ]}
            ∪ {[ pairString (target link) (source link) ]}
  | _ => pairs
  end.

Lemma addManual_mono (links : list GraphLink) (acc : gset string) (key : string) :
  key ∈ acc -> key ∈ fold_left addManual links acc.
Proof.
  revert acc. induction links as [|l links IH]; intros acc Hkey; simpl;
    [assumption|].
  apply IH. unfold addManual. destruct (link_type l) as [[|]|]; set_solver.
Qed.

Lemma addManual_both (links : list GraphLink) (acc : gset string) (link : GraphLink) :
  link ∈ links -> link_type link = Some ManualLink ->
  pairString (source link) (target link) ∈ fold_left addManual links acc
  /\ pairString (target link) (source link) ∈ fold_left addManual links acc.
Proof.
  revert acc. induction links as [|l links IH]; intros acc Hlink Hty.
  - inversion Hlink.
  - simpl. apply elem_of_cons in Hlink as [Heq | Hlink]; [|auto].
    subst l. split; apply addManual_mono; unfold addManual; rewrite Hty;
      rewrite !elem_of_union, !elem_of_singleton; auto.
Qed.

Lemma manualLinkPairs_both (links : list GraphLink) (link : GraphLink) :
  link ∈ links -> link_type link = Some ManualLink ->
  pairString (source link) (target link) ∈ manualLinkPairs links
  /\ pairString (target link) (source link) ∈ manualLinkPairs links.
Proof. apply addManual_both. Qed.

(** X18.  When the call returns, no link it pushes joins two ids that a
    manual link of [this.links] joins, in either direction; the links it
    pushes are not manual links themselves. *)
Theorem no_similarity_link_beside_manual (settings : Settings) (links : list GraphLink)
    (nodesArray : list GraphNode) (after : list GraphLink) :
  createEmbeddingBasedLinks settings links nodesArray = Ok after ->
  exists pushed,
    after = links ++ pushed
    /\ forall link manualLink,
         link ∈ pushed -> manualLink ∈ links ->
         link_type manualLink = Some ManualLink ->
         link_type link = None /\ ~ sameEndpoints link manualLink.
Proof.
  intros H.
  destruct (pushed_links_pairs
              (fun k c => (pairString k (otherId c) ∉ manualLinkPairs links)
                          \/ (pairString (otherId c) k ∉ manualLinkPairs links))
              settings links nodesArray after) as (pushed & Heq & Hall);
    [|exact H|].
  { intros before A later B eA eB s _ _ _ _ Hout _ _. simpl. auto. }
  exists pushed. split; [exact Heq|].
  intros link manualLink Hlink Hmanual Hty.
  rewrite Forall_forall in Hall.
  destruct (Hall _ Hlink) as (c & Hc & Htarget & _ & Hnone).
  split; [exact Hnone|].
  destruct (manualLinkPairs_both links manualLink Hmanual Hty) as [Hst Hts].
  rewrite <- Htarget in Hc.
  intros [[Hs Ht] | [Hs Ht]]; rewrite Hs, Ht in Hc; tauto.
Qed.

(** *** No link from a node to itself *)

(** X19.  When the ids of the nodes are pairwise different (as they are in
    a node map) and the call returns, no link it pushes joins a node with
    itself. *)
Theorem no_self_links (settings : Settings) (links : list GraphLink)
    (nodesArray : list GraphNode) (after : list GraphLink) :
  NoDup (map node_id nodesArray) ->
  createEmbeddingBasedLinks settings links nodesArray = Ok after ->
  exists pushed,
    after = links ++ pushed
    /\ forall link, link ∈ pushed -> source link <> target link.
Proof.
  intros Hnodup H.
  destruct (pushed_links_pairs (fun k c => k <> otherId c)
              settings links nodesArray after) as (pushed & Heq & Hall);
    [|exact H|].
  { intros before A later B eA eB s Hnodes HB _ _ _ _ _. simpl.
    rewrite Hnodes, map_app in Hnodup. simpl in Hnodup.
    apply NoDup_app in Hnodup as (_ & _ & Hnd).
    apply NoDup_cons in Hnd as [Hout _].
    assert (Hne : node_id A <> node_id B).
    { intros Heq. apply Hout. rewrite Heq. apply list_elem_of_fmap. eauto. }
    split; congruence. }
  exists pushed. split; [exact Heq|].
  intros link Hlink. rewrite Forall_forall in Hall.
  destruct (Hall _ Hlink) as (c & Hc & Htarget & _). congruence.
Qed.

End CandidatePairs.

(** *** At most [maxSimilarLinksPerNode] links start at a node *)

Section LinkCap.
Import Service View.

(** The number of links that start at node [k]. *)
Definition outDegree (k : string) (links : list GraphLink) : nat :=
  length (List.filter (fun link => String.eqb (source link) k) links).

Lemma outDegree_app (k : string) (l1 l2 : list GraphLink) :
  outDegree k (l1 ++ l2) = (outDegree k l1 + outDegree k l2)%nat.
Proof. unfold outDegree. rewrite List.filter_app, length_app. reflexivity. Qed.

Lemma pruneCandidates_length (settings : Settings) (candidates : list Candidate) :
  (0 < maxLinks settings)%Z ->
  (Z.of_nat (length (pruneCandidates settings candidates)) <= maxLinks settings)%Z.
Proof.
  intros Hcap. unfold pruneCandidates.
  rewrite truncate_slice by lia. unfold truncate.
  destruct (Z.eqb_spec (maxLinks settings) 0); [lia|].
  rewrite length_take. lia.
Qed.

(** What one node adds starts at that node, and is no more than what it
    kept. *)
Lemma addLinks_outDegree (settings : Settings) (k nodeId : string)
    (filtered : list Candidate) (state : gset string * list GraphLink) :
  (outDegree k (snd (addLinks settings nodeId filtered state))
   <= outDegree k (snd state)
      + (if String.eqb nodeId k then length filtered else 0))%nat.
Proof.
  revert state. induction filtered as [|c filtered IH]; intros [addedPairs links];
    simpl; [lia|].
  destruct (decide _).
  - specialize (IH (addedPairs, links)). simpl in IH.
    destruct (String.eqb nodeId k); lia.
  - etransitivity; [apply IH|]. simpl. rewrite outDegree_app.
    unfold outDegree at 2. simpl.
    destruct (String.eqb nodeId k); simpl; lia.
Qed.

(** The sum of what the entries with key [k] keep. *)
Fixpoint keptBy (settings : Settings) (k : string) (m : CandidateMap) : nat :=
  match m with
  | [] => 0
  | (nodeId, candidates) :: rest =>
      ((if String.eqb nodeId k then length (pruneCandidates settings candidates) else 0)
       + keptBy settings k rest)%nat
  end.

Lemma forEachNode_outDegree (settings : Settings) (k : string) (m : CandidateMap)
    (state : gset string * list GraphLink) :
  (outDegree k (snd (forEachNode settings m state))
   <= outDegree k (snd state) + keptBy settings k m)%nat.
Proof.
  revert state. induction m as [|[nodeId candidates] m IH]; intros state; simpl;
    [lia|].
  destruct candidates as [|c candidates].
  - etransitivity; [apply IH|]. lia.
  - etransitivity; [apply IH|].
    pose proof (addLinks_outDegree settings k nodeId
                  (pruneCandidates settings (c :: candidates)) state).
    lia.
Qed.

(** A [Map] has every key once. *)
Lemma map_has_elem (m : CandidateMap) (k : string) :
  map_has m k = false -> k ∉ map fst m.
Proof.
  unfold map_has. induction m as [|[k' cs] m IH]; simpl; intros H.
  - intros Hk. inversion Hk.
  - apply orb_false_iff in H as [Hne Hrest].
    apply String.eqb_neq in Hne.
    intros Hk. apply elem_of_cons in Hk as [Hk | Hk]; [congruence|].
    exact (IH Hrest Hk).
Qed.

Lemma map_init_keys (m : CandidateMap) (k : string) :
  NoDup (map fst m) -> NoDup (map fst (map_init m k)).
Proof.
  unfold map_init. intros Hm.
  destruct (map_has m k) eqn:Hk; [assumption|].
  rewrite map_app. simpl. apply NoDup_app. split; [assumption|]. split.
  - intros key Hkey Hnew. apply list_elem_of_singleton in Hnew. subst key.
    exact (map_has_elem m k Hk Hkey).
  - apply NoDup_singleton.
Qed.

Lemma map_push_keys (m : CandidateMap) (k : string) (c : Candidate) :
  map fst (map_push m k c) = map fst m.
Proof.
  induction m as [|[k' cs] m IH]; simpl; [reflexivity|].
  destruct (String.eqb k' k); simpl; [reflexivity|]. rewrite IH. reflexivity.
Qed.

Lemma collectFrom_keys (settings : Settings) (manual : gset string)
    (nodeA : GraphNode) (embeddingA : list float) (later : list GraphNode)
    (m m' : CandidateMap) :
  NoDup (map fst m) ->
  collectFrom settings manual nodeA embeddingA later m = Ok m' ->
  NoDup (map fst m').
Proof.
  revert m. induction later as [|nodeB later IH]; simpl; intros m Hm H.
  - injection H as <-. assumption.
  - destruct (embedding nodeB) as [embeddingB|]; [|eauto].
    destruct (decide _); [eauto|].
    destruct (calculateCosineSimilarity embeddingA embeddingB) as [s|message];
      simpl in H; [|discriminate].
    destruct (similarityThreshold settings <=? s)%float; [|eauto].
    eapply IH; [|exact H].
    rewrite !map_push_keys. apply map_init_keys, map_init_keys, Hm.
Qed.

Lemma collectCandidates_keys (settings : Settings) (manual : gset string)
    (nodesArray : list GraphNode) (m m' : CandidateMap) :
  NoDup (map fst m) ->
  collectCandidates settings manual nodesArray m = Ok m' ->
  NoDup (map fst m').
Proof.
  revert m. induction nodesArray as [|nodeA later IH]; simpl; intros m Hm H.
  - injection H as <-. assumption.
  - destruct (embedding nodeA) as [embeddingA|]; [|eauto].
    destruct (collectFrom settings manual nodeA embeddingA later m) as [m1|message] eqn:H1;
      simpl in H; [|discriminate].
    eapply IH; [|exact H]. eapply collectFrom_keys; eassumption.
Qed.

Lemma keptBy_absent (settings : Settings) (k : string) (m : CandidateMap) :
  k ∉ map fst m -> keptBy settings k m = 0%nat.
Proof.
  induction m as [|[nodeId candidates] m IH]; simpl; intros Hk; [reflexivity|].
  apply not_elem_of_cons in Hk as [Hne Hk].
  destruct (String.eqb_spec nodeId k); [congruence|]. rewrite (IH Hk). reflexivity.
Qed.

Lemma keptBy_cap (settings : Settings) (k : string) (m : CandidateMap) :
  (0 < maxLinks settings)%Z -> NoDup (map fst m) ->
  (Z.of_nat (keptBy settings k m) <= maxLinks settings)%Z.
Proof.
  intros Hcap. induction m as [|[nodeId candidates] m IH]; simpl; intros Hm; [lia|].
  apply NoDup_cons in Hm as [Hout Hm].
  destruct (String.eqb_spec nodeId k) as [-> | Hne].
  - rewrite (keptBy_absent settings k m Hout).
    pose proof (pruneCandidates_length settings candidates Hcap). lia.
  - specialize (IH Hm). lia.
Qed.

(** X20.  With a positive [maxSimilarLinksPerNode], when the call returns,
    at most that many of the links it pushes start at any one node. *)
Theorem links_per_source_capped (settings : Settings) (links : list GraphLink)
    (nodesArray : list GraphNode) (after : list GraphLink) :
  (0 < maxLinks settings)%Z ->
  createEmbeddingBasedLinks settings links nodesArray = Ok after ->
  exists pushed,
    after = links ++ pushed
    /\ forall k, (Z.of_nat (outDegree k pushed) <= maxLinks settings)%Z.
Proof.
  intros Hcap H. unfold createEmbeddingBasedLinks, similarityLinks in H.
  destruct (collectCandidates settings (manualLinkPairs links) nodesArray [])
    as [m|message] eqn:Hm; simpl in H; [|discriminate].
  injection H as <-.
  exists (snd (forEachNode settings m (∅, []))). split; [reflexivity|].
  intros k.
  pose proof (forEachNode_outDegree settings k m (∅, [])) as Hle.
  assert (Hkeys : NoDup (map fst m)).
  { eapply collectCandidates_keys; [|exact Hm]. constructor. }
  pose proof (keptBy_cap settings k m Hcap Hkeys).
  change (outDegree k (snd (∅, []))) with 0%nat in Hle. lia.
Qed.

End LinkCap.

(** *** A pair kept by one of its nodes is linked *)

Section KeptPairs.
Import Service View.

(** The state of the second loop: every key of [addedPairs] is the key of a
    link pushed. *)
Definition covered (state : gset string * list GraphLink) : Prop :=
  forall key, key ∈ fst state -> exists link, link ∈ snd state /\ linkKey link = key.

Lemma addLinks_covered (settings : Settings) (nodeId : string)
    (filtered : list Candidate) (state : gset string * list GraphLink) :
  covered state ->
  covered (addLinks settings nodeId filtered state)
  /\ fst state ⊆ fst (addLinks settings nodeId filtered state)
  /\ forall c, c ∈ filtered ->
       pairKey nodeId (otherId c) ∈ fst (addLinks settings nodeId filtered state).
Proof.
  revert state. induction filtered as [|c filtered IH]; intros [addedPairs links] Hs.
  - simpl. split; [assumption|]. split; [set_solver|]. intros c Hc. inversion Hc.
  - simpl. destruct (decide (pairKey nodeId (otherId c) ∈ addedPairs)) as [Hin | Hout].
    + destruct (IH (addedPairs, links) Hs) as (Hcov & Hsub & Hall).
      split; [assumption|]. split; [assumption|].
      intros c' Hc'. apply elem_of_cons in Hc' as [-> | Hc']; [|auto].
      apply Hsub. exact Hin.
    + match goal with
      | |- covered (addLinks _ _ _ ?st) /\ _ => destruct (IH st) as (Hcov & Hsub & Hall)
      end.
      { intros key Hkey. simpl in *.
        apply elem_of_union in Hkey as [Hkey | Hkey].
        - destruct (Hs key Hkey) as (link & Hlink & Heq).
          exists link. split; [apply elem_of_app; left; exact Hlink | exact Heq].
        - apply elem_of_singleton in Hkey. subst key.
          eexists. split; [apply elem_of_app; right; apply list_elem_of_singleton;
                           reflexivity|].
          reflexivity. }
      split; [assumption|]. split.
      * intros x Hx. apply Hsub. simpl. apply elem_of_union_l, Hx.
      * intros c' Hc'. apply elem_of_cons in Hc' as [-> | Hc']; [|auto].
        apply Hsub. simpl. apply elem_of_union_r, elem_of_singleton. reflexivity.
Qed.

Lemma forEachNode_covered (settings : Settings) (m : CandidateMap)
    (state : gset string * list GraphLink) :
  covered state ->
  covered (forEachNode settings m state)
  /\ fst state ⊆ fst (forEachNode settings m state)
  /\ forall k candidates c,
       (k, candidates) ∈ m -> c ∈ pruneCandidates settings candidates ->
       pairKey k (otherId c) ∈ fst (forEachNode settings m state).
Proof.
  revert state. induction m as [|[nodeId candidates] m IH]; intros state Hs.
  - simpl. split; [assumption|]. split; [set_solver|].
    intros k cs c Hentry. inversion Hentry.
  - assert (Hstep : exists state',
               forEachNode settings ((nodeId, candidates) :: m) state
               = forEachNode settings m state'
               /\ covered state' /\ fst state ⊆ fst state'
               /\ forall c, c ∈ pruneCandidates settings candidates ->
                    pairKey nodeId (otherId c) ∈ fst state').
    { destruct candidates as [|c0 candidates].
      - exists state. split; [reflexivity|]. split; [assumption|].
        split; [set_solver|]. intros c Hc.
        pose proof (pruneCandidates_Forall (fun _ => False) settings [] (List.Forall_nil _))
          as Hnone.
        rewrite Forall_forall in Hnone. destruct (Hnone _ Hc).
      - exists (addLinks settings nodeId (pruneCandidates settings (c0 :: candidates))
                  state).
        split; [reflexivity|]. apply addLinks_covered, Hs. }
    destruct Hstep as (state' & -> & Hcov' & Hsub' & Hall').
    destruct (IH state' Hcov') as (Hcov & Hsub & Hall).
    split; [assumption|]. split; [intros x Hx; apply Hsub, Hsub', Hx|].
    intros k cs c Hentry Hc. apply elem_of_cons in Hentry as [Heq | Hentry].
    + injection Heq as -> ->. apply Hsub, Hall', Hc.
    + eapply Hall; eassumption.
Qed.

(** Node ids are vault paths; the key of a pair separates them with a
    bar. *)
Fixpoint has_bar (s : string) : bool :=
  match s with
  | EmptyString => false
  | String c s' => Ascii.eqb c "|" || has_bar s'
  end.

Lemma pairString_inj (a b a' b' : string) :
  has_bar a = false -> has_bar a' = false ->
  pairString a b = pairString a' b' -> a = a' /\ b = b'.
Proof.
  unfold pairString. revert a'.
  induction a as [|c a IH]; intros [|c' a'] Ha Ha'; simpl in Ha, Ha';
    rewrite ?append_cons, ?append_empty_l; intros H.
  - split; [reflexivity|]. congruence.
  - injection H as Hc _. subst c'. discriminate Ha'.
  - injection H as Hc _. subst c. discriminate Ha.
  - apply orb_false_iff in Ha as [_ Ha]. apply orb_false_iff in Ha' as [_ Ha'].
    injection H as -> H. destruct (IH a' Ha Ha' H) as [-> ->]. auto.
Qed.

Lemma pairKey_inj (a b a' b' : string) :
  has_bar a = false -> has_bar b = false ->
  has_bar a' = false -> has_bar b' = false ->
  pairKey a b = pairKey a' b' ->
  (a = a' /\ b = b') \/ (a = b' /\ b = a').
Proof.
  unfold pairKey. intros Ha Hb Ha' Hb' H.
  destruct (String.ltb a b), (String.ltb a' b');
    apply pairString_inj in H; try assumption; tauto.
Qed.

(** Both ends of a stored pair are ids of nodes. *)
Definition betweenNodes (nodesArray : list GraphNode) (k : string) (c : Candidate) : Prop :=
  k ∈ map node_id nodesArray /\ otherId c ∈ map node_id nodesArray.

(** X21.  When no node id contains a bar and the call returns: for every
    node of the candidate map and every candidate that the node keeps after
    pruning, a link between the two is among the links pushed, in one
    direction or the other; what the other node keeps does not matter. *)
Theorem kept_pairs_are_linked (settings : Settings) (links : list GraphLink)
    (nodesArray : list GraphNode) (after : list GraphLink) :
  Forall (fun node => has_bar (node_id node) = false) nodesArray ->
  createEmbeddingBasedLinks settings links nodesArray = Ok after ->
  exists perNodeCandidates pushed,
    collectCandidates settings (manualLinkPairs links) nodesArray [] = Ok perNodeCandidates
    /\ after = links ++ pushed
    /\ forall nodeId candidates c,
         (nodeId, candidates) ∈ perNodeCandidates ->
         c ∈ pruneCandidates settings candidates ->
         exists link,
           link ∈ pushed
           /\ ((source link = nodeId /\ target link = otherId c)
               \/ (source link = otherId c /\ target link = nodeId)).
Proof.
  intros Hbar H. unfold createEmbeddingBasedLinks, similarityLinks in H.
  destruct (collectCandidates settings (manualLinkPairs links) nodesArray [])
    as [m|message] eqn:Hm; simpl in H; [|discriminate].
  injection H as <-.
  exists m, (snd (forEachNode settings m (∅, []))).
  split; [reflexivity|]. split; [reflexivity|].
  assert (Hids : forall id, id ∈ map node_id nodesArray -> has_bar id = false).
  { intros id Hid. apply list_elem_of_fmap in Hid as (node & -> & Hnode).
    rewrite Forall_forall in Hbar. apply Hbar, Hnode. }
  assert (Hpairs : pairsSatisfy (betweenNodes nodesArray) m).
  { eapply (collectCandidates_pairs (betweenNodes nodesArray));
      [| |exact Hm]; [|constructor].
    intros before A later B eA eB s Hnodes HB _ _ _ _ _.
    assert (HA' : node_id A ∈ map node_id nodesArray).
    { apply list_elem_of_fmap. exists A. split; [reflexivity|].
      rewrite Hnodes. apply elem_of_app. right. left. }
    assert (HB' : node_id B ∈ map node_id nodesArray).
    { apply list_elem_of_fmap. exists B. split; [reflexivity|].
      rewrite Hnodes. apply elem_of_app. right. right. exact HB. }
    split; split; assumption. }
  assert (Hlinks : Forall (linkOf (betweenNodes nodesArray))
                     (snd (forEachNode settings m (∅, [])))).
  { apply forEachNode_pairs; [exact Hpairs | constructor]. }
  destruct (forEachNode_covered settings m (∅, [])) as (Hcov & _ & Hall).
  { intros key Hkey. simpl in Hkey. set_solver. }
  intros nodeId candidates c Hentry Hc.
  destruct (Hcov _ (Hall _ _ _ Hentry Hc)) as (link & Hlink & Hkey).
  exists link. split; [exact Hlink|].
  rewrite Forall_forall in Hlinks.
  destruct (Hlinks _ Hlink) as (c' & [Hsrc Hoth] & Htarget & _).
  unfold pairsSatisfy in Hpairs. rewrite Forall_forall in Hpairs.
  specialize (Hpairs _ Hentry). simpl in Hpairs.
  assert (Hc' : betweenNodes nodesArray nodeId c).
  { pose proof (pruneCandidates_Forall (betweenNodes nodesArray nodeId) settings
                  candidates Hpairs) as Hp.
    rewrite Forall_forall in Hp. apply Hp, Hc. }
  destruct Hc' as [Hk Ho].
  unfold linkKey in Hkey. rewrite <- Htarget in Hoth.
  apply pairKey_inj in Hkey; auto.
Qed.

End KeptPairs.

(** ** The fan with a manual link *)

Section FanExamples.
Import Service View.
Local Open Scope float_scope.

(** The fan of six nodes, where [A] and [B] are already linked by hand. *)
Definition fanManualLinks : list GraphLink :=
  [ {| source := "A"; target := "B"; link_id := "A->B"; similarity := None;
       thickness := Some 2; link_type := Some ManualLink |} ].

Definition fanLinksBesideManual : list GraphLink :=
  Eval vm_compute in
    match createEmbeddingBasedLinks fanSettings fanManualLinks fanNodes with
    | Ok after => after
    | Throw _ => []
    end.

Example fan_beside_manual_ends :
  map (fun link => (source link, target link)) fanLinksBesideManual
  = [("A", "B"); ("A", "C"); ("A", "D"); ("C", "D"); ("C", "B"); ("D", "E"); ("E", "F");
     ("F", "D"); ("B", "D")]%string.
Proof. reflexivity. Qed.

Lemma no_similarity_link_beside_manual_witness :
  exists pushed,
    fanLinksBesideManual = fanManualLinks ++ pushed
    /\ forall link manualLink,
         link ∈ pushed -> manualLink ∈ fanManualLinks ->
         link_type manualLink = Some ManualLink ->
         link_type link = None /\ ~ sameEndpoints link manualLink.
Proof.
  apply (no_similarity_link_beside_manual fanSettings fanManualLinks fanNodes
           fanLinksBesideManual).
  vm_compute. reflexivity.
Defined.

Lemma no_self_links_witness :
  exists pushed,
    fanLinks = [] ++ pushed
    /\ forall link, link ∈ pushed -> source link <> target link.
Proof.
  apply (no_self_links fanSettings [] fanNodes fanLinks).
  - apply (bool_decide_unpack _). vm_compute. exact I.
  - vm_compute. reflexivity.
Defined.

Lemma links_per_source_capped_witness :
  exists pushed,
    fanLinks = [] ++ pushed
    /\ forall k, (Z.of_nat (outDegree k pushed) <= maxLinks fanSettings)%Z.
Proof.
  apply (links_per_source_capped fanSettings [] fanNodes fanLinks).
  - reflexivity.
  - vm_compute. reflexivity.
Defined.

Lemma kept_pairs_are_linked_witness :
  exists perNodeCandidates pushed,
    collectCandidates fanSettings (manualLinkPairs []) fanNodes [] = Ok perNodeCandidates
    /\ fanLinks = [] ++ pushed
    /\ forall nodeId candidates c,
         (nodeId, candidates) ∈ perNodeCandidates ->
         c ∈ pruneCandidates fanSettings candidates ->
         exists link,
           link ∈ pushed
           /\ ((source link = nodeId /\ target link = otherId c)
               \/ (source link = otherId c /\ target link = nodeId)).
Proof.
  apply (kept_pairs_are_linked fanSettings [] fanNodes fanLinks).
  - repeat constructor.
  - vm_compute. reflexivity.
Defined.

End FanExamples.

Section TagFacts.
Import Service View ViewGraph Tags.

(** The tags a file mentions, in the order the loops meet them, as the
    node loop spells them. *)
Definition tagsMentioned (cache : TagCache) (file : TFile) : list string :=
  tagsOf cache file ++ map (fun tag => "#" +:+ tag) (aiTagsOf cache file).

(** All mentions of tags, file by file, each with the path of its file. *)
Definition tagMentions (cache : TagCache) (files : list TFile) : list (string * string) :=
  concat (map (fun file => map (fun tag => (file_path file, tag)) (tagsMentioned cache file))
            files).

(** How often a tag is mentioned. *)
Definition mentionsOf (cache : TagCache) (files : list TFile) (tag : string) : nat :=
  length (List.filter (fun mention => String.eqb (snd mention) tag) (tagMentions cache files)).

Definition occurrences (tag : string) (tags : list string) : nat :=
  length (List.filter (fun t => String.eqb t tag) tags).

Lemma set_add_spec (s : list string) (x y : string) :
  y ∈ set_add s x <-> y ∈ s \/ y = x.
Proof.
  unfold set_add. destruct (existsb (String.eqb x) s) eqn:Hx.
  - split; [auto|]. intros [H | ->]; [exact H|].
    apply existsb_exists in Hx as (z & Hz & Heq).
    apply String.eqb_eq in Heq. subst z. apply list_elem_of_In, Hz.
  - rewrite elem_of_app, list_elem_of_singleton. tauto.
Qed.

Lemma set_add_NoDup (s : list string) (x : string) : NoDup s -> NoDup (set_add s x).
Proof.
  unfold set_add. intros Hs. destruct (existsb (String.eqb x) s) eqn:Hx; [exact Hs|].
  apply NoDup_app. split; [exact Hs|]. split; [|apply NoDup_singleton].
  intros y Hy Hyx. apply list_elem_of_singleton in Hyx. subst y.
  assert (Htrue : existsb (String.eqb x) s = true).
  { apply existsb_exists. exists x. split; [apply list_elem_of_In, Hy|].
    apply String.eqb_refl. }
  congruence.
Qed.

(** The state after a run of [countTag]: the set holds the tags met, and
    every count went up by the number of times its tag was met. *)
Lemma fold_countTag (tags : list string) (st : list string * gmap string nat) :
  NoDup (fst st) ->
  NoDup (fst (fold_left countTag tags st))
  /\ (forall t, t ∈ fst (fold_left countTag tags st) <-> t ∈ fst st \/ t ∈ tags)
  /\ (forall t, default 0%nat (snd (fold_left countTag tags st) !! t)
                = (default 0%nat (snd st !! t) + occurrences t tags)%nat).
Proof.
  revert st. induction tags as [|tag tags IH]; intros st Hst; simpl.
  - split; [exact Hst|]. split.
    + intros t. split; [auto|]. intros [H | H]; [exact H | inversion H].
    + intros t. unfold occurrences. simpl. lia.
  - destruct (IH (countTag st tag)) as (Hnodup & Hin & Hcount).
    { simpl. apply set_add_NoDup, Hst. }
    split; [exact Hnodup|]. split.
    + intros t. rewrite Hin. simpl. rewrite set_add_spec, elem_of_cons. tauto.
    + intros t. rewrite Hcount. unfold occurrences. simpl.
      destruct (String.eqb_spec tag t) as [-> | Hne].
      * rewrite lookup_insert_eq. simpl. lia.
      * rewrite lookup_insert_ne by exact Hne. lia.
Qed.

Lemma collectTags_fold (cache : TagCache) (file : TFile)
    (st : list string * gmap string nat) :
  collectTags cache file st = fold_left countTag (tagsMentioned cache file) st.
Proof.
  unfold collectTags, tagsMentioned. rewrite fold_left_app.
  generalize (fold_left countTag (tagsOf cache file) st).
  induction (aiTagsOf cache file) as [|tag tags IH]; intros st'; simpl; [reflexivity|].
  apply IH.
Qed.

Lemma collect_all_fold (cache : TagCache) (files : list TFile)
    (st : list string * gmap string nat) :
  fold_left (fun st file => collectTags cache file st) files st
  = fold_left countTag (map snd (tagMentions cache files)) st.
Proof.
  revert st. induction files as [|file files IH]; intros st; simpl; [reflexivity|].
  unfold tagMentions. simpl. rewrite map_app, fold_left_app, map_map. simpl.
  rewrite map_id, <- collectTags_fold. apply IH.
Qed.

Lemma occurrences_mentions (cache : TagCache) (files : list TFile) (tag : string) :
  occurrences tag (map snd (tagMentions cache files)) = mentionsOf cache files tag.
Proof.
  unfold occurrences, mentionsOf.
  induction (tagMentions cache files) as [|[p t] l IH]; simpl; [reflexivity|].
  destruct (String.eqb t tag); simpl; rewrite IH; reflexivity.
Qed.

Lemma occurrences_pos (tag : string) (tags : list string) :
  tag ∈ tags <-> (0 < occurrences tag tags)%nat.
Proof.
  unfold occurrences. induction tags as [|t tags IH]; simpl.
  - split; [intros H; inversion H | lia].
  - rewrite elem_of_cons. destruct (String.eqb_spec t tag) as [-> | Hne]; simpl.
    + split; [lia | auto].
    + rewrite <- IH. split; [intros [H | H]; [congruence | exact H] | auto].
Qed.

Lemma tagNodeMap_ids (cache : TagCache) (files : list TFile) :
  map tag_id (tagNodeMap cache files)
  = fst (fold_left countTag (map snd (tagMentions cache files)) ([], ∅)).
Proof.
  unfold tagNodeMap. rewrite collect_all_fold, map_map. simpl. apply map_id.
Qed.

Lemma tagNodeMap_has (cache : TagCache) (files : list TFile) (tag : string) :
  tag ∈ map tag_id (tagNodeMap cache files) <-> tag ∈ map snd (tagMentions cache files).
Proof.
  rewrite tagNodeMap_ids.
  destruct (fold_countTag (map snd (tagMentions cache files)) ([], ∅))
    as (_ & Hin & _); [constructor|].
  rewrite Hin. split; [intros [H | H]; [inversion H | exact H] | auto].
Qed.

Lemma tagNodeMap_count (cache : TagCache) (files : list TFile) :
  Forall (fun node => connectionCount node = mentionsOf cache files (tag_id node))
    (tagNodeMap cache files).
Proof.
  apply Forall_forall. intros node Hnode.
  assert (Hid : tag_id node ∈ map tag_id (tagNodeMap cache files)).
  { apply list_elem_of_fmap. eauto. }
  apply tagNodeMap_has, occurrences_pos in Hid. rewrite occurrences_mentions in Hid.
  unfold tagNodeMap in Hnode. rewrite collect_all_fold in Hnode.
  apply list_elem_of_fmap in Hnode as (tag & -> & _). simpl in *.
  destruct (fold_countTag (map snd (tagMentions cache files)) ([], ∅))
    as (_ & _ & Hcount); [constructor|].
  specialize (Hcount tag). simpl in Hcount. rewrite lookup_empty in Hcount.
  simpl in Hcount. rewrite occurrences_mentions in Hcount.
  destruct (snd (fold_left countTag (map snd (tagMentions cache files)) ([], ∅)) !! tag)
    as [[|n]|]; simpl in Hcount; lia.
Qed.

(** X22.  The tag nodes of [loadGraphData]: their ids are pairwise
    different, a tag has a node exactly when some file mentions it, and the
    [connectionCount] of a node is the number of times the files mention its
    tag. *)
Theorem tagNodeMap_counts_mentions (cache : TagCache) (files : list TFile) :
  NoDup (map tag_id (tagNodeMap cache files))
  /\ (forall tag, tag ∈ map tag_id (tagNodeMap cache files)
                  <-> (0 < mentionsOf cache files tag)%nat)
  /\ Forall (fun node => connectionCount node = mentionsOf cache files (tag_id node))
       (tagNodeMap cache files).
Proof.
  split; [|split].
  - rewrite tagNodeMap_ids.
    destruct (fold_countTag (map snd (tagMentions cache files)) ([], ∅))
      as (Hnodup & _); [constructor | exact Hnodup].
  - intros tag. rewrite tagNodeMap_has, <- occurrences_mentions. apply occurrences_pos.
  - apply tagNodeMap_count.
Qed.

(** *** Tag links *)

Lemma tagNodes_get_Some (tagNodes : list TagNode) (k : string) (node : TagNode) :
  tagNodes_get tagNodes k = Some node -> node ∈ tagNodes /\ tag_id node = k.
Proof.
  unfold tagNodes_get. intros H. apply find_some in H as [Hin Heq].
  split; [apply list_elem_of_In, Hin | apply String.eqb_eq, Heq].
Qed.


Lemma nodeMap_get_Some (m : list (string * GraphNode)) (k : string) (node : GraphNode) :
  nodeMap_get m k = Some node -> (k, node) ∈ m.
Proof.
  unfold nodeMap_get. intros H.
  destruct (List.find (fun entry => String.eqb (fst entry) k) m) as [[k' v]|] eqn:Hf;
    [|discriminate H].
  injection H as <-. apply find_some in Hf as [Hin Heq]. simpl in Heq.
  apply String.eqb_eq in Heq. subst k'. apply list_elem_of_In, Hin.
Qed.



(** One of the two inner loops: [key] is how the loop spells a tag. *)
Definition pushTagLinks (kind : string) (fileNode : GraphNode) (tagNodes : list TagNode)
    (key : string -> string) (tags : list string) (links : list GraphLink)
    : list GraphLink :=
  fold_left
    (fun links tag =>
       match tagNodes_get tagNodes (key tag) with
       | Some tagNode => links ++ [tagLink kind fileNode tagNode]
       | None => links
       end)
    tags links.

(** The spelling of the second loop of [createTagLinks]. *)
Definition withHash (tag : string) : string :=
  if startsWithHash tag then tag else "#" +:+ tag.

Lemma tagLinksOf_loops (cache : TagCache) (nodeMap : list (string * GraphNode))
    (tagNodes : list TagNode) (file : TFile) (links : list GraphLink) :
  tagLinksOf cache nodeMap tagNodes file links
  = match nodeMap_get nodeMap (file_path file) with
    | None => links
    | Some fileNode =>
        pushTagLinks "-ai-tag-" fileNode tagNodes withHash (aiTagsOf cache file)
          (pushTagLinks "-tag-" fileNode tagNodes (fun tag => tag) (tagsOf cache file)
             links)
    end.
Proof. reflexivity. Qed.

(** A tag link from a node of the node map to a tag node. *)
Definition tagLinkBetween (nodeMap : list (string * GraphNode)) (tagNodes : list TagNode)
    (link : GraphLink) : Prop :=
  link_type link = Some TagLink
  /\ source link ∈ map node_id (nodeMap_values nodeMap)
  /\ target link ∈ map tag_id tagNodes.

Lemma pushTagLinks_between (kind : string) (nodeMap : list (string * GraphNode))
    (fileNode : GraphNode) (tagNodes : list TagNode) (key : string -> string)
    (tags : list string) (links : list GraphLink) :
  fileNode ∈ nodeMap_values nodeMap ->
  exists pushed,
    pushTagLinks kind fileNode tagNodes key tags links = links ++ pushed
    /\ Forall (tagLinkBetween nodeMap tagNodes) pushed.
Proof.
  intros Hnode. unfold pushTagLinks. revert links.
  induction tags as [|tag tags IH]; intros links; simpl.
  - exists []. rewrite app_nil_r. split; [reflexivity | constructor].
  - destruct (tagNodes_get tagNodes (key tag)) as [tagNode|] eqn:Hget; [|apply IH].
    destruct (IH (links ++ [tagLink kind fileNode tagNode])) as (pushed & -> & Hp).
    eexists. rewrite <- app_assoc. split; [reflexivity|].
    constructor; [|exact Hp]. apply tagNodes_get_Some in Hget as [Hin _].
    repeat split; simpl; apply list_elem_of_fmap; eauto.
Qed.

(** X23.  [createTagLinks] keeps the links that were there; every link it
    pushes is a tag link from a node of the node map to a node of the tag
    map, so no tag link points at something the graph does not show. *)
Theorem createTagLinks_no_dangling (cache : TagCache) (files : list TFile)
    (nodeMap : list (string * GraphNode)) (tagNodes : list TagNode)
    (links : list GraphLink) :
  exists pushed,
    createTagLinks cache files nodeMap tagNodes links = links ++ pushed
    /\ Forall (fun link =>
                 link_type link = Some TagLink
                 /\ source link ∈ map node_id (nodeMap_values nodeMap)
                 /\ target link ∈ map tag_id tagNodes)
         pushed.
Proof.
  unfold createTagLinks. revert links.
  induction files as [|file files IH]; intros links; simpl.
  - exists []. rewrite app_nil_r. split; [reflexivity | constructor].
  - assert (Hfile : exists pushed,
              tagLinksOf cache nodeMap tagNodes file links = links ++ pushed
              /\ Forall (tagLinkBetween nodeMap tagNodes) pushed).
    { rewrite tagLinksOf_loops.
      destruct (nodeMap_get nodeMap (file_path file)) as [fileNode|] eqn:Hget.
      - assert (Hnode : fileNode ∈ nodeMap_values nodeMap).
        { apply nodeMap_get_Some in Hget. unfold nodeMap_values.
          apply list_elem_of_fmap. exists (file_path file, fileNode). auto. }
        destruct (pushTagLinks_between "-tag-" nodeMap fileNode tagNodes (fun tag => tag)
                    (tagsOf cache file) links Hnode) as (p1 & -> & H1).
        destruct (pushTagLinks_between "-ai-tag-" nodeMap fileNode tagNodes withHash
                    (aiTagsOf cache file) (links ++ p1) Hnode) as (p2 & -> & H2).
        exists (p1 ++ p2). rewrite app_assoc. split; [reflexivity|].
        apply Forall_app. split; assumption.
      - exists []. rewrite app_nil_r. split; [reflexivity | constructor]. }
    destruct Hfile as (p1 & -> & H1).
    destruct (IH (links ++ p1)) as (p2 & -> & H2).
    exists (p1 ++ p2). rewrite app_assoc. split; [reflexivity|].
    apply Forall_app. split; assumption.
Qed.

(** *** One tag link for every mention *)






(** Two notes: [alpha] carries the tag [#idea] and the AI tags [idea] and
    [draft], [beta] carries the tag [#idea]. *)
Definition tagFiles : list TFile :=
  [ {| file_path := "alpha"; file_mtime := 1 |};
    {| file_path := "beta"; file_mtime := 2 |} ].

Definition tagCache : TagCache :=
  {| tagsOf := fun _ => ["#idea"]%string;
     aiTagsOf := fun file =>
       if String.eqb (file_path file) "alpha" then ["idea"; "draft"]%string else [] |}.

Example tag_nodes_of_tagCache :
  tagNodeMap tagCache tagFiles
  = [ {| tag_id := "#idea"; connectionCount := 3 |};
      {| tag_id := "#draft"; connectionCount := 1 |} ].
Proof. vm_compute. reflexivity. Qed.


(** An AI tag that is written with its hash sign gets a node with two hash
    signs, and no link: the two loops spell it differently. *)
Definition hashedTagCache : TagCache :=
  {| tagsOf := fun _ => []; aiTagsOf := fun _ => ["#idea"]%string |}.

Example hashed_ai_tag_is_not_linked :
  tagNodeMap hashedTagCache tagFiles = [ {| tag_id := "##idea"; connectionCount := 2 |} ]
  /\ createTagLinks hashedTagCache tagFiles (fileNodeMap (fun _ => None) tagFiles)
       (tagNodeMap hashedTagCache tagFiles) []
     = [].
Proof. split; vm_compute; reflexivity. Qed.

End TagFacts.

(** ** The words the normaliser selects *)

Section SelectedWords.
Import Text.

(** [settings?.embeddingWordSkip || 0], clamped at 0. *)
Definition wordSkipOf (settings : Settings) : nat :=
  match embeddingWordSkip settings with
  | Some k => Z.to_nat k
  | None => 0%nat
  end.

Lemma slice_window {A} (l : list A) (start limit : Z) :
  (0 <= start)%Z -> (0 <= limit)%Z ->
  slice l start (Z.min (Z.of_nat (length l)) (start + limit))
  = take (Z.to_nat limit) (drop (Z.to_nat start) l).
Proof.
  intros Hstart Hlimit. unfold slice.
  destruct (Z.ltb_spec start 0); [lia|].
  destruct (Z.ltb_spec (Z.min (Z.of_nat (length l)) (start + limit)) 0); [lia|].
  destruct (Z.le_gt_cases (Z.of_nat (length l)) start) as [Hshort | Hlong].
  - rewrite !drop_ge by lia. rewrite !take_nil. reflexivity.
  - replace (Z.to_nat (Z.min start (Z.of_nat (length l)))) with (Z.to_nat start) by lia.
    destruct (Z.le_gt_cases (start + limit) (Z.of_nat (length l))).
    + f_equal. lia.
    + rewrite !take_ge; [reflexivity| |]; rewrite length_drop; lia.
Qed.

(** X25.  With headings excluded (the default) and a word limit that is
    not negative, the result is exactly the selected words joined by single
    spaces: the words of the body that are not stop words, without the first
    [embeddingWordSkip] of them, at most [wordLimit] of them.  Each is a
    non-empty string without white space. *)
Theorem extract_selects_words (settings : Settings) (content : string) (wordLimit : Z) :
  excludeHeadingsFromEmbedding settings <> Some false ->
  (0 <= wordLimit)%Z ->
  let selected :=
    take (Z.to_nat wordLimit) (drop (wordSkipOf settings) (filteredWords content)) in
  extractHeadingsAndFirstWords settings content wordLimit = join " " selected
  /\ Forall (fun w => word w /\ notStop w = true) selected
  /\ (Z.of_nat (length selected) <= wordLimit)%Z.
Proof.
  intros Hexclude Hlimit selected.
  assert (Hsel : Forall (fun w => word w /\ notStop w = true) selected).
  { apply Forall_take, Forall_drop, filteredWords_words. }
  split; [|split; [exact Hsel|]].
  - unfold extractHeadingsAndFirstWords.
    assert (Hexcl : match excludeHeadingsFromEmbedding settings with
                    | Some b => b
                    | None => true
                    end = true).
    { destruct (excludeHeadingsFromEmbedding settings) as [[|]|]; congruence. }
    rewrite Hexcl.
    change (List.filter (fun w => negb (STOP_has (toLowerCase w)))
              (List.filter (fun word => nonempty word) (split_ws (bodyText content))))
      with (filteredWords content).
    rewrite slice_window by lia.
    replace (Z.to_nat (Z.max 0 (match embeddingWordSkip settings with
                                | Some k => k
                                | None => 0%Z
                                end))) with (wordSkipOf settings).
    + apply trim_join. apply Forall_and in Hsel as [Hwords _]. exact Hwords.
    + unfold wordSkipOf. destruct (embeddingWordSkip settings); lia.
  - subst selected. rewrite length_take. lia.
Qed.

Lemma extract_selects_words_witness :
  let selected :=
    take (Z.to_nat defaultWordLimit)
      (drop (wordSkipOf skipOneSettings) (filteredWords sampleNote)) in
  extractHeadingsAndFirstWords skipOneSettings sampleNote defaultWordLimit
  = join " " selected
  /\ Forall (fun w => word w /\ notStop w = true) selected
  /\ (Z.of_nat (length selected) <= defaultWordLimit)%Z.
Proof.
  apply (extract_selects_words skipOneSettings sampleNote defaultWordLimit).
  - discriminate.
  - discriminate.
Defined.

End SelectedWords.

Section CleanFacts.
Import Text TextClean.

Example clean_removes_markers :
  cleanTextForEmbedding defaultSettings "some **bold** and *italic* words, `code` too"
  = "some bold italic words, code too"%string.
Proof. vm_compute. reflexivity. Qed.

(** The character [c] does not occur in [s]. *)
Fixpoint lacks (c : ascii) (s : string) : bool :=
  match s with
  | EmptyString => true
  | String a s' => negb (Ascii.eqb c a) && lacks c s'
  end.

(** Every match of [re] starts with the character [c]. *)
Definition startsWith (c : ascii) (re : list item) : Prop :=
  forall prev s g,
    match s with
    | String a _ => Ascii.eqb c a = false
    | EmptyString => True
    end ->
    matchItems re prev s g = None.

Lemma substitute_all_from_lacks (c : ascii) (re : list item)
    (replacement : mstate -> string) (s : string) (prev : option ascii) :
  startsWith c re -> lacks c s = true ->
  substitute_all_from re replacement prev O s = s.
Proof.
  intros Hre. revert prev. induction s as [|a s IH]; intros prev Hs.
  - simpl. rewrite (Hre prev EmptyString None I). reflexivity.
  - simpl in Hs. apply andb_prop in Hs as [Ha Hs]. apply negb_true_iff in Ha.
    simpl. rewrite (Hre prev (String a s) None Ha), (IH _ Hs). reflexivity.
Qed.

Lemma substitute_all_lacks (c : ascii) (re : list item)
    (replacement : mstate -> string) (s : string) :
  startsWith c re -> lacks c s = true -> substitute_all re replacement s = s.
Proof. apply substitute_all_from_lacks. Qed.

Lemma startsWith_char (c : ascii) (re : list item) : startsWith c (One (CChar c) :: re).
Proof.
  intros prev [|a s] g H; simpl; [reflexivity|]. rewrite H. reflexivity.
Qed.

Lemma startsWith_lineBreaks : startsWith "010" lineBreaksRegex.
Proof.
  intros prev [|a s] g H; [reflexivity|].
  unfold lineBreaksRegex, matchItems, rep, cls_ok. rewrite H. reflexivity.
Qed.

(** *** Trimming twice *)

Lemma trimEnd_idempotent (s : string) : trimEnd (trimEnd s) = trimEnd s.
Proof.
  induction s as [|a s IH]; [reflexivity|].
  simpl. destruct (trimEnd s) as [|b t] eqn:Ht.
  - destruct (is_ws a) eqn:Ha; [reflexivity|]. simpl. rewrite Ha. reflexivity.
  - change (trimEnd (String a (String b t)))
      with (match trimEnd (String b t) with
            | EmptyString => if is_ws a then EmptyString else String a EmptyString
            | u => String a u
            end).
    rewrite IH. reflexivity.
Qed.

Lemma trimStart_trimEnd (s : string) :
  trimStart s = s -> trimStart (trimEnd s) = trimEnd s.
Proof.
  destruct s as [|a s]; [reflexivity|].
  simpl. destruct (is_ws a) eqn:Ha.
  - intros H. exfalso.
    assert (Hlen : forall t, (String.length (trimStart t) <= String.length t)%nat).
    { induction t as [|b t IHt]; simpl; [lia|]. destruct (is_ws b); simpl; lia. }
    pose proof (Hlen s) as Hs. rewrite H in Hs. simpl in Hs. lia.
  - intros _. destruct (trimEnd s); simpl; rewrite Ha; reflexivity.
Qed.

Lemma trimStart_idempotent (s : string) : trimStart (trimStart s) = trimStart s.
Proof.
  induction s as [|a s IH]; [reflexivity|].
  simpl. destruct (is_ws a) eqn:Ha; [exact IH|]. simpl. rewrite Ha. reflexivity.
Qed.

Lemma trim_idempotent (s : string) : trim (trim s) = trim s.
Proof.
  unfold trim. rewrite (trimStart_trimEnd (trimStart s) (trimStart_idempotent s)).
  apply trimEnd_idempotent.
Qed.

Lemma extract_trimmed (settings : Settings) (content : string) (wordLimit : Z) :
  trim (extractHeadingsAndFirstWords settings content wordLimit)
  = extractHeadingsAndFirstWords settings content wordLimit.
Proof. unfold extractHeadingsAndFirstWords. apply trim_idempotent. Qed.

(** A text without an asterisk, an opening bracket, a backtick or a line
    feed. *)
Definition unmarked (s : string) : bool :=
  lacks "*" s && lacks "[" s && lacks "`" s && lacks "010" s.

(** X26.  When the extracted text holds no asterisk, opening bracket,
    backtick or line feed, cleaning changes nothing: the text that is
    embedded is the extracted text. *)
Theorem clean_keeps_unmarked_text (settings : Settings) (content : string) :
  unmarked (extractHeadingsAndFirstWords settings content defaultWordLimit) = true ->
  cleanTextForEmbedding settings content
  = extractHeadingsAndFirstWords settings content defaultWordLimit.
Proof.
  unfold unmarked, cleanTextForEmbedding. intros H.
  apply andb_prop in H as [H Hnl]. apply andb_prop in H as [H Htick].
  apply andb_prop in H as [Hstar Hbracket].
  rewrite (substitute_all_lacks "*" boldRegex) by (assumption || apply startsWith_char).
  rewrite (substitute_all_lacks "*" italicRegex) by (assumption || apply startsWith_char).
  rewrite (substitute_all_lacks "[" linkTextRegex) by (assumption || apply startsWith_char).
  rewrite (substitute_all_lacks "`" inlineCodeRegex) by (assumption || apply startsWith_char).
  rewrite (substitute_all_lacks "010" lineBreaksRegex)
    by (assumption || apply startsWith_lineBreaks).
  apply extract_trimmed.
Qed.

Lemma clean_keeps_unmarked_text_witness :
  cleanTextForEmbedding defaultSettings sampleNote
  = extractHeadingsAndFirstWords defaultSettings sampleNote defaultWordLimit.
Proof.
  apply (clean_keeps_unmarked_text defaultSettings sampleNote).
  vm_compute. reflexivity.
Defined.

End CleanFacts.

Section ControlsFacts.
Import View Controls.

Lemma linkedFiles_fold (links : list GraphLink) (acc : gset string) (id : string) :
  id ∈ fold_left (fun linked link => linked ∪ {[ source link ]} ∪ {[ target link ]})
         links acc
  <-> id ∈ acc \/ exists link, link ∈ links /\ (source link = id \/ target link = id).
Proof.
  revert acc. induction links as [|l links IH]; intros acc; simpl.
  - split; [auto|]. intros [H | (link & H & _)]; [exact H | inversion H].
  - rewrite IH. rewrite !elem_of_union, !elem_of_singleton. split.
    + intros [[[H | H] | H] | (link & Hlink & H)]; auto.
      * right. exists l. split; [left | auto].
      * right. exists l. split; [left | auto].
      * right. exists link. split; [right; exact Hlink | exact H].
    + intros [H | (link & Hlink & H)]; [auto|].
      apply elem_of_cons in Hlink as [Heq | Hlink].
      * subst link. destruct H as [H | H]; auto.
      * right. exists link. auto.
Qed.

Lemma linkedFiles_spec (links : list GraphLink) (id : string) :
  id ∈ linkedFiles links
  <-> exists link, link ∈ links /\ (source link = id \/ target link = id).
Proof.
  unfold linkedFiles. rewrite linkedFiles_fold. split; [|auto].
  intros [H | H]; [|exact H]. exfalso. set_solver.
Qed.

(** A node of type [file], or without a type. *)
Definition isFile (node : ControlNode) : Prop :=
  cn_type node = None \/ cn_type node = Some FileNode.

(** X27.  With orphans switched off, every node that [applyFilters] leaves
    visible and that stands for an existing file is an end of a link of the
    view (of any link, also one whose other end is hidden); with a search
    query, the lower-case name of every visible node includes the query. *)
Theorem applyFilters_visible (filters : Filters) (fileExists : string -> bool)
    (nodes : list ControlNode) (links : list GraphLink) :
  Forall (fun node =>
            visible node = true ->
            (Text.nonempty (searchQuery filters) = true ->
             Service.includes (searchQuery filters) (Text.toLowerCase (cn_name node)) = true)
            /\ (showOrphans filters = false -> isFile node ->
                fileExists (cn_path node) = true ->
                exists link, link ∈ links
                             /\ (source link = cn_id node \/ target link = cn_id node)))
    (applyFilters filters fileExists nodes links).
Proof.
  unfold applyFilters. apply Forall_fmap, Forall_forall. intros node _.
  unfold visible. simpl. intros Hshown.
  assert (Hshow : shouldShow filters fileExists (linkedFiles links) node = true).
  { destruct (shouldShow filters fileExists (linkedFiles links) node);
      [reflexivity | discriminate Hshown]. }
  clear Hshown. unfold shouldShow in Hshow. split.
  - intros Hquery. rewrite Hquery in Hshow.
    destruct (Service.includes (searchQuery filters) (Text.toLowerCase (cn_name node)));
      [reflexivity|].
    exfalso. simpl in Hshow.
    destruct (cn_type node) as [[| |]|], (fileExists (cn_path node)),
      (bool_decide (cn_id node ∈ linkedFiles links)), (showOrphans filters),
      (existingFilesOnly filters); simpl in Hshow; discriminate Hshow.
  - intros Horphans Hfile Hexists. unfold isFile in Hfile. simpl in Hfile, Hexists.
    rewrite Horphans, Hexists in Hshow. apply linkedFiles_spec.
    destruct (bool_decide (cn_id node ∈ linkedFiles links)) eqn:Hin;
      [apply bool_decide_eq_true in Hin; exact Hin|].
    exfalso. destruct Hfile as [Hty | Hty]; rewrite Hty in Hshow; simpl in Hshow;
      discriminate Hshow.
Qed.

(** The state of [hidden] before the call does not matter. *)
Lemma applyFilters_again (filters : Filters) (fileExists : string -> bool)
    (nodes : list ControlNode) (links : list GraphLink) :
  applyFilters filters fileExists (applyFilters filters fileExists nodes links) links
  = applyFilters filters fileExists nodes links.
Proof.
  unfold applyFilters. rewrite map_map. apply map_ext. intros node. reflexivity.
Qed.

Lemma findNode_Some (nodes : list ControlNode) (id : string) (node : ControlNode) :
  findNode nodes id = Some node -> node ∈ nodes /\ cn_id node = id.
Proof.
  unfold findNode. intros H. apply find_some in H as [Hin Heq].
  split; [apply list_elem_of_In, Hin | apply String.eqb_eq, Heq].
Qed.

(** X28.  Every link that [updateFileCount] counts joins two nodes that it
    counts as files: both ends are ids of visible nodes. *)
Theorem counted_links_join_counted_nodes (nodes : list ControlNode)
    (links : list GraphLink) :
  Forall (fun link =>
            link ∈ links
            /\ exists sourceNode targetNode,
                 sourceNode ∈ visibleNodes nodes /\ targetNode ∈ visibleNodes nodes
                 /\ cn_id sourceNode = source link /\ cn_id targetNode = target link)
    (visibleLinks nodes links)
  /\ (snd (updateFileCount nodes links) <= length links)%nat
  /\ (fst (updateFileCount nodes links) <= length nodes)%nat.
Proof.
  split; [|split].
  - apply Forall_forall. intros link Hlink.
    apply list_elem_of_In, filter_In in Hlink as [Hin Hshown].
    split; [apply list_elem_of_In, Hin|].
    destruct (findNode nodes (source link)) as [s|] eqn:Hs; [|discriminate Hshown].
    destruct (findNode nodes (target link)) as [t|] eqn:Ht; [|discriminate Hshown].
    apply andb_prop in Hshown as [Hvs Hvt].
    apply findNode_Some in Hs as [Hs Hsid], Ht as [Ht Htid].
    exists s, t. unfold visibleNodes.
    repeat split; try assumption; apply list_elem_of_In, filter_In;
      (split; [apply list_elem_of_In|]); assumption.
  - simpl. unfold visibleLinks. apply List.filter_length_le.
  - simpl. unfold visibleNodes. apply List.filter_length_le.
Qed.

End ControlsFacts.
